(** * mujoco-wasm-unitree: scene synchronisation and gait controller

  A shallow embedding of the algorithmic core of
  [examples/mujocoUtils.js] and [examples/locomotionController.js]
  (the file also holds the [MuJoCoDemo] render loop), together with
  the properties of that core.

  Numbers.  JavaScript numbers are IEEE doubles.  The embedding keeps
  the finite ones as exact rationals ([Q]) and adds the two values
  that the code can meet besides them: [NaN] and [undefined] (the
  result of reading a typed array out of range).  Arithmetic on
  finite numbers is exact; rounding is not modelled. *)

From Stdlib Require Import QArith Qabs Qround Qminmax Lqa.
From stdpp Require Import base list gmap.

Local Open Scope Z_scope.

(** ** JavaScript values held by the buffers *)

Module JS.

(** An element of a [Float32Array] / [Float64Array]. *)
Inductive float : Type :=
| Fin (q : Q)
| NaN.

(** What an indexed read can return. *)
Inductive jsval : Type :=
| Number (f : float)
| Undefined.

(** [ToNumber], applied by every store into a typed array. *)
Definition toNumber (v : jsval) : float :=
  match v with
  | Number f => f
  | Undefined => NaN
  end.

(** Unary minus. *)
Definition fneg (f : float) : float :=
  match f with
  | Fin q => Fin (- q)
  | NaN => NaN
  end.

Definition neg (v : jsval) : jsval := Number (fneg (toNumber v)).

(** [v * k] for a finite constant [k]. *)
Definition scale (v : jsval) (k : Q) : jsval :=
  match v with
  | Number (Fin q) => Number (Fin (q * k))
  | _ => Number NaN
  end.

(** [buffer[i]]: [undefined] outside [0 .. length-1]. *)
Definition lookupZ {A} (l : list A) (i : Z) : option A :=
  if i <? 0 then None else l !! Z.to_nat i.

Definition get (buffer : list float) (i : Z) : jsval :=
  match lookupZ buffer i with
  | Some f => Number f
  | None => Undefined
  end.

(** [buffer[i] = v]: a store outside the array is ignored. *)
Definition store (buffer : list float) (i : Z) (v : jsval) : list float :=
  if i <? 0 then buffer else <[Z.to_nat i := toNumber v]> buffer.

Definition num (q : Q) : jsval := Number (Fin q).

(** [a > b] and [a < b] on finite numbers. *)
Definition gtb (a b : Q) : bool := negb (Qle_bool a b).
Definition ltb (a b : Q) : bool := negb (Qle_bool b a).

(** [for (let i = 0; i < n; i++) body(i)] over a state. *)
Definition for_range {S} (n : nat) (body : nat -> S -> S) (s : S) : S :=
  fold_left (fun acc i => body i acc) (seq 0 n) s.

End JS.

Import JS.

(** ** Coordinate adapter ([getPosition], [getQuaternion], [toMujocoPos]) *)

Module Coord.

(** [THREE.Vector3]; [set(x, y, z)] stores its three arguments. *)
Record Vector3 := vec3 { vx : jsval; vy : jsval; vz : jsval }.

(** [THREE.Quaternion]; [set(x, y, z, w)] stores its four arguments in
    that order. *)
Record Quaternion := quat { qx : jsval; qy : jsval; qz : jsval; qw : jsval }.

Definition getPosition (buffer : list float) (index : Z) (swizzle : bool)
  : Vector3 :=
  if swizzle then
    vec3 (get buffer (index * 3 + 0))
         (get buffer (index * 3 + 2))
         (neg (get buffer (index * 3 + 1)))
  else
    vec3 (get buffer (index * 3 + 0))
         (get buffer (index * 3 + 1))
         (get buffer (index * 3 + 2)).

Definition getQuaternion (buffer : list float) (index : Z) (swizzle : bool)
  : Quaternion :=
  if swizzle then
    quat (neg (get buffer (index * 4 + 1)))
         (neg (get buffer (index * 4 + 3)))
         (get buffer (index * 4 + 2))
         (neg (get buffer (index * 4 + 0)))
  else
    quat (get buffer (index * 4 + 0))
         (get buffer (index * 4 + 1))
         (get buffer (index * 4 + 2))
         (get buffer (index * 4 + 3)).

Definition toMujocoPos (target : Vector3) : Vector3 :=
  vec3 (vx target) (neg (vz target)) (vy target).

(** The orientation mapping as the specification words it: engine
    components [(w, x, y, z)] go to the render quaternion
    [(-x, -w, z, -y)].  The text does not say in which order the render
    tuple is listed, so both usual orders are written down. *)
Definition spec_orientation_xyzw (w x y z : float) : Quaternion :=
  quat (Number (fneg x)) (Number (fneg w)) (Number z) (Number (fneg y)).

Definition spec_orientation_wxyz (w x y z : float) : Quaternion :=
  quat (Number (fneg w)) (Number z) (Number (fneg y)) (Number (fneg x)).

(** The engine quaternion [(w, x, y, z)] is stored at [4*index ..
    4*index+3]. *)
Definition holds_quat (buffer : list float) (index : Z) (w x y z : float)
  : Prop :=
  lookupZ buffer (index * 4 + 0) = Some w /\
  lookupZ buffer (index * 4 + 1) = Some x /\
  lookupZ buffer (index * 4 + 2) = Some y /\
  lookupZ buffer (index * 4 + 3) = Some z.

Definition holds_pos (buffer : list float) (index : Z) (x y z : float)
  : Prop :=
  lookupZ buffer (index * 3 + 0) = Some x /\
  lookupZ buffer (index * 3 + 1) = Some y /\
  lookupZ buffer (index * 3 + 2) = Some z.

End Coord.

(** A buffer holding one quaternion (or one position and a spare
    component), used to evaluate the accessors. *)
Definition sample_quat_buffer : list float :=
  [Fin 1; Fin 2; Fin 3; Fin 4].

(** ** Gait controller ([LocomotionController]) *)

Module Gait.

Local Open Scope Q_scope.

Definition NUM_LEGS : nat := 4.
Definition JOINTS_PER_LEG : nat := 3.
Definition NUM_MOTORS : nat := NUM_LEGS * JOINTS_PER_LEG.

Definition FR : nat := 0.
Definition FL : nat := 1.
Definition RR : nat := 2.
Definition RL : nat := 3.

Definition HIP_JOINT : nat := 0.
Definition THIGH_JOINT : nat := 1.
Definition CALF_JOINT : nat := 2.

Definition DEFAULT_POSE : list Q :=
  [ 0.0; 0.9; -1.8;
    0.0; 0.9; -1.8;
    0.0; 0.9; -1.8;
    0.0; 0.9; -1.8 ].

Definition TROT_CYCLE_DURATION : Q := 0.6.
Definition TROT_STEP_HEIGHT : Q := 0.1.
Definition TROT_STEP_LENGTH : Q := 0.15.
Definition TROT_PAIRS : list (list nat) := [ [FL; RR]; [FR; RL] ].

(** Truncation toward zero, and the remainder operator [a % b], whose
    result takes the sign of the dividend. *)
Definition Qtrunc (q : Q) : Z :=
  if Qle_bool 0 q then Qfloor q else Qceiling q.

Definition rem (a b : Q) : Q := a - b * inject_Z (Qtrunc (a / b)).

(** The controller together with the command buffer [simulation.ctrl] it
    writes into.  The buffer is a [Float64Array] of the engine: a store
    past its end is ignored and a read past its end gives [undefined].
    Its entries, like the time, the phase, the direction and the speed,
    are taken to be finite numbers. *)
Record Controller := mkController {
  ctrl : list Q;
  time : Q;
  phase : Q;
  isMoving : bool;
  direction : Q * Q * Q;
  speed : Q
}.

Definition set_ctrl (c : list Q) (s : Controller) : Controller :=
  mkController c (time s) (phase s) (isMoving s) (direction s) (speed s).

(** [DEFAULT_POSE[i]], read only at [i < 12]. *)
Definition pose (i : nat) : Q := nth i DEFAULT_POSE 0.

Definition reset (s : Controller) : Controller :=
  set_ctrl (for_range NUM_MOTORS (fun i c => <[i := pose i]> c) (ctrl s)) s.

(** [new LocomotionController(simulation)]. *)
Definition constructor (simulation_ctrl : list Q) : Controller :=
  reset (mkController simulation_ctrl 0 0 false (1, 0, 0) 0.5).

Definition setSpeed (sp : Q) (s : Controller) : Controller :=
  mkController (ctrl s) (time s) (phase s) (isMoving s) (direction s)
               (Qmax 0 (Qmin 1 sp)).

Definition returnSpeed : Q := 0.5.

(** One pass of the loop body of [returnToStandingPose] on a value that
    is present. *)
Definition relax (dt : Q) (target current : Q) : Q :=
  let diff := target - current in
  if gtb (Qabs diff) 0.01 then current + diff * returnSpeed * dt
  else current.

(** A read of [ctrl[i]] past the end gives [undefined]; the difference is
    then NaN, the comparison is false and nothing is stored. *)
Definition returnToStandingPose (dt : Q) (s : Controller) : Controller :=
  set_ctrl
    (for_range NUM_MOTORS
       (fun i c =>
          match c !! i with
          | Some current => <[i := relax dt (pose i) current]> c
          | None => c
          end)
       (ctrl s)) s.

(** [TROT_PAIRS[p][k]]. *)
Definition pair_leg (p k : nat) : nat := nth k (nth p TROT_PAIRS []) 0%nat.

(** The first half of [applyTrottingGait]: the phase of each leg. *)
Definition legPhases (ph : Q) : list Q :=
  let legPhases0 := [0; 0; 0; 0] in
  if ltb ph 0.5 then
    <[pair_leg 1 1 := ph * 2]>
      (<[pair_leg 1 0 := ph * 2]>
         (<[pair_leg 0 1 := 0]>
            (<[pair_leg 0 0 := 0]> legPhases0)))
  else
    <[pair_leg 1 1 := 0]>
      (<[pair_leg 1 0 := 0]>
         (<[pair_leg 0 1 := (ph - 0.5) * 2]>
            (<[pair_leg 0 0 := (ph - 0.5) * 2]> legPhases0))).

Section Builtins.

(** [Math.sqrt], [Math.sin] and [Math.PI] have no exact rational
    counterpart; the controller is parametrised by them. *)
Variable Math_sqrt : Q -> Q.
Variable Math_sin : Q -> Q.
Variable Math_PI : Q.

(** [this.direction.set(x, y, 0).normalize()]: three.js divides by
    [length() || 1]. *)
Definition normalize (v : Q * Q * Q) : Q * Q * Q :=
  let '(x, y, z) := v in
  let len := Math_sqrt (x * x + y * y + z * z) in
  let scalar := if Qeq_bool len 0 then 1 else len in
  (x * (1 / scalar), y * (1 / scalar), z * (1 / scalar)).

Definition setDirection (x y : Q) (s : Controller) : Controller :=
  mkController (ctrl s) (time s) (phase s)
               (gtb (Qabs x) 0.1 || gtb (Qabs y) 0.1)
               (normalize (x, y, 0)) (speed s).

Definition calculateLegJointPositions (leg : nat) (ph : Q) (s : Controller)
  : Controller :=
  let baseIdx := (leg * JOINTS_PER_LEG)%nat in
  let hipPos := pose (baseIdx + HIP_JOINT) in
  let thighPos := pose (baseIdx + THIGH_JOINT) in
  let calfPos := pose (baseIdx + CALF_JOINT) in
  let '(hipPos, thighPos, calfPos) :=
    if gtb ph 0 then
      let heightFactor := Math_sin (ph * Math_PI) in
      let swingProgress := ph in
      let '(dx, dy, _) := direction s in
      let legDirectionY :=
        if (leg =? FL)%nat || (leg =? RL)%nat then dy * (-1.0) else dy in
      let legDirectionX :=
        if (leg =? RR)%nat || (leg =? RL)%nat then dx * (-1.0) else dx in
      let stepX := speed s * TROT_STEP_LENGTH * (swingProgress - 0.5) * legDirectionX in
      let stepY := speed s * TROT_STEP_LENGTH * (swingProgress - 0.5) * legDirectionY in
      let stepZ := speed s * TROT_STEP_HEIGHT * heightFactor in
      (hipPos + stepY * 0.8,
       thighPos + (stepX * 0.5 - stepZ * 0.5),
       calfPos + stepZ * 0.8)
    else (hipPos, thighPos, calfPos) in
  set_ctrl
    (<[(baseIdx + CALF_JOINT)%nat := calfPos]>
       (<[(baseIdx + THIGH_JOINT)%nat := thighPos]>
          (<[(baseIdx + HIP_JOINT)%nat := hipPos]> (ctrl s)))) s.

Definition applyTrottingGait (s : Controller) : Controller :=
  let lp := legPhases (phase s) in
  for_range NUM_LEGS
    (fun leg acc => calculateLegJointPositions leg (nth leg lp 0) acc) s.

Definition gaitPhase (t : Q) : Q :=
  rem t TROT_CYCLE_DURATION / TROT_CYCLE_DURATION.

Definition update (dt : Q) (s : Controller) : Controller :=
  let s1 := mkController (ctrl s) (time s + dt) (phase s) (isMoving s)
                         (direction s) (speed s) in
  if negb (isMoving s1) then returnToStandingPose dt s1
  else
    let s2 := mkController (ctrl s1) (time s1) (gaitPhase (time s1))
                           (isMoving s1) (direction s1) (speed s1) in
    applyTrottingGait s2.

End Builtins.

(** States used to evaluate the controller. *)
Definition sample_controller : Controller :=
  mkController (repeat 0 12) 5 0.25 true (1, 0, 0) 0.5.

Definition idle_controller : Controller :=
  mkController (repeat 0 12) 0 0 false (0, 0, 0) 0.5.

End Gait.

(** ** Tendon pools and their per-frame update ([MuJoCoDemo.render]) *)

Module Tendon.

Import Coord.
Local Open Scope Q_scope.

(** [v.length() > 0.01].  The length is the square root of
    [x*x + y*y + z*z]; on finite components the test holds exactly when
    that sum exceeds [0.01 * 0.01].  With a NaN or [undefined] component
    the length is NaN and the comparison is false. *)
Definition longer_than_dead (v : Vector3) : bool :=
  match vx v, vy v, vz v with
  | Number (Fin x), Number (Fin y), Number (Fin z) =>
      gtb (x * x + y * y + z * z) (0.01 * 0.01)
  | _, _, _ => false
  end.

(** What an instance matrix is composed from.  A sphere:
    [mat.compose(point, identity, (r, r, r))].  A cylinder:
    [mat.compose(average, rotation of the Y axis onto the unit vector
    from start to end, (r, distance, r))]. *)
Inductive SphereInstance := sphere_at (center : Vector3) (r : jsval).
Inductive CylinderInstance := cylinder_between (a b : Vector3) (r : jsval).

(** [THREE.InstancedMesh]: an instance buffer of fixed capacity (a
    [Float32Array]; [setMatrixAt] past its end stores nothing) and the
    [count] of instances to draw, an ordinary property.  A slot that was
    never written holds the zero matrix, [None]. *)
Record InstancedMesh (A : Type) := mkInstancedMesh {
  instanceMatrix : list (option A);
  count : nat
}.
Arguments mkInstancedMesh {A} _ _.
Arguments instanceMatrix {A} _.
Arguments count {A} _.

Definition newInstancedMesh {A} (capacity : nat) : InstancedMesh A :=
  mkInstancedMesh (replicate capacity None) capacity.

Definition setMatrixAt {A} (mesh : InstancedMesh A) (index : nat) (m : A)
  : InstancedMesh A :=
  mkInstancedMesh (<[index := Some m]> (instanceMatrix mesh)) (count mesh).

Definition set_count {A} (mesh : InstancedMesh A) (n : nat) : InstancedMesh A :=
  mkInstancedMesh (instanceMatrix mesh) n.

(** The two pools hanging off [mujocoRoot]. *)
Record Pools := mkPools {
  cylinders : InstancedMesh CylinderInstance;
  spheres : InstancedMesh SphereInstance
}.

(** The capacity given to both pools by [loadSceneFromURL]. *)
Definition POOL_CAPACITY : nat := 1023.

Definition newPools : Pools :=
  mkPools (newInstancedMesh POOL_CAPACITY) (newInstancedMesh POOL_CAPACITY).

Record TendonModel := mkTendonModel {
  ntendon : nat;
  tendon_width : list float
}.

Record TendonState := mkTendonState {
  ten_wrapadr : list Z;
  ten_wrapnum : list Z;
  wrap_xpos : list float
}.

Definition validStart (xpos : list float) (w : Z) : bool :=
  longer_than_dead (getPosition xpos w true).

Definition validEnd (xpos : list float) (w : Z) : bool :=
  longer_than_dead (getPosition xpos (w + 1) true).

(** Body of the inner loop, for the pair of wrap points [w], [w + 1]. *)
Definition pairStep (r : jsval) (xpos : list float) (w : Z)
    (st : Pools * nat) : Pools * nat :=
  let '(root, numWraps) := st in
  let tendonStart := getPosition xpos w true in
  let tendonEnd := getPosition xpos (w + 1) true in
  let sph1 :=
    if validStart xpos w
    then setMatrixAt (spheres root) numWraps (sphere_at tendonStart r)
    else spheres root in
  let sph2 :=
    if validEnd xpos w
    then setMatrixAt sph1 (numWraps + 1) (sphere_at tendonEnd r)
    else sph1 in
  if validStart xpos w && validEnd xpos w then
    (mkPools (setMatrixAt (cylinders root) numWraps
                (cylinder_between tendonStart tendonEnd r)) sph2,
     (numWraps + 1)%nat)
  else (mkPools (cylinders root) sph2, numWraps).

(** The values taken by [w] in
    [for (w = startW; w < startW + ten_wrapnum[t] - 1; w++)].  When either
    table has no entry [t] the bound is NaN and the loop does not run. *)
Definition wrapIndices (sim : TendonState) (t : nat) : list Z :=
  match ten_wrapadr sim !! t, ten_wrapnum sim !! t with
  | Some startW, Some n =>
      map (fun k => (startW + Z.of_nat k)%Z) (seq 0 (Z.to_nat (n - 1)))
  | _, _ => []
  end.

Definition tendonStep (model : TendonModel) (sim : TendonState) (t : nat)
    (st : Pools * nat) : Pools * nat :=
  let r := get (tendon_width model) (Z.of_nat t) in
  fold_left (fun acc w => pairStep r (wrap_xpos sim) w acc)
            (wrapIndices sim t) st.

(** The block under [if (this.mujocoRoot && this.mujocoRoot.cylinders)]. *)
Definition updateTendons (model : TendonModel) (sim : TendonState)
    (root : Pools) : Pools :=
  let '(root', numWraps) :=
    for_range (ntendon model) (tendonStep model sim) (root, 0%nat) in
  mkPools (set_count (cylinders root') numWraps)
          (set_count (spheres root')
             (if (0 <? numWraps)%nat then (numWraps + 1)%nat else 0%nat)).

Definition renderTendons (model : TendonModel) (sim : TendonState)
    (mujocoRoot : option Pools) : option Pools :=
  match mujocoRoot with
  | Some root => Some (updateTendons model sim root)
  | None => None
  end.

(** The pairs of consecutive wrap points of a frame, listed tendon by
    tendon, and how many of them have two live endpoints. *)
Definition wrapPairs (model : TendonModel) (sim : TendonState) : list Z :=
  flat_map (wrapIndices sim) (seq 0 (ntendon model)).

Definition bothValid (xpos : list float) (w : Z) : bool :=
  validStart xpos w && validEnd xpos w.

Definition numValidPairs (model : TendonModel) (sim : TendonState) : nat :=
  length (List.filter (bothValid (wrap_xpos sim)) (wrapPairs model sim)).

(** One tendon of width 0.01 routed through [n] wrap points, all at
    (1, 1, 1). *)
Definition one_tendon_model : TendonModel := mkTendonModel 1 [Fin 0.01].

Definition one_tendon_state (n : nat) : TendonState :=
  mkTendonState [0%Z] [Z.of_nat n] (repeat (Fin 1) (3 * n)).

(** Two tendons of two wrap points each; the second point of the first
    tendon is a dead point at the origin. *)
Definition two_tendon_model : TendonModel :=
  mkTendonModel 2 [Fin 0.01; Fin 0.01].

Definition two_tendon_state : TendonState :=
  mkTendonState [0%Z; 2%Z] [2%Z; 2%Z]
    [Fin 1; Fin 0; Fin 0;  Fin 0; Fin 0; Fin 0;
     Fin 2; Fin 0; Fin 0;  Fin 3; Fin 0; Fin 0].

End Tendon.

(** ** Scene build ([loadSceneFromURL]) *)

Module Build.

Import Coord.
Local Open Scope Z_scope.

(** *** Values read from the model tables *)

(** An integer read from an [Int32Array] table, or [undefined] when the
    index is outside the table.  Such a value is also what indexes the
    [bodies] and [meshes] objects. *)
Definition key := option Z.

(** [table[i]] for an index that may itself be [undefined]. *)
Definition geti (table : list Z) (i : key) : key :=
  match i with
  | Some i => lookupZ table i
  | None => None
  end.

Definition getf (buffer : list float) (i : key) : jsval :=
  match i with
  | Some i => get buffer i
  | None => Undefined
  end.

(** [i * k + d] on an index that may be [undefined] (NaN then, which
    indexes nothing). *)
Definition at_ (i : key) (k d : Z) : key :=
  match i with
  | Some i => Some (i * k + d)
  | None => None
  end.

(** [a != b] between an integer-or-undefined and an integer literal. *)
Definition key_neq (a : key) (b : Z) : bool :=
  match a with
  | Some a => negb (a =? b)
  | None => true
  end.

Definition key_eq (a : key) (b : Z) : bool := negb (key_neq a b).

(** [a != b] between two numbers-or-undefined. *)
Definition jneq (a b : jsval) : bool :=
  match a, b with
  | Number (Fin x), Number (Fin y) => negb (Qeq_bool x y)
  | Undefined, Undefined => false
  | _, _ => true
  end.

(** [1.0 - v]. *)
Definition one_minus (v : jsval) : jsval :=
  match v with
  | Number (Fin q) => Number (Fin (1 - q))
  | _ => Number NaN
  end.

(** [v < 1.0]. *)
Definition below_one (v : jsval) : bool :=
  match v with
  | Number (Fin q) => ltb q 1
  | _ => false
  end.

(** *** Typed-array views *)

(** A view made by [subarray]: it shares the storage of the array it was
    taken from, starting at [v_off] and spanning [v_len] elements. *)
Record View := mkView { v_off : nat; v_len : nat }.

(** [array.subarray(begin, end)] on an array of [len] elements; a
    negative bound counts from the end and both bounds are clamped. *)
Definition subarray (len : nat) (begin end_ : Z) : View :=
  let len := Z.of_nat len in
  let rb := if begin <? 0 then Z.max (len + begin) 0 else Z.min begin len in
  let re := if end_ <? 0 then Z.max (len + end_) 0 else Z.min end_ len in
  mkView (Z.to_nat rb) (Z.to_nat (Z.max (re - rb) 0)).

(** A computed bound that is NaN is converted to 0. *)
Definition bound (i : key) : Z := default 0 i.

Definition view_get (buffer : list float) (v : View) (i : nat) : jsval :=
  if (i <? v_len v)%nat then get buffer (Z.of_nat (v_off v + i)) else Undefined.

Definition view_set (buffer : list float) (v : View) (i : nat) (x : jsval)
  : list float :=
  if (i <? v_len v)%nat then store buffer (Z.of_nat (v_off v + i)) x else buffer.

Definition view_contents {A} (buffer : list A) (v : View) : list A :=
  take (v_len v) (drop (v_off v) buffer).

(** The loop
    [for (v = 0; v < buffer.length; v += 3) { temp = buffer[v+1];
     buffer[v+1] = buffer[v+2]; buffer[v+2] = -temp; }]
    run on a view; it writes through to the storage below. *)
Definition swizzleStep (v : View) (k : nat) (buffer : list float)
  : list float :=
  let i := (3 * k)%nat in
  let temp := view_get buffer v (i + 1) in
  let buffer1 := view_set buffer v (i + 1) (view_get buffer v (i + 2)) in
  view_set buffer1 v (i + 2) (neg temp).

Definition swizzleInPlace (v : View) (buffer : list float) : list float :=
  for_range ((v_len v + 2) / 3)%nat (swizzleStep v) buffer.

(** *** Scene objects *)

Inductive Geometry :=
| SphereGeometry (radius : jsval)
| CapsuleGeometry (radius length : jsval)
| CylinderGeometry (radiusTop radiusBottom height : jsval)
| BoxGeometry (width height depth : jsval)
| PlaneGeometry (width height : Q)
(** A [BufferGeometry]: the position and normal attributes are views
    into [model.mesh_vert] and [model.mesh_normal], the uv attribute a
    view into [model.mesh_texcoord], the index a fresh array. *)
| BufferGeometry (position normal uv : View) (index : list Z).

Record Texture := mkTexture {
  tex_uid : nat;
  tex_data : list Z;
  tex_w : key;
  tex_h : key;
  tex_repeat : Z * Z
}.

Record Material := mkMaterial {
  mat_uid : nat;
  color : jsval * jsval * jsval;
  opacity : jsval;
  transparent : bool;
  specularIntensity : jsval;
  reflectivity : jsval;
  roughness : jsval;
  metalness : jsval;
  map : option Texture
}.

Inductive MeshKind :=
| Reflector (geometry : Geometry) (texture : option Texture)
| PlainMesh (geometry : Geometry) (material : Material).

Record Mesh := mkMesh {
  kind : MeshKind;
  castShadow : bool;
  receiveShadow : bool;
  mesh_bodyID : key;
  position : Vector3;
  quaternion : option Quaternion;
  mesh_scale : option (jsval * jsval * jsval)
}.

(** A light ([DirectionalLight] or [SpotLight]) and its [decay]; the
    settings that are the same for every light (penumbra, shadow casting,
    shadow map size and range) are left out. *)
Record Light := mkLight {
  directional : bool;
  decay : jsval
}.

Inductive Child :=
| CMesh (m : Mesh)
| CLight (l : Light)
| CBody (b : key)
| CCylinders
| CSpheres.

Record Group := mkGroup {
  name : option (list Z);
  bodyID : key;
  has_custom_mesh : bool;
  children : list Child
}.

Definition add (c : Child) (g : Group) : Group :=
  mkGroup (name g) (bodyID g) (has_custom_mesh g) (children g ++ [c]).

(** *** The model *)

Record Model := mkModel {
  names : option (list Z);
  nbody : nat;
  ngeom : nat;
  nlight : nat;
  name_bodyadr : list Z;
  geom_group : list Z;
  geom_bodyid : list Z;
  geom_type : list Z;
  geom_dataid : list Z;
  geom_matid : list Z;
  geom_size : list float;
  geom_rgba : list float;
  geom_pos : list float;
  geom_quat : list float;
  mat_rgba : list float;
  mat_texid : list Z;
  mat_specular : list float;
  mat_reflectance : list float;
  mat_shininess : list float;
  tex_width : list Z;
  tex_height : list Z;
  tex_adr : list Z;
  tex_rgb : list Z;
  mesh_vert : list float;
  mesh_normal : list float;
  mesh_texcoord : list float;
  mesh_face : list Z;
  mesh_vertadr : list Z;
  mesh_vertnum : list Z;
  mesh_texcoordadr : list Z;
  mesh_faceadr : list Z;
  mesh_facenum : list Z;
  light_directional : list Z;
  light_attenuation : list float
}.

(** Modelled from the spec: the shape-type tags of the engine's
    [mjtGeom] enumeration (plane, height-field, sphere, capsule,
    ellipsoid, cylinder, box, triangle mesh), which the binding provides;
    the literals 0, 4 and 7 used by the build for plane, ellipsoid and
    mesh fix the numbering. *)
Definition mjGEOM_PLANE : Z := 0.
Definition mjGEOM_HFIELD : Z := 1.
Definition mjGEOM_SPHERE : Z := 2.
Definition mjGEOM_CAPSULE : Z := 3.
Definition mjGEOM_ELLIPSOID : Z := 4.
Definition mjGEOM_CYLINDER : Z := 5.
Definition mjGEOM_BOX : Z := 6.
Definition mjGEOM_MESH : Z := 7.

(** *** Build state *)

(** What the build holds while it runs: the two model buffers it writes
    into, the [bodies] and [meshes] objects, the memoized [material], and
    how many materials and textures were allocated so far (the next fresh
    object identity of each). *)
Record State := mkState {
  st_mesh_vert : list float;
  st_mesh_normal : list float;
  bodies : gmap key Group;
  meshes : gmap key Geometry;
  material : Material;
  materials_allocated : nat;
  textures_allocated : nat
}.

Inductive exn := InvalidNames | RangeError.

Inductive outcome :=
| Ok (st : State)
| Throw (e : exn) (st : State).

(** [let material = new THREE.MeshPhysicalMaterial();
     material.color = new THREE.Color(1, 1, 1);] *)
Definition defaultMaterial : Material :=
  mkMaterial 0 (num 1, num 1, num 1) (num 1) false
             Undefined Undefined Undefined Undefined None.

Definition initialState (model : Model) : State :=
  mkState (mesh_vert model) (mesh_normal model) ∅ ∅ defaultMaterial 1 0.

(** *** Body creation *)

(** The number of bytes before the first null byte. *)
Fixpoint untilNull (bytes : list Z) : nat :=
  match bytes with
  | [] => 0
  | c :: rest => if c =? 0 then 0%nat else S (untilNull rest)
  end.

(** Where the scan
    [while (end_idx < names_array.length && names_array[end_idx] !== 0)]
    stops when started at [start_idx]; a negative index reads
    [undefined], which is not 0, so the scan walks up to index 0 first. *)
Definition scanEnd (names_array : list Z) (start_idx : Z) : Z :=
  let from := Z.max start_idx 0 in
  if Z.of_nat (length names_array) <=? start_idx then start_idx
  else from + Z.of_nat (untilNull (drop (Z.to_nat from) names_array)).

Definition bodyName (names_array : list Z) (start_idx : key) : list Z :=
  match start_idx with
  | Some s =>
      view_contents names_array
        (subarray (length names_array) s (scanEnd names_array s))
  | None => names_array
  end.

Definition newBody (model : Model) (names_array : list Z) (b : key) : Group :=
  mkGroup (Some (bodyName names_array (geti (name_bodyadr model) b))) b false [].

(** *** Geometry synthesis *)

Definition size_of (model : Model) (g : nat) (k : Z) : jsval :=
  get (geom_size model) (Z.of_nat g * 3 + k).

Definition meshViews (model : Model) (meshID : key) (st : State)
  : View * View * View * View :=
  let vertadr := geti (mesh_vertadr model) meshID in
  let vertnum := geti (mesh_vertnum model) meshID in
  let texadr := geti (mesh_texcoordadr model) meshID in
  let faceadr := geti (mesh_faceadr model) meshID in
  let facenum := geti (mesh_facenum model) meshID in
  let plus (a b : key) : key :=
    match a, b with Some a, Some b => Some (a + b) | _, _ => None end in
  let vertex_buffer :=
    subarray (length (st_mesh_vert st))
      (bound (at_ vertadr 3 0)) (bound (at_ (plus vertadr vertnum) 3 0)) in
  let normal_buffer :=
    subarray (length (st_mesh_normal st))
      (bound (at_ vertadr 3 0)) (bound (at_ (plus vertadr vertnum) 3 0)) in
  let uv_buffer :=
    subarray (length (mesh_texcoord model))
      (bound (at_ texadr 2 0)) (bound (at_ (plus texadr vertnum) 2 0)) in
  let triangle_buffer :=
    subarray (length (mesh_face model))
      (bound (at_ faceadr 3 0)) (bound (at_ (plus faceadr facenum) 3 0)) in
  (vertex_buffer, normal_buffer, uv_buffer, triangle_buffer).

(** The [mjGEOM_MESH] branch. *)
Definition synthesizeMesh (model : Model) (meshID : key) (st : State)
  : Geometry * State :=
  match meshes st !! meshID with
  | None =>
      let '(vertex_buffer, normal_buffer, uv_buffer, triangle_buffer) :=
        meshViews model meshID st in
      let geometry :=
        BufferGeometry vertex_buffer normal_buffer uv_buffer
          (view_contents (mesh_face model) triangle_buffer) in
      (geometry,
       mkState (swizzleInPlace vertex_buffer (st_mesh_vert st))
               (swizzleInPlace normal_buffer (st_mesh_normal st))
               (bodies st) (<[meshID := geometry]> (meshes st))
               (material st) (materials_allocated st) (textures_allocated st))
  | Some geometry => (geometry, st)
  end.

Definition mark_custom_mesh (b : key) (st : State) : State :=
  mkState (st_mesh_vert st) (st_mesh_normal st)
          (alter (fun grp => mkGroup (name grp) (bodyID grp) true (children grp))
                 b (bodies st))
          (meshes st) (material st) (materials_allocated st)
          (textures_allocated st).

Definition synthesizeGeometry (model : Model) (g : nat) (b type : key)
    (st : State) : Geometry * State :=
  let size0 := size_of model g 0 in
  let size1 := size_of model g 1 in
  let size2 := size_of model g 2 in
  let geometry := SphereGeometry (scale size0 0.5) in
  if key_eq type mjGEOM_PLANE then (geometry, st)
  else if key_eq type mjGEOM_HFIELD then (geometry, st)
  else if key_eq type mjGEOM_SPHERE then (SphereGeometry size0, st)
  else if key_eq type mjGEOM_CAPSULE then
    (CapsuleGeometry size0 (scale size1 2.0), st)
  else if key_eq type mjGEOM_ELLIPSOID then (SphereGeometry (num 1), st)
  else if key_eq type mjGEOM_CYLINDER then
    (CylinderGeometry size0 size0 (scale size1 2.0), st)
  else if key_eq type mjGEOM_BOX then
    (BoxGeometry (scale size0 2.0) (scale size2 2.0) (scale size1 2.0), st)
  else if key_eq type mjGEOM_MESH then
    let '(geometry, st) := synthesizeMesh model (geti (geom_dataid model) (Some (Z.of_nat g))) st in
    (geometry, mark_custom_mesh b st)
  else (geometry, st).

(** *** Appearance: colour, texture, material *)

(** [new Uint8Array(n)]: a NaN length gives an empty array; a negative
    length, or one above 2^53 - 1, raises a [RangeError].  (An engine may
    refuse smaller lengths too; that is not modelled.) *)
Definition typedArrayLength (n : key) : option nat :=
  match n with
  | None => Some 0%nat
  | Some n => if (n <? 0) || (2 ^ 53 - 1 <? n) then None else Some (Z.to_nat n)
  end.

Definition mulk (a b : key) : key :=
  match a, b with
  | Some a, Some b => Some (a * b)
  | _, _ => None
  end.

(** The pixel loop: three bytes copied from [tex_rgb], the fourth set to
    1.  A byte read outside [tex_rgb] is [undefined] and is stored as 0. *)
Definition texturePixels (model : Model) (offset : key) (pixels : nat) : list Z :=
  flat_map
    (fun p =>
       let src k :=
         default 0 (geti (tex_rgb model)
                      (at_ offset 1 (Z.of_nat p * 3 + k))) in
       [src 0; src 1; src 2; 1])
    (seq 0 pixels).

(** [texture] for a material [matId]: [undefined] when the material has
    no texture, a fresh [DataTexture] otherwise; [None] when the
    allocation of its pixel array throws. *)
Definition makeTexture (model : Model) (matId : key) (st : State)
  : option (option Texture * State) :=
  let texId := geti (mat_texid model) matId in
  if key_neq texId (-1) then
    let width := geti (tex_width model) texId in
    let height := geti (tex_height model) texId in
    let offset := geti (tex_adr model) texId in
    match typedArrayLength (mulk (mulk width height) (Some 4)) with
    | None => None
    | Some _ =>
        let pixels := Z.to_nat (default 0 (mulk width height)) in
        let texture :=
          mkTexture (textures_allocated st)
                    (texturePixels model offset pixels) width height
                    (if key_eq texId 2 then (50, 50) else (1, 1)) in
        Some (Some texture,
              mkState (st_mesh_vert st) (st_mesh_normal st) (bodies st)
                      (meshes st) (material st) (materials_allocated st)
                      (S (textures_allocated st)))
    end
  else Some (None, st).

(** The colour of geometry [g]: its own [geom_rgba] entry, or the
    [mat_rgba] entry of its material when it has one. *)
Definition derivedColor (model : Model) (g : nat) : jsval * jsval * jsval * jsval :=
  let matId := geti (geom_matid model) (Some (Z.of_nat g)) in
  if key_neq matId (-1) then
    (getf (mat_rgba model) (at_ matId 4 0),
     getf (mat_rgba model) (at_ matId 4 1),
     getf (mat_rgba model) (at_ matId 4 2),
     getf (mat_rgba model) (at_ matId 4 3))
  else
    (get (geom_rgba model) (Z.of_nat g * 4 + 0),
     get (geom_rgba model) (Z.of_nat g * 4 + 1),
     get (geom_rgba model) (Z.of_nat g * 4 + 2),
     get (geom_rgba model) (Z.of_nat g * 4 + 3)).

(** Whether geometry [g] gets a texture: it has a material and the
    material has a texture id. *)
Definition hasTexture (model : Model) (g : nat) : bool :=
  let matId := geti (geom_matid model) (Some (Z.of_nat g)) in
  key_neq matId (-1) && key_neq (geti (mat_texid model) matId) (-1).

(** The texture id of geometry [g], when it has a texture. *)
Definition textureId (model : Model) (g : nat) : key :=
  geti (mat_texid model) (geti (geom_matid model) (Some (Z.of_nat g))).

Definition deriveTexture (model : Model) (g : nat) (st : State)
  : option (option Texture * State) :=
  let matId := geti (geom_matid model) (Some (Z.of_nat g)) in
  if key_neq matId (-1) then makeTexture model matId st
  else Some (None, st).

(** [new THREE.Color(r, g, b)]: with all three arguments [undefined] the
    colour stays white, otherwise the arguments are stored.  (A number
    followed by two [undefined] would be read as a hex colour; four
    consecutive entries of a table whose length is a multiple of four
    never give that.) *)
Definition newColor (r g b : jsval) : jsval * jsval * jsval :=
  match r, g, b with
  | Undefined, Undefined, Undefined => (num 1, num 1, num 1)
  | _, _, _ => (r, g, b)
  end.

(** [material.map != texture]: [null] and [undefined] are equal, two
    objects are equal when they are the same object. *)
Definition map_neq (a b : option Texture) : bool :=
  match a, b with
  | None, None => false
  | Some x, Some y => negb (tex_uid x =? tex_uid y)%nat
  | _, _ => true
  end.

Definition materialDiffers (m : Material) (c : jsval * jsval * jsval * jsval)
    (texture : option Texture) : bool :=
  let '(c0, c1, c2, c3) := c in
  let '(r, g, b) := color m in
  jneq r c0 || jneq g c1 || jneq b c2 || jneq (opacity m) c3
  || map_neq (map m) texture.

(** [new THREE.MeshPhysicalMaterial({...})]; a parameter given as
    [undefined] leaves the default of the property in place (opacity 1,
    no map). *)
Definition newMaterial (model : Model) (g : nat) (uid : nat)
    (c : jsval * jsval * jsval * jsval) (texture : option Texture) : Material :=
  let '(c0, c1, c2, c3) := c in
  let matId := geti (geom_matid model) (Some (Z.of_nat g)) in
  let hasMat := key_neq matId (-1) in
  mkMaterial uid (newColor c0 c1 c2)
    (match c3 with Undefined => num 1 | _ => c3 end)
    (below_one c3)
    (if hasMat then scale (getf (mat_specular model) matId) 0.5 else Undefined)
    (if hasMat then getf (mat_reflectance model) matId else Undefined)
    (if hasMat then one_minus (getf (mat_shininess model) matId) else Undefined)
    (if hasMat then num 0.1 else Undefined)
    texture.

(** The memo: a new material only when the current one differs. *)
Definition resolveMaterial (model : Model) (g : nat)
    (c : jsval * jsval * jsval * jsval) (texture : option Texture)
    (st : State) : State :=
  if materialDiffers (material st) c texture then
    mkState (st_mesh_vert st) (st_mesh_normal st) (bodies st) (meshes st)
            (newMaterial model g (materials_allocated st) c texture)
            (S (materials_allocated st)) (textures_allocated st)
  else st.

(** *** One geometry *)

Definition ensureBody (model : Model) (names_array : list Z) (b : key)
    (st : State) : State :=
  match bodies st !! b with
  | Some _ => st
  | None =>
      mkState (st_mesh_vert st) (st_mesh_normal st)
              (<[b := newBody model names_array b]> (bodies st))
              (meshes st) (material st) (materials_allocated st)
              (textures_allocated st)
  end.

Definition attachMesh (b : key) (m : Mesh) (st : State) : State :=
  mkState (st_mesh_vert st) (st_mesh_normal st)
          (alter (add (CMesh m)) b (bodies st))
          (meshes st) (material st) (materials_allocated st)
          (textures_allocated st).

Definition visible (model : Model) (g : nat) : bool :=
  match lookupZ (geom_group model) (Z.of_nat g) with
  | Some grp => grp <? 3
  | None => false
  end.

(** The body of the loop over geometries. *)
Definition geomStep (model : Model) (names_array : list Z) (g : nat)
    (st : State) : outcome :=
  if negb (visible model g) then Ok st
  else
    let b := geti (geom_bodyid model) (Some (Z.of_nat g)) in
    let type := geti (geom_type model) (Some (Z.of_nat g)) in
    let st := ensureBody model names_array b st in
    let '(geometry, st) := synthesizeGeometry model g b type st in
    match deriveTexture model g st with
    | None => Throw RangeError st
    | Some (texture, st) =>
        let c := derivedColor model g in
        let st := resolveMaterial model g c texture st in
        let mesh :=
          mkMesh
            (if key_eq type 0
             then Reflector (PlaneGeometry 100 100) texture
             else PlainMesh geometry (material st))
            (negb (g =? 0)%nat)
            (key_neq type 7)
            b
            (getPosition (geom_pos model) (Z.of_nat g) true)
            (if key_neq type 0
             then Some (getQuaternion (geom_quat model) (Z.of_nat g) true)
             else None)
            (if key_eq type 4
             then Some (size_of model g 0, size_of model g 2, size_of model g 1)
             else None) in
        Ok (attachMesh b mesh st)
    end.

Definition geomLoop (model : Model) (names_array : list Z) (st : State)
  : outcome :=
  for_range (ngeom model)
    (fun g acc =>
       match acc with
       | Ok st => geomStep model names_array g st
       | Throw e st => Throw e st
       end)
    (Ok st).

(** *** Lights and bodies *)

Record Root := mkRoot {
  root_children : list Child;
  root_pools : option Tendon.Pools
}.

Definition emptyRoot : Root := mkRoot [] None.

Definition root_add (c : Child) (r : Root) : Root :=
  mkRoot (root_children r ++ [c]) (root_pools r).

(** Truthiness of a table entry: a nonzero number. *)
Definition truthy (k : key) : bool :=
  match k with
  | Some n => negb (n =? 0)
  | None => false
  end.


Definition lightStep (model : Model) (l : nat)
    (acc : gmap key Group * Root * list Light) : gmap key Group * Root * list Light :=
  let '(bodies, root, lights) := acc in
  let light :=
    mkLight (truthy (lookupZ (light_directional model) (Z.of_nat l)))
            (scale (get (light_attenuation model) (Z.of_nat l)) 100) in
  match bodies !! Some 0 with
  | Some _ => (alter (add (CLight light)) (Some 0) bodies, root, lights ++ [light])
  | None => (bodies, root_add (CLight light) root, lights ++ [light])
  end.

(** [fullString.split("\0")]. *)
Fixpoint splitNull (bytes : list Z) : list (list Z) :=
  match bytes with
  | [] => [[]]
  | c :: rest =>
      if c =? 0 then [] :: splitNull rest
      else match splitNull rest with
           | piece :: pieces => (c :: piece) :: pieces
           | [] => [[c]]
           end
  end.

Definition bodyStep (names_ : list (list Z)) (b : nat)
    (acc : gmap key Group * Root) : gmap key Group * Root :=
  let '(bodies, root) := acc in
  let kb : key := Some (Z.of_nat b) in
  if (b =? 0)%nat || negb (bool_decide (is_Some (bodies !! Some 0))) then
    (* [mujocoRoot.add(bodies[b])]; adding [undefined] adds nothing *)
    match bodies !! kb with
    | Some _ => (bodies, root_add (CBody kb) root)
    | None => (bodies, root)
    end
  else
    match bodies !! kb with
    | Some _ => (alter (add (CBody kb)) (Some 0) bodies, root)
    | None =>
        (alter (add (CBody kb)) (Some 0)
           (<[kb := mkGroup (names_ !! S b) kb false []]> bodies), root)
    end.

(** *** The whole build *)

Inductive SceneNode :=
| Other (label : nat)
| MujocoRoot (r : Root).

Record Parent := mkParent {
  scene : list SceneNode;
  mujocoRoot : option Root
}.

Record Loaded := mkLoaded {
  loaded_mesh_vert : list float;
  loaded_mesh_normal : list float;
  loaded_bodies : gmap key Group;
  loaded_lights : list Light
}.

Definition namesInvalid (model : Model) : bool :=
  match names model with
  | None => true
  | Some blob => (length blob =? 0)%nat
  end.

(** The body of the [try] block of [loadSceneFromURL], from the check of
    the name blob on; [model] is what [Model.load_from_xml] returned and
    [parent.scene] already holds whatever the application put there.  The
    root group is added to the scene before the geometries are walked.
    The result carries the exception when one is thrown, and otherwise
    the bodies, the lights and [model.mesh_vert] and [model.mesh_normal]
    as the build leaves them. *)
Definition tryBuild (model : Model) (parent : Parent)
  : Parent * (exn + Loaded) :=
  if namesInvalid model then (parent, inl InvalidNames)
  else
    let names_array := default [] (names model) in
    let names_ := splitNull names_array in
    (* [parent.scene.add(mujocoRoot)]: from here on the scene holds the
       root object, whatever it has been filled with *)
    let scene_with (root : Root) := scene parent ++ [MujocoRoot root] in
    match geomLoop model names_array (initialState model) with
    | Throw e _ => (mkParent (scene_with emptyRoot) (mujocoRoot parent), inl e)
    | Ok st =>
        let root :=
          mkRoot [CCylinders; CSpheres] (Some Tendon.newPools) in
        let '(bodies1, root, lights) :=
          for_range (nlight model) (lightStep model) (bodies st, root, []) in
        let root :=
          if (nlight model =? 0)%nat
          then root_add (CLight (mkLight true Undefined)) root else root in
        let '(bodies2, root) :=
          for_range (nbody model) (bodyStep names_) (bodies1, root) in
        (mkParent (scene_with root) (Some root),
         inr (mkLoaded (st_mesh_vert st) (st_mesh_normal st) bodies2 lights))
    end.

(** [loadSceneFromURL]: the [catch] clause logs the exception and returns
    [null] ([None]); it removes nothing from the scene. *)
Definition loadSceneFromURL (model : Model) (parent : Parent)
  : Parent * option Loaded :=
  match tryBuild model parent with
  | (parent', inl _) => (parent', None)
  | (parent', inr loaded) => (parent', Some loaded)
  end.

(** *** Models used to evaluate the build *)

Definition emptyModel : Model :=
  mkModel (Some [119; 111; 114; 108; 100; 0]) 0 0 0
          [] [] [] [] [] [] [] [] [] [] [] [] [] [] [] [] [] [] []
          [] [] [] [] [] [] [] [] [] [] [].

Definition withGeoms (m : Model) (n : nat)
    (group bodyid type dataid matid : list Z) (rgba : list float) : Model :=
  mkModel (names m) 1 n (nlight m) [0]
          group bodyid type dataid matid
          (repeat (Fin 1) (3 * n)) rgba (repeat (Fin 0) (3 * n))
          (repeat (Fin 0) (4 * n))
          (mat_rgba m) (mat_texid m) (mat_specular m) (mat_reflectance m)
          (mat_shininess m) (tex_width m) (tex_height m) (tex_adr m)
          (tex_rgb m) (mesh_vert m) (mesh_normal m) (mesh_texcoord m)
          (mesh_face m) (mesh_vertadr m) (mesh_vertnum m)
          (mesh_texcoordadr m) (mesh_faceadr m) (mesh_facenum m)
          (light_directional m) (light_attenuation m).

Definition withMaterial (m : Model) (rgba : list float) (texid : Z)
    (width height : Z) (rgb : list Z) : Model :=
  mkModel (names m) (nbody m) (ngeom m) (nlight m) (name_bodyadr m)
          (geom_group m) (geom_bodyid m) (geom_type m) (geom_dataid m)
          (geom_matid m) (geom_size m) (geom_rgba m) (geom_pos m)
          (geom_quat m)
          rgba [texid] [Fin 0.5] [Fin 0] [Fin 0.5] [width] [height] [0] rgb
          (mesh_vert m) (mesh_normal m) (mesh_texcoord m)
          (mesh_face m) (mesh_vertadr m) (mesh_vertnum m)
          (mesh_texcoordadr m) (mesh_faceadr m) (mesh_facenum m)
          (light_directional m) (light_attenuation m).

Definition withMesh (m : Model) (vert normal : list float) (vertnum : Z)
    (face : list Z) (facenum : Z) : Model :=
  mkModel (names m) (nbody m) (ngeom m) (nlight m) (name_bodyadr m)
          (geom_group m) (geom_bodyid m) (geom_type m) (geom_dataid m)
          (geom_matid m) (geom_size m) (geom_rgba m) (geom_pos m)
          (geom_quat m)
          (mat_rgba m) (mat_texid m) (mat_specular m) (mat_reflectance m)
          (mat_shininess m) (tex_width m) (tex_height m) (tex_adr m)
          (tex_rgb m)
          vert normal [] face [0] [vertnum] [0] [0] [facenum]
          (light_directional m) (light_attenuation m).

(** [model.mesh_vert] and [model.mesh_normal] replaced, as after a
    build wrote into them. *)
Definition withMeshBuffers (m : Model) (vert normal : list float) : Model :=
  mkModel (names m) (nbody m) (ngeom m) (nlight m) (name_bodyadr m)
          (geom_group m) (geom_bodyid m) (geom_type m) (geom_dataid m)
          (geom_matid m) (geom_size m) (geom_rgba m) (geom_pos m)
          (geom_quat m)
          (mat_rgba m) (mat_texid m) (mat_specular m) (mat_reflectance m)
          (mat_shininess m) (tex_width m) (tex_height m) (tex_adr m)
          (tex_rgb m)
          vert normal (mesh_texcoord m) (mesh_face m) (mesh_vertadr m)
          (mesh_vertnum m) (mesh_texcoordadr m) (mesh_faceadr m)
          (mesh_facenum m) (light_directional m) (light_attenuation m).

Definition grey : list float := [Fin 0.5; Fin 0.5; Fin 0.5; Fin 1].

(** Two spheres on body 0 with the same colour and no material. *)
Definition plainPairModel : Model :=
  withGeoms emptyModel 2 [0; 0] [0; 0] [2; 2] [-1; -1] [-1; -1] (grey ++ grey).

(** Two spheres on body 0 sharing material 0, whose texture 0 is one
    pixel. *)
Definition texturedPairModel : Model :=
  withMaterial
    (withGeoms emptyModel 2 [0; 0] [0; 0] [2; 2] [-1; -1] [0; 0] (grey ++ grey))
    grey 0 1 1 [10; 20; 30].

(** One sphere whose material has a texture of 2^31 - 1 by 2^31 - 1
    pixels: the pixel array cannot be allocated. *)
Definition hugeTextureModel : Model :=
  withMaterial
    (withGeoms emptyModel 1 [0] [0] [2] [-1] [0] grey)
    grey 0 2147483647 2147483647 [].

(** One triangle mesh with three vertices. *)
Definition meshVertices : list float :=
  [Fin 1; Fin 2; Fin 3;  Fin 4; Fin 5; Fin 6;  Fin 7; Fin 8; Fin 9].

Definition meshModel : Model :=
  withMesh (withGeoms emptyModel 1 [0] [0] [7] [0] [-1] grey)
           meshVertices meshVertices 3 [0; 1; 2] 1.

Definition emptyParent : Parent := mkParent [Other 0; Other 1] None.

(** The state with the mesh cache emptied, as at the start of another
    pass over the same buffers. *)
Definition clearCache (st : State) : State :=
  mkState (st_mesh_vert st) (st_mesh_normal st) (bodies st) ∅
          (material st) (materials_allocated st) (textures_allocated st).

(** The in-place loop as a function on the contents of the view: each
    triple (x, y, z) becomes (x, z, -y). *)
Fixpoint swapYZ (l : list float) : list float :=
  match l with
  | x :: y :: z :: rest => x :: z :: fneg y :: swapYZ rest
  | _ => l
  end.

(** The loop applied twice: (x, y, z) becomes (x, -y, -z). *)
Fixpoint negYZ (l : list float) : list float :=
  match l with
  | x :: y :: z :: rest => x :: fneg y :: fneg z :: negYZ rest
  | _ => l
  end.

(** All four components are finite numbers. *)
Definition finiteColor (c : jsval * jsval * jsval * jsval) : bool :=
  match c with
  | (Number (Fin _), Number (Fin _), Number (Fin _), Number (Fin _)) => true
  | _ => false
  end.

(** Equal colour and equal opacity. *)
Definition sameColor (c d : jsval * jsval * jsval * jsval) : bool :=
  let '(c0, c1, c2, c3) := c in
  let '(d0, d1, d2, d3) := d in
  negb (jneq c0 d0) && negb (jneq c1 d1) && negb (jneq c2 d2)
  && negb (jneq c3 d3).

(** The states between the geometries of the two-sphere models. *)
Definition stateAfter (model : Model) (n : nat) : State :=
  match for_range n
          (fun g acc =>
             match acc with
             | Ok st => geomStep model (default [] (names model)) g st
             | Throw e st => Throw e st
             end)
          (Ok (initialState model)) with
  | Ok st => st
  | Throw _ st => st
  end.

End Build.

(** ** The demo application ([MuJoCoDemo]): keyboard, frame loop, pose sync *)

Module Demo.

Import Coord.
Local Open Scope Q_scope.

(** [event.code], as far as the handlers tell codes apart. *)
Inductive KeyCode :=
| ArrowUp | ArrowDown | ArrowLeft | ArrowRight | KeyQ | KeyE
| OtherKey.

(** The locomotion entries of [this.params]. *)
Record Params := mkParams {
  enableLocomotion : bool;
  locomotionSpeed : Q;
  locomotionDirX : Q;
  locomotionDirY : Q
}.

(** [hasController] says whether [this.locomotionController] is set. *)
Definition handleKeyDown (hasController : bool) (code : KeyCode) (p : Params)
  : Params :=
  if negb hasController || negb (enableLocomotion p) then p
  else
    match code with
    | ArrowUp => mkParams (enableLocomotion p) (locomotionSpeed p) 1.0 0.0
    | ArrowDown => mkParams (enableLocomotion p) (locomotionSpeed p) (-1.0) 0.0
    | ArrowLeft => mkParams (enableLocomotion p) (locomotionSpeed p) 0.0 1.0
    | ArrowRight => mkParams (enableLocomotion p) (locomotionSpeed p) 0.0 (-1.0)
    | KeyQ =>
        mkParams (enableLocomotion p) (Qmax 0 (locomotionSpeed p - 0.1))
                 (locomotionDirX p) (locomotionDirY p)
    | KeyE =>
        mkParams (enableLocomotion p) (Qmin 1 (locomotionSpeed p + 0.1))
                 (locomotionDirX p) (locomotionDirY p)
    | OtherKey => p
    end.

Definition isArrow (code : KeyCode) : bool :=
  match code with
  | ArrowUp | ArrowDown | ArrowLeft | ArrowRight => true
  | _ => false
  end.

Definition handleKeyUp (hasController : bool) (code : KeyCode) (p : Params)
  : Params :=
  if negb hasController || negb (enableLocomotion p) then p
  else if isArrow code
       then mkParams (enableLocomotion p) (locomotionSpeed p) 0.0 0.0
       else p.

Section Builtins.

Variable Math_sqrt : Q -> Q.
Variable Math_sin : Q -> Q.
Variable Math_PI : Q.

(** The three calls made on the controller in every physics step while
    locomotion is enabled. *)
Definition locomotionTick (p : Params) (timestep : Q) (c : Gait.Controller)
  : Gait.Controller :=
  Gait.update Math_sin Math_PI timestep
    (Gait.setSpeed (locomotionSpeed p)
       (Gait.setDirection Math_sqrt (locomotionDirX p) (locomotionDirY p) c)).

End Builtins.

Section FrameLoop.

(** What one pass of the stepping loop does to everything but the clock
    (controller, perturbations, [simulation.step()]). *)
Variable World : Type.
Variable body : World -> World.

(** [while (this.mujoco_time < timeMS) { ...; this.mujoco_time +=
    timestep * 1000.0; }], run for at most [fuel] passes; [None] when the
    loop is still running after them. *)
Fixpoint stepLoop (fuel : nat) (timestep timeMS mujoco_time : Q) (w : World)
  : option (Q * World) :=
  if ltb mujoco_time timeMS then
    match fuel with
    | O => None
    | S fuel' =>
        stepLoop fuel' timestep timeMS (mujoco_time + timestep * 1000.0) (body w)
    end
  else Some (mujoco_time, w).

(** The unpaused branch of [render(timeMS)]: a clock more than 35 ms
    behind is first moved up to [timeMS]. *)
Definition stepFrame (fuel : nat) (timestep timeMS mujoco_time : Q) (w : World)
  : option (Q * World) :=
  let mujoco_time :=
    if gtb (timeMS - mujoco_time) 35.0 then timeMS else mujoco_time in
  stepLoop fuel timestep timeMS mujoco_time w.

End FrameLoop.

(** The transform of a body node, as far as the frame loop sets it. *)
Record NodePose := mkNodePose {
  node_position : Vector3;
  node_quaternion : Quaternion
}.

(** The loop "Update body transforms" of [render]. *)
Definition syncBodies (nbody : nat) (xpos xquat : list float)
    (bodies : gmap Build.key NodePose) : gmap Build.key NodePose :=
  for_range nbody
    (fun b acc =>
       match acc !! Some (Z.of_nat b) with
       | Some _ =>
           <[Some (Z.of_nat b) :=
               mkNodePose (getPosition xpos (Z.of_nat b) true)
                          (getQuaternion xquat (Z.of_nat b) true)]> acc
       | None => acc
       end)
    bodies.

Definition sample_params : Params := mkParams true 0.5 1.0 0.0.

End Demo.

(** ** What a tendon frame draws *)

Module TendonFrame.

Import Coord Tendon.

(** The cylinder composed for the pair of wrap points [w], [w + 1]. *)
Definition cylinderOf (r : jsval) (xpos : list float) (w : Z)
  : CylinderInstance :=
  cylinder_between (getPosition xpos w true) (getPosition xpos (w + 1) true) r.

(** The cylinders of the pairs of tendon [t] whose two endpoints are
    live, in wrap order, and those of the whole frame, tendon by tendon. *)
Definition tendonCylinders (model : TendonModel) (sim : TendonState) (t : nat)
  : list CylinderInstance :=
  map (cylinderOf (get (tendon_width model) (Z.of_nat t)) (wrap_xpos sim))
      (List.filter (bothValid (wrap_xpos sim)) (wrapIndices sim t)).

Definition frameCylinders (model : TendonModel) (sim : TendonState)
  : list CylinderInstance :=
  flat_map (tendonCylinders model sim) (seq 0 (ntendon model)).

(** Slot [i] of an instance buffer after [xs] were stored at the slots
    [n], [n + 1], ...: a store past the end of the buffer is lost. *)
Definition written {A} (slots : list (option A)) (n : nat) (xs : list A)
    (i : nat) : option (option A) :=
  if (n <=? i)%nat then
    match xs !! (i - n)%nat with
    | Some x => if (i <? length slots)%nat then Some (Some x) else None
    | None => slots !! i
    end
  else slots !! i.

(** [st'] is what the stepping state [st] (pools and counter) becomes
    when the cylinders [cs] are stored from the counter of [st] on. *)
Definition stored (st : Pools * nat) (cs : list CylinderInstance)
    (st' : Pools * nat) : Prop :=
  snd st' = (snd st + length cs)%nat /\
  length (instanceMatrix (cylinders (fst st')))
    = length (instanceMatrix (cylinders (fst st))) /\
  forall i, instanceMatrix (cylinders (fst st')) !! i
            = written (instanceMatrix (cylinders (fst st))) (snd st) cs i.

End TendonFrame.

(** ** What a scene build produces *)

Module SceneSpec.

Import Coord Build.

(** The owning body and the shape type of geometry [g]. *)
Definition ownerOf (model : Model) (g : nat) : key :=
  geti (geom_bodyid model) (Some (Z.of_nat g)).

Definition typeOf (model : Model) (g : nat) : key :=
  geti (geom_type model) (Some (Z.of_nat g)).

(** The visible geometries among the first [n] that belong to body [b],
    in index order. *)
Definition ownedGeoms (model : Model) (n : nat) (b : key) : list nat :=
  List.filter (fun g => visible model g && bool_decide (ownerOf model g = b))
              (seq 0 n).

(** The visible geometries among the first [n], and those of them that
    get a texture or are triangle meshes. *)
Definition visibleGeoms (model : Model) (n : nat) : list nat :=
  List.filter (visible model) (seq 0 n).

Definition texturedGeoms (model : Model) (n : nat) : list nat :=
  List.filter (fun g => visible model g && hasTexture model g) (seq 0 n).

Definition meshGeoms (model : Model) (n : nat) : list nat :=
  List.filter (fun g => visible model g && key_eq (typeOf model g) mjGEOM_MESH)
              (seq 0 n).

(** [c] is the scene node made for geometry [g]: a mesh carrying the
    body id, the placement and the shadow flags of [g]. *)
Definition isMeshOf (model : Model) (g : nat) (c : Child) : Prop :=
  match c with
  | CMesh m =>
      mesh_bodyID m = ownerOf model g /\
      position m = getPosition (geom_pos model) (Z.of_nat g) true /\
      quaternion m
        = (if key_neq (typeOf model g) 0
           then Some (getQuaternion (geom_quat model) (Z.of_nat g) true)
           else None) /\
      castShadow m = negb (g =? 0)%nat /\
      receiveShadow m = key_neq (typeOf model g) 7 /\
      match kind m with
      | Reflector _ _ => typeOf model g = Some 0
      | PlainMesh _ _ => typeOf model g <> Some 0
      end
  | _ => False
  end.

(** The light made for entry [l] of the light tables. *)
Definition lightOf (model : Model) (l : nat) : Light :=
  mkLight (truthy (lookupZ (light_directional model) (Z.of_nat l)))
          (scale (get (light_attenuation model) (Z.of_nat l)) 100).

(** The lights made for the first [n] entries, and for all of them. *)
Definition lightsUpTo (model : Model) (n : nat) : list Light :=
  List.map (lightOf model) (seq 0 n).

Definition lightsOf (model : Model) : list Light :=
  lightsUpTo model (nlight model).

(** The directional light added when the model has no light. *)
Definition defaultLights (model : Model) : list Child :=
  if (nlight model =? 0)%nat then [CLight (mkLight true Undefined)] else [].

(** A group with more children added at the end. *)
Definition addChildren (cs : list Child) (g : Group) : Group :=
  mkGroup (name g) (bodyID g) (has_custom_mesh g) (children g ++ cs).

(** References to the bodies 1 .. n-1, and to those of the bodies
    0 .. n-1 that have a group. *)
Definition bodyNodes (n : nat) : list Child :=
  List.map (fun b => CBody (Some (Z.of_nat b))) (seq 1 (n - 1)).

Definition presentBodies (groups : gmap key Group) (n : nat) : list Child :=
  List.map (fun b => CBody (Some (Z.of_nat b)))
    (List.filter (fun b => bool_decide (is_Some (groups !! Some (Z.of_nat b))))
                 (seq 0 n)).

(** The group made for a body without geometry: only for the ids
    1 .. n-1. *)
Definition synthesized (names_ : list (list Z)) (k : key) (n : nat)
  : option Group :=
  match k with
  | Some z =>
      if (1 <=? z) && (z <? Z.of_nat n)
      then Some (mkGroup (names_ !! S (Z.to_nat z)) k false [])
      else None
  | None => None
  end.

(** A model with other bodies and names. *)
Definition withBodies (m : Model) (blob : list Z) (n : nat) (adr : list Z)
  : Model :=
  mkModel (Some blob) n (ngeom m) (nlight m) adr
          (geom_group m) (geom_bodyid m) (geom_type m) (geom_dataid m)
          (geom_matid m) (geom_size m) (geom_rgba m) (geom_pos m)
          (geom_quat m)
          (mat_rgba m) (mat_texid m) (mat_specular m) (mat_reflectance m)
          (mat_shininess m) (tex_width m) (tex_height m) (tex_adr m)
          (tex_rgb m) (mesh_vert m) (mesh_normal m) (mesh_texcoord m)
          (mesh_face m) (mesh_vertadr m) (mesh_vertnum m)
          (mesh_texcoordadr m) (mesh_faceadr m) (mesh_facenum m)
          (light_directional m) (light_attenuation m).

(** Three bodies named w, a and b; the two spheres belong to body 0. *)
Definition threeBodyModel : Model :=
  withBodies plainPairModel [119; 0; 97; 0; 98; 0] 3 [0; 2; 4].

(** The loop over geometries stopped after the first [n] of them. *)
Definition geomPrefix (model : Model) (names_array : list Z) (n : nat)
    (st : State) : outcome :=
  for_range n
    (fun g acc =>
       match acc with
       | Ok st => geomStep model names_array g st
       | Throw e st => Throw e st
       end)
    (Ok st).

End SceneSpec.

(** ** The control panel ([setupGUI], [reloadFunc]) *)

Module GUI.

Import Build.

(** [decode(names.subarray(adr)).split(nullChar)[0]], the way the
    actuator sliders get their names. *)
Definition actuatorName (names_array : list Z) (adr : key) : list Z :=
  let tail_view :=
    match adr with
    | Some a => subarray (length names_array) a (Z.of_nat (length names_array))
    | None => subarray (length names_array) 0 (Z.of_nat (length names_array))
    end in
  hd [] (splitNull (view_contents names_array tail_view)).

(** [array.slice(begin, end)]: the bounds are converted as for
    [subarray], the result is a copy. *)
Definition slice {A} (l : list A) (begin end_ : Z) : list A :=
  view_contents l (subarray (length l) begin end_).

(** [target.set(source)]: copies [source] to the start of [target]; a
    source longer than the target raises a [RangeError] ([None]). *)
Definition typedSet (target source : list float) : option (list float) :=
  if (length target <? length source)%nat then None
  else Some (source ++ drop (length source) target).

(** The [onChange] handler of the keyframe slider; the result is the new
    [simulation.qpos]. *)
Definition loadKeyframe (nkey nq : Z) (key_qpos qpos : list float) (value : Z)
  : option (list float) :=
  if value <? nkey then
    typedSet qpos (slice key_qpos (value * nq) ((value + 1) * nq))
  else Some qpos.

(** [this.scene.remove(this.scene.getObjectByName("MuJoCo Root"))]: the
    search runs over the scene in order and [remove] takes out the object
    it found; the other objects of the application are taken not to carry
    that name, neither themselves nor below them. *)
Fixpoint removeRoot (scene : list SceneNode) : list SceneNode :=
  match scene with
  | [] => []
  | MujocoRoot _ :: rest => rest
  | node :: rest => node :: removeRoot rest
  end.

Definition isRoot (node : SceneNode) : bool :=
  match node with
  | MujocoRoot _ => true
  | Other _ => false
  end.

(** [reloadFunc] up to the destructuring of what [loadSceneFromURL]
    returned: destructuring [null] raises a [TypeError] ([None]). *)
Definition reloadFunc (model : Model) (parent : Parent)
  : Parent * option Loaded :=
  loadSceneFromURL model
    (mkParent (removeRoot (scene parent)) (mujocoRoot parent)).

Definition twoKeyframes : list float :=
  [Fin 1; Fin 2; Fin 3;  Fin 4; Fin 5; Fin 6].

End GUI.

(** ** Dragging a body while paused ([setPositionAndUpdateParent]) *)

Module Drag.

Import Coord Build.

(** The parts of the simulation object the function looks at; a table
    that is not there is [None]. *)
Record Simulation := mkSimulation {
  has_model : bool;
  body_jntadr : option (list Z);
  jnt_qposadr : option (list Z);
  qpos : option (list float)
}.

(** The result is the simulation with its new [qpos] and whether
    [simulation.forward()] was called. *)
Definition setPositionAndUpdateParent (simulation : option Simulation)
    (bodyId : key) (newPos : Vector3) : option Simulation * bool :=
  match simulation, bodyId with
  | Some sim, Some b =>
      let mjPos := toMujocoPos newPos in
      match has_model sim, body_jntadr sim, jnt_qposadr sim with
      | true, Some body_jntadr, Some jnt_qposadr =>
          let jntadr := lookupZ body_jntadr b in
          let qposadr := geti jnt_qposadr jntadr in
          match qposadr, qpos sim with
          | Some a, Some q =>
              let q1 := store q (a + 0) (vx mjPos) in
              let q2 := store q1 (a + 1) (vy mjPos) in
              let q3 := store q2 (a + 2) (vz mjPos) in
              (Some (mkSimulation (has_model sim) (Some body_jntadr)
                                  (Some jnt_qposadr) (Some q3)), true)
          | _, _ => (Some sim, false)
          end
      | _, _, _ => (Some sim, false)
      end
  | _, _ => (simulation, false)
  end.






Definition sample_simulation : Simulation :=
  mkSimulation true (Some [-1; 0]) (Some [2])
               (Some [Fin 0; Fin 0; Fin 0; Fin 0; Fin 0; Fin 0; Fin 0]).

End Drag.

(** * Properties *)

(** ** Properties of the coordinate adapter *)

Section CoordFacts.
Import Coord.

Lemma fneg_involutive (f : float) : fneg (fneg f) = f.
Proof.
  destruct f as [[n d]|]; simpl; [|reflexivity].
  unfold Qopp; simpl. now rewrite Z.opp_involutive.
Qed.

Lemma get_Some buffer i f : lookupZ buffer i = Some f -> get buffer i = Number f.
Proof. unfold get. now intros ->. Qed.

Lemma neg_Number f : neg (Number f) = Number (fneg f).
Proof. reflexivity. Qed.

End CoordFacts.

(** C2 (as the code has it).  For every buffer and index holding the engine
  quaternion (w, x, y, z), the swizzled read calls
  [set(-x, -z, y, -w)]: the render quaternion has x = -x, y = -z, z = y,
  w = -w.  Without swizzle the four stored components are passed on in
  their stored order (w, x, y, z). *)
Theorem getQuaternion_swizzle buffer index w x y z :
Coord.holds_quat buffer index w x y z ->
Coord.getQuaternion buffer index true =
  Coord.quat (Number (fneg x)) (Number (fneg z)) (Number y) (Number (fneg w))
/\ Coord.getQuaternion buffer index false =
  Coord.quat (Number w) (Number x) (Number y) (Number z).
Proof.
intros (Hw & Hx & Hy & Hz). unfold Coord.getQuaternion.
rewrite (get_Some _ _ _ Hw), (get_Some _ _ _ Hx),
        (get_Some _ _ _ Hy), (get_Some _ _ _ Hz).
split; reflexivity.
Qed.

Lemma getQuaternion_swizzle_witness :
Coord.holds_quat sample_quat_buffer 0 (Fin 1) (Fin 2) (Fin 3) (Fin 4) /\
(Coord.getQuaternion sample_quat_buffer 0 true =
   Coord.quat (Number (fneg (Fin 2))) (Number (fneg (Fin 4)))
              (Number (Fin 3)) (Number (fneg (Fin 1)))
 /\ Coord.getQuaternion sample_quat_buffer 0 false =
   Coord.quat (Number (Fin 1)) (Number (Fin 2)) (Number (Fin 3)) (Number (Fin 4))).
Proof.
split.
- repeat split; reflexivity.
- apply (getQuaternion_swizzle sample_quat_buffer 0). repeat split; reflexivity.
Defined.

(** C2 (as stated) fails: on the engine quaternion (1, 2, 3, 4) the code
  yields [set(-2, -4, 3, -1)], which is (-x, -w, z, -y) = (-2, -1, 4, -3)
  in neither listing order. *)
Lemma getQuaternion_not_spec_orientation :
Coord.holds_quat sample_quat_buffer 0 (Fin 1) (Fin 2) (Fin 3) (Fin 4) /\
Coord.getQuaternion sample_quat_buffer 0 true
  <> Coord.spec_orientation_xyzw (Fin 1) (Fin 2) (Fin 3) (Fin 4) /\
Coord.getQuaternion sample_quat_buffer 0 true
  <> Coord.spec_orientation_wxyz (Fin 1) (Fin 2) (Fin 3) (Fin 4).
Proof.
split; [repeat split; reflexivity|].
split; intros H; vm_compute in H; discriminate H.
Qed.

(** C4.  For every engine position p stored in a buffer, the swizzled
  read (x, y, z) -> (x, z, -y) followed by [toMujocoPos]
  (x, y, z) -> (x, -z, y) gives back exactly p. *)
Theorem position_roundtrip buffer index x y z :
Coord.holds_pos buffer index x y z ->
Coord.getPosition buffer index true = Coord.vec3 (Number x) (Number z) (Number (fneg y))
/\ Coord.toMujocoPos (Coord.getPosition buffer index true)
   = Coord.vec3 (Number x) (Number y) (Number z).
Proof.
intros (Hx & Hy & Hz). unfold Coord.getPosition, Coord.toMujocoPos.
rewrite (get_Some _ _ _ Hx), (get_Some _ _ _ Hy), (get_Some _ _ _ Hz).
cbn [Coord.vx Coord.vy Coord.vz].
rewrite !neg_Number, fneg_involutive. split; reflexivity.
Qed.

Lemma position_roundtrip_witness :
Coord.holds_pos sample_quat_buffer 0 (Fin 1) (Fin 2) (Fin 3) /\
(Coord.getPosition sample_quat_buffer 0 true
   = Coord.vec3 (Number (Fin 1)) (Number (Fin 3)) (Number (fneg (Fin 2)))
 /\ Coord.toMujocoPos (Coord.getPosition sample_quat_buffer 0 true)
   = Coord.vec3 (Number (Fin 1)) (Number (Fin 2)) (Number (Fin 3))).
Proof.
split.
- repeat split; reflexivity.
- apply (position_roundtrip sample_quat_buffer 0). repeat split; reflexivity.
Defined.
(** ** Properties of the gait controller *)

Section GaitFacts.
Import Gait.
Local Open Scope Q_scope.

Variable Math_sqrt : Q -> Q.
Variable Math_sin : Q -> Q.
Variable Math_PI : Q.

Lemma for_range_S {S} n (body : nat -> S -> S) s :
  for_range (Datatypes.S n) body s = body n (for_range n body s).
Proof.
  unfold for_range. rewrite seq_S, fold_left_app. reflexivity.
Qed.

Lemma reset_ctrl_closed (c : list Q) :
  for_range NUM_MOTORS (fun i c => <[i := pose i]> c) c
  = take (length c) DEFAULT_POSE ++ drop 12 c.
Proof.
  do 12 (destruct c as [|? c]; [reflexivity|]).
  cbn. now rewrite take_nil.
Qed.

Lemma gtb_true a b : gtb a b = true <-> b < a.
Proof.
  unfold gtb. rewrite negb_true_iff. split.
  - intros H. apply Qnot_le_lt. intros Hle.
    apply Qle_bool_iff in Hle. congruence.
  - intros H. destruct (Qle_bool a b) eqn:E; [|reflexivity].
    apply Qle_bool_iff in E. exfalso. now apply (Qlt_not_le _ _ H).
Qed.

Lemma gtb_false a b : gtb a b = false <-> a <= b.
Proof.
  unfold gtb. rewrite negb_false_iff. apply Qle_bool_iff.
Qed.

Lemma ltb_true a b : ltb a b = true <-> a < b.
Proof. apply gtb_true. Qed.

Lemma ltb_false a b : ltb a b = false <-> b <= a.
Proof. apply gtb_false. Qed.

Lemma calculateLeg_frame leg ph s :
  let s' := calculateLegJointPositions Math_sin Math_PI leg ph s in
  time s' = time s /\ phase s' = phase s /\ isMoving s' = isMoving s.
Proof.
  unfold calculateLegJointPositions.
  destruct (gtb ph 0); destruct (direction s) as [[dx dy] dz];
    repeat split; reflexivity.
Qed.

Lemma applyTrottingGait_frame s :
  let s' := applyTrottingGait Math_sin Math_PI s in
  time s' = time s /\ phase s' = phase s /\ isMoving s' = isMoving s.
Proof.
  unfold applyTrottingGait. generalize (legPhases (phase s)) as lp. intros lp.
  unfold NUM_LEGS.
  repeat (rewrite for_range_S;
          match goal with
          | |- context [calculateLegJointPositions _ _ ?l ?p ?x] =>
              destruct (calculateLeg_frame l p x) as (-> & -> & ->)
          end).
  repeat split; reflexivity.
Qed.







Lemma Qtrunc_nonneg q : 0 <= q -> Qtrunc q = Qfloor q.
Proof.
  intros H. unfold Qtrunc. apply Qle_bool_iff in H. now rewrite H.
Qed.


Lemma legPhases_first_half ph :
  ph < 0.5 -> legPhases ph = [ph * 2; 0; 0; ph * 2].
Proof.
  intros H. unfold legPhases. apply ltb_true in H. rewrite H. reflexivity.
Qed.

Lemma legPhases_second_half ph :
  0.5 <= ph -> legPhases ph = [0; (ph - 0.5) * 2; (ph - 0.5) * 2; 0].
Proof.
  intros H. unfold legPhases. apply ltb_false in H. rewrite H. reflexivity.
Qed.

(** *** Idle relaxation *)

Lemma relax_within dt t c : Qabs (t - c) <= 0.01 -> relax dt t c = c.
Proof.
  intros H. unfold relax. apply gtb_false in H. now rewrite H.
Qed.





Lemma relax_loop_lookup dt n (c : list Q) i :
  for_range n
    (fun i c => match c !! i with
                | Some current => <[i := relax dt (pose i) current]> c
                | None => c
                end) c !! i
  = if (i <? n)%nat then relax dt (pose i) <$> c !! i else c !! i.
Proof.
  induction n as [|n IH] in i |- *.
  - reflexivity.
  - rewrite for_range_S.
    set (c' := for_range n _ c) in *.
    assert (En : c' !! n = c !! n).
    { rewrite IH. now rewrite Nat.ltb_irrefl. }
    rewrite En. destruct (decide (i = n)) as [-> | Hne].
    + assert (Hlt : (n <? Datatypes.S n)%nat = true) by (apply Nat.ltb_lt; lia).
      rewrite Hlt. destruct (c !! n) as [x|] eqn:Ex.
      * rewrite list_lookup_insert_eq; [reflexivity|].
        now apply lookup_lt_Some in En.
      * exact En.
    + assert (Hi : c' !! i = if (i <? Datatypes.S n)%nat
                             then relax dt (pose i) <$> c !! i else c !! i).
      { rewrite IH. destruct (i <? n)%nat eqn:E1, (i <? Datatypes.S n)%nat eqn:E2;
          try reflexivity.
        - apply Nat.ltb_lt in E1. apply Nat.ltb_ge in E2. lia.
        - apply Nat.ltb_ge in E1. apply Nat.ltb_lt in E2. lia. }
      destruct (c !! n); [rewrite list_lookup_insert_ne by congruence|]; exact Hi.
Qed.

Lemma update_idle dt s :
  isMoving s = false ->
  isMoving (update Math_sin Math_PI dt s) = false /\
  time (update Math_sin Math_PI dt s) = time s + dt /\
  forall i, (i < 12)%nat ->
    ctrl (update Math_sin Math_PI dt s) !! i = relax dt (pose i) <$> ctrl s !! i.
Proof.
  intros Hm. unfold update. cbn [isMoving ctrl time]. rewrite Hm. cbn [negb].
  unfold returnToStandingPose, set_ctrl. cbn [isMoving ctrl time].
  split; [reflexivity|]. split; [reflexivity|].
  intros i Hi. rewrite relax_loop_lookup.
  assert (E : (i <? NUM_MOTORS)%nat = true) by (apply Nat.ltb_lt; exact Hi).
  now rewrite E.
Qed.



Lemma setDirection_zero_idle s : isMoving (setDirection Math_sqrt 0 0 s) = false.
Proof. reflexivity. Qed.

End GaitFacts.



(** C6 (as the code has it).  On a command buffer with at least 12
    entries, [reset()] writes the default standing pose into the first 12
    and changes nothing else: later entries, the elapsed time, the gait
    phase, the moving flag, the direction and the speed keep their
    values. *)
Theorem reset_sets_pose_only (s : Gait.Controller) :
  (12 <= length (Gait.ctrl s))%nat ->
  take 12 (Gait.ctrl (Gait.reset s)) = Gait.DEFAULT_POSE /\
  drop 12 (Gait.ctrl (Gait.reset s)) = drop 12 (Gait.ctrl s) /\
  Gait.time (Gait.reset s) = Gait.time s /\
  Gait.phase (Gait.reset s) = Gait.phase s /\
  Gait.isMoving (Gait.reset s) = Gait.isMoving s /\
  Gait.direction (Gait.reset s) = Gait.direction s /\
  Gait.speed (Gait.reset s) = Gait.speed s.
Proof.
  intros Hlen. unfold Gait.reset. cbn [Gait.set_ctrl Gait.ctrl Gait.time
    Gait.phase Gait.isMoving Gait.direction Gait.speed].
  rewrite reset_ctrl_closed.
  assert (E : take (length (Gait.ctrl s)) Gait.DEFAULT_POSE = Gait.DEFAULT_POSE).
  { apply take_ge. exact Hlen. }
  rewrite E. split; [reflexivity|]. split; [reflexivity|].
  repeat split; reflexivity.
Qed.

Lemma reset_sets_pose_only_witness :
  (12 <= length (Gait.ctrl Gait.sample_controller))%nat /\
  Gait.time (Gait.reset Gait.sample_controller) = Gait.time Gait.sample_controller.
Proof.
  split; [vm_compute; lia|].
  apply (reset_sets_pose_only Gait.sample_controller). vm_compute; lia.
Defined.

(** C6 (as stated) fails: a controller at time 5 and phase 0.25 is still at
    time 5 and phase 0.25 after [reset()]. *)
Lemma reset_keeps_time_and_phase :
  Gait.time (Gait.reset Gait.sample_controller) = 5%Q /\
  Gait.phase (Gait.reset Gait.sample_controller) = 0.25%Q /\
  ~ (Gait.time (Gait.reset Gait.sample_controller) == 0)%Q /\
  ~ (Gait.phase (Gait.reset Gait.sample_controller) == 0)%Q.
Proof.
  repeat split; try reflexivity; intros H; vm_compute in H; discriminate H.
Qed.




(** ** Properties of the tendon update *)

Section TendonFacts.
Import Coord Tendon.

Lemma pairStep_counter r xpos w st :
  snd (pairStep r xpos w st)
  = (snd st + if bothValid xpos w then 1 else 0)%nat.
Proof.
  destruct st as [root n]. unfold pairStep, bothValid. cbn [snd].
  destruct (validStart xpos w), (validEnd xpos w); cbn [andb snd]; lia.
Qed.

Lemma pairStep_capacity r xpos w st :
  length (instanceMatrix (cylinders (fst (pairStep r xpos w st))))
    = length (instanceMatrix (cylinders (fst st))) /\
  length (instanceMatrix (spheres (fst (pairStep r xpos w st))))
    = length (instanceMatrix (spheres (fst st))).
Proof.
  destruct st as [root n]. unfold pairStep. cbn [fst].
  destruct (validStart xpos w), (validEnd xpos w);
    cbn [andb fst cylinders spheres setMatrixAt instanceMatrix];
    rewrite ?length_insert; split; reflexivity.
Qed.

Lemma pairs_fold r xpos ws st :
  let st' := fold_left (fun acc w => pairStep r xpos w acc) ws st in
  snd st' = (snd st + length (List.filter (bothValid xpos) ws))%nat /\
  length (instanceMatrix (cylinders (fst st')))
    = length (instanceMatrix (cylinders (fst st))) /\
  length (instanceMatrix (spheres (fst st')))
    = length (instanceMatrix (spheres (fst st))).
Proof.
  induction ws as [|w ws IH] in st |- *; cbn [fold_left List.filter].
  - cbn. repeat split; lia.
  - destruct (IH (pairStep r xpos w st)) as (Hn & Hc & Hs).
    destruct (pairStep_capacity r xpos w st) as [Hc1 Hs1].
    cbv zeta. rewrite Hn, Hc, Hs, Hc1, Hs1, pairStep_counter.
    split; [|split; reflexivity].
    destruct (bothValid xpos w); cbn [length]; lia.
Qed.

Lemma tendons_fold model sim ts st :
  let st' := fold_left (fun acc t => tendonStep model sim t acc) ts st in
  snd st' = (snd st + length (List.filter (bothValid (wrap_xpos sim))
                                (flat_map (wrapIndices sim) ts)))%nat /\
  length (instanceMatrix (cylinders (fst st')))
    = length (instanceMatrix (cylinders (fst st))) /\
  length (instanceMatrix (spheres (fst st')))
    = length (instanceMatrix (spheres (fst st))).
Proof.
  induction ts as [|t ts IH] in st |- *; cbn [fold_left flat_map].
  - cbn. repeat split; lia.
  - destruct (IH (tendonStep model sim t st)) as (Hn & Hc & Hs).
    destruct (pairs_fold (get (tendon_width model) (Z.of_nat t))
                (wrap_xpos sim) (wrapIndices sim t) st) as (Hn1 & Hc1 & Hs1).
    cbv zeta. rewrite Hn, Hc, Hs. unfold tendonStep.
    rewrite Hn1, Hc1, Hs1, List.filter_app, length_app.
    repeat split; lia.
Qed.

Lemma updateTendons_counts model sim root :
  let root' := updateTendons model sim root in
  count (cylinders root') = numValidPairs model sim /\
  count (spheres root')
    = (if (0 <? numValidPairs model sim)%nat
       then (numValidPairs model sim + 1)%nat else 0%nat) /\
  length (instanceMatrix (cylinders root'))
    = length (instanceMatrix (cylinders root)) /\
  length (instanceMatrix (spheres root'))
    = length (instanceMatrix (spheres root)).
Proof.
  unfold updateTendons, for_range, numValidPairs, wrapPairs.
  destruct (tendons_fold model sim (seq 0 (ntendon model)) (root, 0%nat))
    as (Hn & Hc & Hs).
  destruct (fold_left _ _ _) as [root' n]. cbn [fst snd] in *.
  cbn [cylinders spheres set_count count instanceMatrix].
  rewrite Hn. repeat split; assumption.
Qed.

End TendonFacts.

(** C1 (as the code has it).  A tendon-sync frame sets the count of the
    cylinder pool to the number of wrap-point pairs with two live endpoints
    and the count of the sphere pool to that number plus one (zero when
    there is no such pair), whatever these numbers are: no clamp to the
    capacity is applied.  The instance buffers keep their capacity (the
    pools never grow), so a slot at or past the capacity holds nothing: a
    store aimed there is dropped.  The update is a total function; it has
    no failing path. *)
Theorem tendon_counts_unclamped (model : Tendon.TendonModel)
    (sim : Tendon.TendonState) (root : Tendon.Pools) :
  let root' := Tendon.updateTendons model sim root in
  let n := Tendon.numValidPairs model sim in
  Tendon.count (Tendon.cylinders root') = n /\
  Tendon.count (Tendon.spheres root') = (if (0 <? n)%nat then (n + 1)%nat else 0%nat) /\
  length (Tendon.instanceMatrix (Tendon.cylinders root'))
    = length (Tendon.instanceMatrix (Tendon.cylinders root)) /\
  length (Tendon.instanceMatrix (Tendon.spheres root'))
    = length (Tendon.instanceMatrix (Tendon.spheres root)) /\
  (forall i, (length (Tendon.instanceMatrix (Tendon.cylinders root)) <= i)%nat ->
     Tendon.instanceMatrix (Tendon.cylinders root') !! i = None) /\
  (forall i, (length (Tendon.instanceMatrix (Tendon.spheres root)) <= i)%nat ->
     Tendon.instanceMatrix (Tendon.spheres root') !! i = None).
Proof.
  intros root' n.
  destruct (updateTendons_counts model sim root) as (Hc & Hs & Lc & Ls).
  fold root' in Hc, Hs, Lc, Ls. fold n in Hc, Hs.
  repeat split; try assumption.
  - intros i Hi. apply lookup_ge_None. lia.
  - intros i Hi. apply lookup_ge_None. lia.
Qed.

(** C1 (as stated) fails: one tendon with 1024 live wrap points gives 1023
    cylinders and a sphere count of 1024, above the capacity 1023 of the
    pool; with 1025 wrap points the cylinder count is 1024 as well. *)
Lemma tendon_count_exceeds_capacity :
  let root1 := Tendon.updateTendons Tendon.one_tendon_model
                 (Tendon.one_tendon_state 1024) Tendon.newPools in
  let root2 := Tendon.updateTendons Tendon.one_tendon_model
                 (Tendon.one_tendon_state 1025) Tendon.newPools in
  length (Tendon.instanceMatrix (Tendon.spheres Tendon.newPools)) = 1023%nat /\
  Tendon.count (Tendon.cylinders root1) = 1023%nat /\
  Tendon.count (Tendon.spheres root1) = 1024%nat /\
  Tendon.count (Tendon.cylinders root2) = 1024%nat /\
  Tendon.count (Tendon.spheres root2) = 1025%nat /\
  ~ (Tendon.count (Tendon.spheres root1) <= Tendon.POOL_CAPACITY)%nat /\
  ~ (Tendon.count (Tendon.cylinders root2) <= Tendon.POOL_CAPACITY)%nat.
Proof.
  cbv zeta.
  assert (E1 : Tendon.numValidPairs Tendon.one_tendon_model
                 (Tendon.one_tendon_state 1024) = 1023%nat) by (vm_compute; reflexivity).
  assert (E2 : Tendon.numValidPairs Tendon.one_tendon_model
                 (Tendon.one_tendon_state 1025) = 1024%nat) by (vm_compute; reflexivity).
  destruct (updateTendons_counts Tendon.one_tendon_model
              (Tendon.one_tendon_state 1024) Tendon.newPools) as (C1 & S1 & _).
  destruct (updateTendons_counts Tendon.one_tendon_model
              (Tendon.one_tendon_state 1025) Tendon.newPools) as (C2 & S2 & _).
  rewrite E1 in C1, S1. rewrite E2 in C2, S2.
  cbv zeta in C1, S1, C2, S2. rewrite C1, S1, C2, S2.
  change ((0 <? 1023)%nat) with true. change ((0 <? 1024)%nat) with true.
  cbv iota. unfold Tendon.POOL_CAPACITY.
  split; [apply length_replicate|]. repeat split; try reflexivity; lia.
Qed.

(** C10.  After a tendon-sync frame the sphere count is the cylinder count
    plus one when the cylinder count is positive and zero otherwise (and
    nothing is touched when there are no pools).  The shared counter
    advances only on a pair whose two endpoints are both live, so spheres
    are not counted one per live endpoint: in the two-tendon frame below
    the live first point of the first tendon has a dead partner, its
    sphere goes to slot 0 without the counter moving, and the next pair
    stores its own first sphere over it; the frame ends with three live
    endpoints and a sphere count of two. *)
Theorem sphere_count_follows_cylinders :
  (forall model sim mujocoRoot,
     match Tendon.renderTendons model sim mujocoRoot with
     | Some root' =>
         Tendon.count (Tendon.spheres root')
         = (if (0 <? Tendon.count (Tendon.cylinders root'))%nat
            then (Tendon.count (Tendon.cylinders root') + 1)%nat else 0%nat)
     | None => mujocoRoot = None
     end) /\
  (forall r xpos w root numWraps,
     snd (Tendon.pairStep r xpos w (root, numWraps))
     = if Tendon.validStart xpos w && Tendon.validEnd xpos w
       then S numWraps else numWraps) /\
  (let model := Tendon.two_tendon_model in
   let sim := Tendon.two_tendon_state in
   let xpos := Tendon.wrap_xpos sim in
   let r := Number (Fin 0.01) in
   let after_first := Tendon.pairStep r xpos 0 (Tendon.newPools, 0%nat) in
   let root' := Tendon.updateTendons model sim Tendon.newPools in
   Tendon.validStart xpos 0 = true /\ Tendon.validEnd xpos 0 = false /\
   Tendon.validStart xpos 2 = true /\ Tendon.validEnd xpos 2 = true /\
   snd after_first = 0%nat /\
   Tendon.instanceMatrix (Tendon.spheres (fst after_first)) !! 0%nat
     = Some (Some (Tendon.sphere_at (Coord.getPosition xpos 0 true) r)) /\
   Tendon.instanceMatrix (Tendon.spheres root') !! 0%nat
     = Some (Some (Tendon.sphere_at (Coord.getPosition xpos 2 true) r)) /\
   Coord.getPosition xpos 0 true <> Coord.getPosition xpos 2 true /\
   Tendon.count (Tendon.cylinders root') = 1%nat /\
   Tendon.count (Tendon.spheres root') = 2%nat).
Proof.
  split.
  { intros model sim [root|]; cbn [Tendon.renderTendons]; [|reflexivity].
    destruct (updateTendons_counts model sim root) as (Hc & Hs & _).
    cbv zeta in Hc, Hs. rewrite Hs, Hc. reflexivity. }
  split.
  { intros r xpos w root n. rewrite pairStep_counter. cbn [snd].
    unfold Tendon.bothValid.
    destruct (Tendon.validStart xpos w && Tendon.validEnd xpos w); lia. }
  cbv zeta.
  split; [reflexivity|]. split; [reflexivity|]. split; [reflexivity|].
  split; [reflexivity|]. split; [reflexivity|].
  split; [vm_compute; reflexivity|]. split; [vm_compute; reflexivity|].
  split; [intros H; vm_compute in H; discriminate H|].
  split; vm_compute; reflexivity.
Qed.

(** ** Properties of the scene build *)

Section MeshFacts.
Import Build.

Lemma get_app_at (pre rest : list float) (j : nat) :
  get (pre ++ rest) (Z.of_nat (length pre + j))
  = match rest !! j with Some f => Number f | None => Undefined end.
Proof.
  unfold get, lookupZ.
  assert (E : (Z.of_nat (length pre + j) <? 0) = false) by (apply Z.ltb_ge; lia).
  rewrite E, Nat2Z.id, lookup_app_r by lia.
  replace (length pre + j - length pre)%nat with j by lia. reflexivity.
Qed.

Lemma store_app_at (pre rest : list float) (j : nat) (x : jsval) :
  store (pre ++ rest) (Z.of_nat (length pre + j)) x
  = pre ++ <[j := toNumber x]> rest.
Proof.
  unfold store.
  assert (E : (Z.of_nat (length pre + j) <? 0) = false) by (apply Z.ltb_ge; lia).
  rewrite E, Nat2Z.id, insert_app_r_alt by lia.
  replace (length pre + j - length pre)%nat with j by lia. reflexivity.
Qed.

Lemma swizzleStep_triple v k pre x y z post :
  length pre = (v_off v + 3 * k)%nat ->
  (3 * k + 3 <= v_len v)%nat ->
  swizzleStep v k (pre ++ x :: y :: z :: post)
  = pre ++ x :: z :: fneg y :: post.
Proof.
  intros Hpre Hlen. unfold swizzleStep, view_get, view_set.
  assert (E1 : (3 * k + 1 <? v_len v)%nat = true) by (apply Nat.ltb_lt; lia).
  assert (E2 : (3 * k + 2 <? v_len v)%nat = true) by (apply Nat.ltb_lt; lia).
  rewrite E1, E2.
  replace (v_off v + (3 * k + 1))%nat with (length pre + 1)%nat by lia.
  replace (v_off v + (3 * k + 2))%nat with (length pre + 2)%nat by lia.
  rewrite !get_app_at. cbn [lookup list_lookup].
  rewrite store_app_at. cbn [insert list_insert toNumber].
  rewrite store_app_at. reflexivity.
Qed.

Lemma swizzle_fold v n : forall body pre post k0,
  length body = (3 * n)%nat ->
  length pre = (v_off v + 3 * k0)%nat ->
  (3 * (k0 + n) <= v_len v)%nat ->
  fold_left (fun acc k => swizzleStep v k acc) (seq k0 n) (pre ++ body ++ post)
  = pre ++ swapYZ body ++ post.
Proof.
  induction n as [|n IH]; intros body pre post k0 Hbody Hpre Hlen.
  - destruct body; [reflexivity | discriminate Hbody].
  - destruct body as [|x [|y [|z body]]]; try (cbn in Hbody; lia).
    cbn [seq fold_left swapYZ app].
    rewrite (swizzleStep_triple v k0 pre x y z (body ++ post) Hpre) by lia.
    change (pre ++ x :: z :: fneg y :: body ++ post)
      with (pre ++ [x; z; fneg y] ++ body ++ post).
    rewrite (app_assoc pre [x; z; fneg y]).
    rewrite (IH body (pre ++ [x; z; fneg y]) post (S k0)).
    + rewrite <- app_assoc. reflexivity.
    + cbn in Hbody. lia.
    + rewrite length_app. cbn. lia.
    + lia.
Qed.

Lemma swizzleInPlace_spec v buffer :
  (v_off v + v_len v <= length buffer)%nat ->
  (v_len v mod 3 = 0)%nat ->
  swizzleInPlace v buffer
  = take (v_off v) buffer ++ swapYZ (view_contents buffer v)
    ++ drop (v_off v + v_len v) buffer.
Proof.
  intros Hin Hal. unfold swizzleInPlace, for_range, view_contents.
  assert (Hn : v_len v = (3 * (v_len v / 3))%nat).
  { pose proof (Nat.div_mod_eq (v_len v) 3). lia. }
  assert (Hit : ((v_len v + 2) / 3 = v_len v / 3)%nat).
  { rewrite Hn at 1. symmetry. apply (Nat.div_unique _ 3 _ 2); lia. }
  rewrite Hit.
  assert (Hsplit : buffer = take (v_off v) buffer
                     ++ take (v_len v) (drop (v_off v) buffer)
                     ++ drop (v_off v + v_len v) buffer).
  { rewrite <- (take_drop (v_off v) buffer) at 1. f_equal.
    rewrite <- (take_drop (v_len v) (drop (v_off v) buffer)) at 1. f_equal.
    rewrite drop_drop. reflexivity. }
  rewrite Hsplit at 1.
  apply swizzle_fold.
  - rewrite length_take, length_drop. lia.
  - rewrite length_take. lia.
  - lia.
Qed.

Lemma swapYZ_length l : length (swapYZ l) = length l.
Proof.
  assert (H : forall n l, (length l <= n)%nat -> length (swapYZ l) = length l).
  { clear l. induction n as [|n IH]; intros l Hl.
    - destruct l; [reflexivity | cbn in Hl; lia].
    - destruct l as [|x [|y [|z l]]]; try reflexivity.
      cbn [swapYZ length]. rewrite IH; [reflexivity | cbn in Hl; lia]. }
  apply (H (length l)). lia.
Qed.

Lemma swapYZ_twice l : swapYZ (swapYZ l) = negYZ l.
Proof.
  assert (H : forall n l, (length l <= n)%nat -> swapYZ (swapYZ l) = negYZ l).
  { clear l. induction n as [|n IH]; intros l Hl.
    - destruct l; [reflexivity | cbn in Hl; lia].
    - destruct l as [|x [|y [|z l]]]; try reflexivity.
      cbn [swapYZ negYZ]. rewrite IH; [reflexivity | cbn in Hl; lia]. }
  apply (H (length l)). lia.
Qed.

Lemma subarray_in_bounds len b e :
  (v_off (subarray len b e) + v_len (subarray len b e) <= len)%nat.
Proof.
  unfold subarray. cbn [v_off v_len].
  destruct (b <? 0) eqn:Eb, (e <? 0) eqn:Ee; lia.
Qed.

Lemma swizzleInPlace_length v buffer :
  (v_off v + v_len v <= length buffer)%nat ->
  (v_len v mod 3 = 0)%nat ->
  length (swizzleInPlace v buffer) = length buffer.
Proof.
  intros Hin Hal. rewrite (swizzleInPlace_spec v buffer Hin Hal).
  unfold view_contents.
  rewrite !length_app, swapYZ_length, !length_take, !length_drop. lia.
Qed.

Lemma view_contents_swizzled v buffer :
  (v_off v + v_len v <= length buffer)%nat ->
  (v_len v mod 3 = 0)%nat ->
  view_contents (swizzleInPlace v buffer) v = swapYZ (view_contents buffer v).
Proof.
  intros Hin Hal. rewrite (swizzleInPlace_spec v buffer Hin Hal).
  unfold view_contents at 1.
  rewrite drop_app_length'; [|rewrite length_take; lia].
  rewrite take_app_length'; [reflexivity|].
  unfold view_contents. rewrite swapYZ_length, length_take, length_drop. lia.
Qed.

End MeshFacts.

Section MeshSynthesisFacts.
Import Build.

Lemma meshViews_lengths model meshID st st' :
  length (st_mesh_vert st') = length (st_mesh_vert st) ->
  length (st_mesh_normal st') = length (st_mesh_normal st) ->
  meshViews model meshID st' = meshViews model meshID st.
Proof.
  intros Hv Hn. unfold meshViews. rewrite Hv, Hn. reflexivity.
Qed.

Lemma meshViews_in_bounds model meshID st vv nv uv tv :
  meshViews model meshID st = (vv, nv, uv, tv) ->
  (v_off vv + v_len vv <= length (st_mesh_vert st))%nat /\
  (v_off nv + v_len nv <= length (st_mesh_normal st))%nat.
Proof.
  unfold meshViews. intros H. injection H as <- <- _ _.
  split; apply subarray_in_bounds.
Qed.

End MeshSynthesisFacts.

(** C9.  On the first reference to a mesh id the synthesis takes views
    into the model's vertex and normal buffers (no copy: the geometry
    holds the views) and runs the swap loop through them, so the model's
    own buffers end up with every triple (x, y, z) of the range replaced
    by (x, z, -y) and are left like that.  A later reference in the same
    build finds the cached geometry and writes nothing; a second synthesis
    pass over the same buffers (with an empty cache) swaps the already
    swapped data again, leaving (x, -y, -z), which is also what the
    geometry of the first pass then shows. *)
Theorem mesh_synthesis_in_place (model : Build.Model) (meshID : Build.key)
    (st : Build.State) (vv nv uv tv : Build.View) :
  Build.meshes st !! meshID = None ->
  Build.meshViews model meshID st = (vv, nv, uv, tv) ->
  (Build.v_len vv mod 3 = 0)%nat ->
  (Build.v_len nv mod 3 = 0)%nat ->
  let geometry :=
    Build.BufferGeometry vv nv uv
      (Build.view_contents (Build.mesh_face model) tv) in
  let st1 := snd (Build.synthesizeMesh model meshID st) in
  let st2 := snd (Build.synthesizeMesh model meshID (Build.clearCache st1)) in
  fst (Build.synthesizeMesh model meshID st) = geometry /\
  Build.st_mesh_vert st1
    = take (Build.v_off vv) (Build.st_mesh_vert st)
      ++ Build.swapYZ (Build.view_contents (Build.st_mesh_vert st) vv)
      ++ drop (Build.v_off vv + Build.v_len vv) (Build.st_mesh_vert st) /\
  Build.st_mesh_normal st1
    = take (Build.v_off nv) (Build.st_mesh_normal st)
      ++ Build.swapYZ (Build.view_contents (Build.st_mesh_normal st) nv)
      ++ drop (Build.v_off nv + Build.v_len nv) (Build.st_mesh_normal st) /\
  Build.view_contents (Build.st_mesh_vert st1) vv
    = Build.swapYZ (Build.view_contents (Build.st_mesh_vert st) vv) /\
  Build.view_contents (Build.st_mesh_normal st1) nv
    = Build.swapYZ (Build.view_contents (Build.st_mesh_normal st) nv) /\
  Build.synthesizeMesh model meshID st1 = (geometry, st1) /\
  fst (Build.synthesizeMesh model meshID (Build.clearCache st1)) = geometry /\
  Build.view_contents (Build.st_mesh_vert st2) vv
    = Build.negYZ (Build.view_contents (Build.st_mesh_vert st) vv) /\
  Build.view_contents (Build.st_mesh_normal st2) nv
    = Build.negYZ (Build.view_contents (Build.st_mesh_normal st) nv).
Proof.
  intros Hmiss Hviews Hav Han geometry st1 st2.
  destruct (meshViews_in_bounds _ _ _ _ _ _ _ Hviews) as [Bv Bn].
  assert (E1 : Build.synthesizeMesh model meshID st
               = (geometry,
                  Build.mkState
                    (Build.swizzleInPlace vv (Build.st_mesh_vert st))
                    (Build.swizzleInPlace nv (Build.st_mesh_normal st))
                    (Build.bodies st) (<[meshID := geometry]> (Build.meshes st))
                    (Build.material st) (Build.materials_allocated st)
                    (Build.textures_allocated st))).
  { unfold Build.synthesizeMesh. rewrite Hmiss, Hviews. reflexivity. }
  assert (Ev : Build.st_mesh_vert st1
               = Build.swizzleInPlace vv (Build.st_mesh_vert st))
    by (subst st1; rewrite E1; reflexivity).
  assert (En : Build.st_mesh_normal st1
               = Build.swizzleInPlace nv (Build.st_mesh_normal st))
    by (subst st1; rewrite E1; reflexivity).
  assert (Ec : Build.meshes st1 !! meshID = Some geometry).
  { subst st1. rewrite E1. cbn [snd Build.meshes]. apply lookup_insert_eq. }
  assert (Lv : length (Build.st_mesh_vert st1) = length (Build.st_mesh_vert st))
    by (rewrite Ev; apply swizzleInPlace_length; assumption).
  assert (Ln : length (Build.st_mesh_normal st1) = length (Build.st_mesh_normal st))
    by (rewrite En; apply swizzleInPlace_length; assumption).
  assert (Hviews2 : Build.meshViews model meshID (Build.clearCache st1)
                    = (vv, nv, uv, tv)).
  { rewrite <- Hviews. apply meshViews_lengths; assumption. }
  assert (E2 : Build.synthesizeMesh model meshID (Build.clearCache st1)
               = (geometry,
                  Build.mkState
                    (Build.swizzleInPlace vv (Build.st_mesh_vert st1))
                    (Build.swizzleInPlace nv (Build.st_mesh_normal st1))
                    (Build.bodies st1) (<[meshID := geometry]> ∅)
                    (Build.material st1) (Build.materials_allocated st1)
                    (Build.textures_allocated st1))).
  { unfold Build.synthesizeMesh.
    cbn [Build.clearCache Build.meshes]. rewrite lookup_empty, Hviews2.
    reflexivity. }
  split; [rewrite E1; reflexivity|].
  split; [rewrite Ev; apply swizzleInPlace_spec; assumption|].
  split; [rewrite En; apply swizzleInPlace_spec; assumption|].
  split; [rewrite Ev; apply view_contents_swizzled; assumption|].
  split; [rewrite En; apply view_contents_swizzled; assumption|].
  split; [unfold Build.synthesizeMesh; rewrite Ec; reflexivity|].
  split; [rewrite E2; reflexivity|].
  subst st2. rewrite E2. cbn [snd Build.st_mesh_vert Build.st_mesh_normal].
  split.
  - rewrite view_contents_swizzled by (rewrite ?Lv; assumption).
    rewrite Ev, view_contents_swizzled by assumption. apply swapYZ_twice.
  - rewrite view_contents_swizzled by (rewrite ?Ln; assumption).
    rewrite En, view_contents_swizzled by assumption. apply swapYZ_twice.
Qed.

Lemma mesh_synthesis_in_place_witness :
  let st := Build.initialState Build.meshModel in
  let st1 := snd (Build.synthesizeMesh Build.meshModel (Some 0) st) in
  let st2 := snd (Build.synthesizeMesh Build.meshModel (Some 0)
                    (Build.clearCache st1)) in
  Build.st_mesh_vert st = Build.meshVertices /\
  Build.st_mesh_vert st1
    = [Fin 1; Fin 3; Fin (-2); Fin 4; Fin 6; Fin (-5); Fin 7; Fin 9; Fin (-8)] /\
  Build.st_mesh_vert st2
    = [Fin 1; Fin (-2); Fin (-3); Fin 4; Fin (-5); Fin (-6);
       Fin 7; Fin (-8); Fin (-9)].
Proof.
  cbv zeta.
  destruct (mesh_synthesis_in_place Build.meshModel (Some 0)
              (Build.initialState Build.meshModel)
              (Build.mkView 0 9) (Build.mkView 0 9) (Build.mkView 0 0)
              (Build.mkView 0 3))
    as (_ & H1 & _ & _ & _ & _ & _ & H2 & _);
    [reflexivity | reflexivity | reflexivity | reflexivity |].
  split; [reflexivity|]. split; [exact H1|].
  vm_compute. reflexivity.
Defined.

(** The same at the level of the whole build: the buffers handed back
    are the swapped ones, and building once more from a model that holds
    them swaps them again. *)
Lemma build_mutates_mesh_buffers :
  let first := snd (Build.loadSceneFromURL Build.meshModel Build.emptyParent) in
  let again m :=
    snd (Build.loadSceneFromURL
           (Build.withMeshBuffers Build.meshModel
              (Build.loaded_mesh_vert m) (Build.loaded_mesh_normal m))
           Build.emptyParent) in
  Build.loaded_mesh_vert <$> first = Some (Build.swapYZ Build.meshVertices) /\
  Build.swapYZ Build.meshVertices <> Build.meshVertices /\
  Build.loaded_mesh_vert <$> (first ≫= again)
    = Some (Build.negYZ Build.meshVertices).
Proof.
  cbv zeta. split; [vm_compute; reflexivity|].
  split; [intros H; vm_compute in H; discriminate H|].
  vm_compute. reflexivity.
Qed.

Section MaterialFacts.
Import Build.

Lemma synthesizeGeometry_appearance model g b type st :
  let st' := snd (synthesizeGeometry model g b type st) in
  material st' = material st /\
  materials_allocated st' = materials_allocated st /\
  textures_allocated st' = textures_allocated st.
Proof.
  unfold synthesizeGeometry.
  repeat match goal with
         | |- context [if key_eq ?a ?b then _ else _] => destruct (key_eq a b)
         end; try (repeat split; reflexivity).
  unfold synthesizeMesh.
  destruct (meshes st !! _); [repeat split; reflexivity|].
  destruct (meshViews _ _ _) as [[[? ?] ?] ?]. repeat split; reflexivity.
Qed.

Lemma deriveTexture_cases model g st :
  match deriveTexture model g st with
  | None => True
  | Some (tex, st') =>
      material st' = material st /\
      materials_allocated st' = materials_allocated st /\
      if hasTexture model g
      then exists t, tex = Some t /\ tex_uid t = textures_allocated st /\
                     textures_allocated st' = S (textures_allocated st)
      else tex = None /\ textures_allocated st' = textures_allocated st
  end.
Proof.
  unfold deriveTexture, hasTexture, makeTexture.
  destruct (key_neq (geti (geom_matid model) _) (-1)); cbn [andb];
    [|repeat split; reflexivity].
  destruct (key_neq (geti (mat_texid model) _) (-1));
    [|repeat split; reflexivity].
  destruct (typedArrayLength _); [|exact I].
  split; [reflexivity|]. split; [reflexivity|].
  eexists. split; [reflexivity|]. split; reflexivity.
Qed.

Lemma geomStep_appearance model na g st st1 :
  visible model g = true ->
  geomStep model na g st = Ok st1 ->
  exists tex,
    (if hasTexture model g
     then exists t, tex = Some t /\ tex_uid t = textures_allocated st /\
                    textures_allocated st1 = S (textures_allocated st)
     else tex = None /\ textures_allocated st1 = textures_allocated st) /\
    material st1
      = (if materialDiffers (material st) (derivedColor model g) tex
         then newMaterial model g (materials_allocated st) (derivedColor model g) tex
         else material st) /\
    materials_allocated st1
      = (if materialDiffers (material st) (derivedColor model g) tex
         then S (materials_allocated st) else materials_allocated st).
Proof.
  intros Hvis. unfold geomStep. rewrite Hvis. cbn [negb].
  set (b := geti (geom_bodyid model) _). set (type := geti (geom_type model) _).
  set (st0 := ensureBody model na b st).
  assert (A0 : material st0 = material st /\
               materials_allocated st0 = materials_allocated st /\
               textures_allocated st0 = textures_allocated st).
  { subst st0. unfold ensureBody. destruct (bodies st !! b); repeat split; reflexivity. }
  pose proof (synthesizeGeometry_appearance model g b type st0) as A1.
  destruct (synthesizeGeometry model g b type st0) as [geometry stg].
  cbn [snd] in A1. destruct A1 as (M1 & C1 & T1).
  destruct A0 as (M0 & C0 & T0).
  pose proof (deriveTexture_cases model g stg) as A2.
  destruct (deriveTexture model g stg) as [[tex stt]|]; [|discriminate].
  destruct A2 as (M2 & C2 & T2).
  intros H. injection H as <-. exists tex.
  unfold attachMesh, resolveMaterial.
  rewrite M2, M1, M0, C2, C1, C0.
  destruct (materialDiffers (material st) (derivedColor model g) tex);
    cbn [material materials_allocated textures_allocated];
    rewrite ?M2, ?M1, ?M0, ?C2, ?C1, ?C0.
  - split; [|split; reflexivity].
    destruct (hasTexture model g).
    + destruct T2 as (t & -> & U & T2). exists t.
      rewrite U, T2, T1, T0. repeat split; reflexivity.
    + destruct T2 as (-> & T2). rewrite T2, T1, T0. split; reflexivity.
  - split; [|split; reflexivity].
    destruct (hasTexture model g).
    + destruct T2 as (t & -> & U & T2). exists t.
      rewrite U, T2, T1, T0. repeat split; reflexivity.
    + destruct T2 as (-> & T2). rewrite T2, T1, T0. split; reflexivity.
Qed.

Lemma jneq_refl_fin q : jneq (Number (Fin q)) (Number (Fin q)) = false.
Proof. cbn. now rewrite Qeq_bool_refl. Qed.

Lemma jneq_via a q1 q2 :
  jneq a (Number (Fin q1)) = false ->
  jneq a (Number (Fin q2)) = jneq (Number (Fin q1)) (Number (Fin q2)).
Proof.
  destruct a as [[q|]|]; cbn; try discriminate.
  rewrite negb_false_iff. intros H. apply Qeq_bool_iff in H.
  f_equal. destruct (Qeq_bool q1 q2) eqn:E.
  - apply Qeq_bool_iff. apply Qeq_bool_iff in E. now rewrite H.
  - destruct (Qeq_bool q q2) eqn:E'; [|reflexivity].
    apply Qeq_bool_iff in E'. rewrite H in E'. apply Qeq_bool_iff in E'. congruence.
Qed.

Lemma memo_mirrors model g uid m c tex :
  finiteColor c = true ->
  materialDiffers
    (if materialDiffers m c tex then newMaterial model g uid c tex else m)
    c tex = false.
Proof.
  intros Hf. destruct (materialDiffers m c tex) eqn:E; [|exact E].
  destruct c as [[[c0 c1] c2] c3].
  destruct c0 as [[q0|]|], c1 as [[q1|]|], c2 as [[q2|]|], c3 as [[q3|]|];
    try discriminate Hf.
  unfold materialDiffers, newMaterial. cbn [color opacity map newColor].
  rewrite !jneq_refl_fin. cbn [orb].
  destruct tex as [t|]; cbn; [|reflexivity]. now rewrite Nat.eqb_refl.
Qed.

Lemma materialDiffers_next m c1 tex1 c2 tex2 :
  finiteColor c1 = true -> finiteColor c2 = true ->
  materialDiffers m c1 tex1 = false ->
  materialDiffers m c2 tex2
  = negb (sameColor c1 c2) || map_neq (map m) tex2.
Proof.
  intros F1 F2.
  destruct c1 as [[[a0 a1] a2] a3], c2 as [[[b0 b1] b2] b3].
  destruct a0 as [[p0|]|], a1 as [[p1|]|], a2 as [[p2|]|], a3 as [[p3|]|];
    try discriminate F1.
  destruct b0 as [[q0|]|], b1 as [[q1|]|], b2 as [[q2|]|], b3 as [[q3|]|];
    try discriminate F2.
  unfold materialDiffers, sameColor. destruct (color m) as [[r g] b].
  intros H. repeat (apply orb_false_iff in H; destruct H as [H ?]).
  rewrite (jneq_via r p0 q0), (jneq_via g p1 q1), (jneq_via b p2 q2),
          (jneq_via (opacity m) p3 q3) by assumption.
  rewrite !negb_andb, !negb_involutive. reflexivity.
Qed.

End MaterialFacts.

(** C7 (as the code has it).  For two geometries handled one after the
    other in a build, both with finite colour components: when their
    colours and opacities are equal and neither has a texture, the second
    one reuses the memoized material and nothing is allocated; in every
    other case (a colour component or the opacity differs, or either of
    them has a texture) a new material is allocated for the second one.  A
    texture object is built afresh for every textured geometry, so it is
    never the object held by the memoized material. *)
Theorem material_memo (model : Build.Model) (names_array : list Z)
    (g1 g2 : nat) (st st1 st2 : Build.State) :
  Build.visible model g1 = true ->
  Build.visible model g2 = true ->
  Build.geomStep model names_array g1 st = Build.Ok st1 ->
  Build.geomStep model names_array g2 st1 = Build.Ok st2 ->
  Build.finiteColor (Build.derivedColor model g1) = true ->
  Build.finiteColor (Build.derivedColor model g2) = true ->
  if Build.sameColor (Build.derivedColor model g1) (Build.derivedColor model g2)
     && negb (Build.hasTexture model g1) && negb (Build.hasTexture model g2)
  then Build.material st2 = Build.material st1 /\
       Build.materials_allocated st2 = Build.materials_allocated st1
  else Build.materials_allocated st2 = S (Build.materials_allocated st1) /\
       Build.mat_uid (Build.material st2) = Build.materials_allocated st1.
Proof.
  intros V1 V2 S1 S2 F1 F2.
  destruct (geomStep_appearance _ _ _ _ _ V1 S1) as (tex1 & T1 & M1 & C1).
  destruct (geomStep_appearance _ _ _ _ _ V2 S2) as (tex2 & T2 & M2 & C2).
  pose proof (memo_mirrors model g1 (Build.materials_allocated st)
                (Build.material st) _ tex1 F1) as Hm.
  rewrite <- M1 in Hm.
  rewrite (materialDiffers_next _ _ tex1 _ tex2 F1 F2 Hm) in M2, C2.
  assert (Emap : Build.map_neq (Build.map (Build.material st1)) tex2
                 = Build.hasTexture model g1 || Build.hasTexture model g2).
  { unfold Build.materialDiffers in Hm.
    destruct (Build.derivedColor model g1) as [[[? ?] ?] ?].
    destruct (Build.color (Build.material st1)) as [[? ?] ?].
    apply orb_false_iff in Hm. destruct Hm as [_ Hm].
    destruct (Build.hasTexture model g1).
    - destruct T1 as (t1 & -> & U1 & A1). cbn [orb].
      destruct (Build.map (Build.material st1)) as [x|]; [|discriminate Hm].
      cbn in Hm. apply negb_false_iff, Nat.eqb_eq in Hm.
      destruct (Build.hasTexture model g2).
      + destruct T2 as (t2 & -> & U2 & _). cbn.
        apply negb_true_iff, Nat.eqb_neq. lia.
      + destruct T2 as (-> & _). reflexivity.
    - destruct T1 as (-> & A1). cbn [orb].
      destruct (Build.map (Build.material st1)) as [x|]; [discriminate Hm|].
      destruct (Build.hasTexture model g2).
      + destruct T2 as (t2 & -> & _). reflexivity.
      + destruct T2 as (-> & _). reflexivity. }
  rewrite Emap in M2, C2.
  destruct (Build.sameColor _ _), (Build.hasTexture model g1),
    (Build.hasTexture model g2); cbn in M2, C2 |- *;
    rewrite ?M2, ?C2; split; try reflexivity.
  all: destruct (Build.derivedColor model g2) as [[[? ?] ?] ?]; reflexivity.
Qed.

Lemma material_memo_witness :
  let model := Build.plainPairModel in
  Build.visible model 0 = true /\ Build.visible model 1 = true /\
  Build.finiteColor (Build.derivedColor model 0) = true /\
  Build.finiteColor (Build.derivedColor model 1) = true /\
  Build.material (Build.stateAfter model 2) = Build.material (Build.stateAfter model 1) /\
  Build.materials_allocated (Build.stateAfter model 2)
    = Build.materials_allocated (Build.stateAfter model 1).
Proof.
  cbv zeta. do 4 (split; [reflexivity|]).
  apply (material_memo Build.plainPairModel
           (default [] (Build.names Build.plainPairModel)) 0 1
           (Build.stateAfter Build.plainPairModel 0)
           (Build.stateAfter Build.plainPairModel 1)
           (Build.stateAfter Build.plainPairModel 2));
    vm_compute; reflexivity.
Defined.

(** C7 (as stated) fails: two consecutive spheres that share one textured
    material have the same colour, the same opacity and the same texture
    id, and still the second one gets a newly allocated material (and a
    newly built texture). *)
Lemma textured_pair_allocates_twice :
  let model := Build.texturedPairModel in
  let na := default [] (Build.names model) in
  let st0 := Build.stateAfter model 0 in
  let st1 := Build.stateAfter model 1 in
  let st2 := Build.stateAfter model 2 in
  Build.geomStep model na 0 st0 = Build.Ok st1 /\
  Build.geomStep model na 1 st1 = Build.Ok st2 /\
  Build.derivedColor model 0 = Build.derivedColor model 1 /\
  Build.textureId model 0 = Some 0%Z /\
  Build.textureId model 1 = Some 0%Z /\
  Build.materials_allocated st2 = S (Build.materials_allocated st1) /\
  Build.textures_allocated st2 = S (Build.textures_allocated st1) /\
  Build.material st2 <> Build.material st1.
Proof.
  cbv zeta. do 7 (split; [vm_compute; reflexivity|]).
  intros H. vm_compute in H. discriminate H.
Qed.

Section BuildFacts.
Import Build.

Lemma for_range_invariant {S} (P : S -> Prop) n (body : nat -> S -> S) s :
  P s -> (forall i x, P x -> P (body i x)) -> P (for_range n body s).
Proof.
  intros H0 Hstep. induction n as [|n IH]; [exact H0|].
  rewrite for_range_S. apply Hstep, IH.
Qed.

Lemma geomStep_throws model na g st e st' :
  geomStep model na g st = Throw e st' -> e = RangeError.
Proof.
  unfold geomStep. destruct (negb (visible model g)); [discriminate|].
  destruct (synthesizeGeometry _ _ _ _ _) as [geometry stg].
  destruct (deriveTexture model g stg) as [[tex stt]|]; [discriminate|].
  intros H. now injection H as <- _.
Qed.

Lemma geomLoop_throws model na st e st' :
  geomLoop model na st = Throw e st' -> e = RangeError.
Proof.
  unfold geomLoop.
  assert (H : match for_range (ngeom model)
                      (fun g acc =>
                         match acc with
                         | Ok st => geomStep model na g st
                         | Throw e st => Throw e st
                         end) (Ok st) with
              | Ok _ => True
              | Throw e _ => e = RangeError
              end).
  { apply (for_range_invariant
             (fun o => match o with Ok _ => True | Throw e _ => e = RangeError end));
      [exact I|].
    intros g [x|e0 x] Hx; [|exact Hx].
    destruct (geomStep model na g x) as [y|e1 y] eqn:E; [exact I|].
    apply (geomStep_throws _ _ _ _ _ _ E). }
  intros E. rewrite E in H. exact H.
Qed.

Lemma lightStep_pools model l acc :
  root_pools (snd (fst (lightStep model l acc))) = root_pools (snd (fst acc)).
Proof.
  destruct acc as [[bs root] lights]. unfold lightStep.
  destruct (bs !! Some 0); reflexivity.
Qed.

Lemma bodyStep_pools names_ b acc :
  root_pools (snd (bodyStep names_ b acc)) = root_pools (snd acc).
Proof.
  destruct acc as [bs root]. unfold bodyStep. cbv zeta.
  repeat case_match; reflexivity.
Qed.

Lemma namesInvalid_iff model :
  namesInvalid model = true <-> names model = None \/ names model = Some [].
Proof.
  unfold namesInvalid. destruct (names model) as [[|c blob]|]; cbn.
  - split; [right; reflexivity | reflexivity].
  - split; [discriminate | intros [H|H]; discriminate H].
  - split; [left; reflexivity | reflexivity].
Qed.

End BuildFacts.

(** C3 (as the code has it).  When the name blob is absent or empty the
    build raises its error before it touches the scene, the [catch] clause
    turns it into the [null] result, and the scene is what it was.  When
    an exception is raised later, while the geometries are walked (the
    only one there is the [RangeError] of a texture whose pixel array
    cannot be allocated), the result is [null] as well, but the root
    group, added to the scene before the walk, stays in the scene, still
    empty; [parent.mujocoRoot] keeps its old value.  Otherwise the build
    completes: the scene holds the filled root, which carries the two
    tendon pools, and [parent.mujocoRoot] is that root. *)
Theorem build_failure_modes (model : Build.Model) (parent : Build.Parent) :
  (Build.namesInvalid model = true <->
     Build.names model = None \/ Build.names model = Some []) /\
  if Build.namesInvalid model
  then Build.tryBuild model parent = (parent, inl Build.InvalidNames) /\
       Build.loadSceneFromURL model parent = (parent, None)
  else
    match Build.geomLoop model (default [] (Build.names model))
            (Build.initialState model) with
    | Build.Throw e _ =>
        e = Build.RangeError /\
        Build.loadSceneFromURL model parent
        = (Build.mkParent
             (Build.scene parent ++ [Build.MujocoRoot Build.emptyRoot])
             (Build.mujocoRoot parent), None)
    | Build.Ok st =>
        exists root loaded,
          Build.loadSceneFromURL model parent
          = (Build.mkParent (Build.scene parent ++ [Build.MujocoRoot root])
                            (Some root), Some loaded) /\
          Build.root_pools root = Some Tendon.newPools /\
          Build.loaded_mesh_vert loaded = Build.st_mesh_vert st /\
          Build.loaded_mesh_normal loaded = Build.st_mesh_normal st
    end.
Proof.
  split; [apply namesInvalid_iff|].
  unfold Build.loadSceneFromURL, Build.tryBuild.
  destruct (Build.namesInvalid model); [split; reflexivity|].
  destruct (Build.geomLoop model _ _) as [st|e st] eqn:E.
  - pose proof (for_range_invariant
                  (fun acc => Build.root_pools (snd (fst acc)) = Some Tendon.newPools)
                  (Build.nlight model) (Build.lightStep model)
                  (Build.bodies st,
                   Build.mkRoot [Build.CCylinders; Build.CSpheres]
                     (Some Tendon.newPools), [])) as HL.
    destruct (for_range (Build.nlight model) _ _) as [[bodies1 root1] lights].
    cbn [fst snd] in HL.
    assert (P1 : Build.root_pools root1 = Some Tendon.newPools).
    { apply HL; [reflexivity|]. intros i x Hx. now rewrite lightStep_pools. }
    set (root2 := if (Build.nlight model =? 0)%nat then _ else root1).
    assert (P2 : Build.root_pools root2 = Some Tendon.newPools).
    { subst root2. destruct (Build.nlight model =? 0)%nat; exact P1. }
    pose proof (for_range_invariant
                  (fun acc => Build.root_pools (snd acc) = Some Tendon.newPools)
                  (Build.nbody model)
                  (Build.bodyStep (Build.splitNull (default [] (Build.names model))))
                  (bodies1, root2)) as HB.
    destruct (for_range (Build.nbody model) _ _) as [bodies2 root3].
    cbn [snd] in HB.
    assert (P3 : Build.root_pools root3 = Some Tendon.newPools).
    { apply HB; [exact P2|]. intros i x Hx. now rewrite bodyStep_pools. }
    exists root3. eexists. split; [reflexivity|].
    split; [exact P3|]. split; reflexivity.
  - split; [apply (geomLoop_throws _ _ _ _ _ E) | reflexivity].
Qed.

(** C3 (as stated) fails: a model with a good name blob and one sphere
    whose texture is too large to allocate makes the build return [null]
    with the root group left in the scene. *)
Lemma failed_build_leaves_root_in_scene :
  let result := Build.loadSceneFromURL Build.hugeTextureModel Build.emptyParent in
  Build.namesInvalid Build.hugeTextureModel = false /\
  snd result = None /\
  Build.scene (fst result)
    = Build.scene Build.emptyParent ++ [Build.MujocoRoot Build.emptyRoot] /\
  Build.scene (fst result) <> Build.scene Build.emptyParent.
Proof.
  cbv zeta. do 3 (split; [vm_compute; reflexivity|]).
  intros H. vm_compute in H. discriminate H.
Qed.

(** * Further properties *)

(** ** Gait controller: inputs *)

Section GaitInputFacts.
Import Gait.
Local Open Scope Q_scope.


End GaitInputFacts.



(** X2.  [setSpeed(s)] clamps: the stored speed always lies in [0, 1], is
    [s] itself when [s] lies in [0, 1], 0 when [s] is below and 1 when [s]
    is above; nothing else in the controller changes. *)
Theorem setSpeed_clamps (sp : Q) (s : Gait.Controller) :
  let s' := Gait.setSpeed sp s in
  (0 <= Gait.speed s' /\ Gait.speed s' <= 1)%Q /\
  (0 <= sp -> sp <= 1 -> Gait.speed s' == sp)%Q /\
  (sp <= 0 -> Gait.speed s' == 0)%Q /\
  (1 <= sp -> Gait.speed s' == 1)%Q /\
  Gait.ctrl s' = Gait.ctrl s /\ Gait.time s' = Gait.time s /\
  Gait.phase s' = Gait.phase s /\ Gait.isMoving s' = Gait.isMoving s /\
  Gait.direction s' = Gait.direction s.
Proof.
  cbv zeta. unfold Gait.setSpeed.
  cbn [Gait.speed Gait.ctrl Gait.time Gait.phase Gait.isMoving Gait.direction].
  assert (H1 : (Qmin 1 sp <= 1)%Q) by apply Q.le_min_l.
  split.
  { split; [apply Q.le_max_l|]. apply Q.max_lub; [discriminate | exact H1]. }
  split.
  { intros H0 Hle. rewrite (Q.min_r 1 sp Hle). apply Q.max_r. exact H0. }
  split.
  { intros H0. apply Q.max_l. eapply Qle_trans; [apply Q.le_min_r | exact H0]. }
  split.
  { intros Hge. rewrite (Q.min_l 1 sp Hge). apply Q.max_r. discriminate. }
  repeat split; reflexivity.
Qed.

(** ** Gait controller: the trot *)

Section GaitTrotFacts.
Import Gait.
Local Open Scope Q_scope.

Variable Math_sin : Q -> Q.
Variable Math_PI : Q.




End GaitTrotFacts.



Section GaitBoundFacts.
Import Gait.
Local Open Scope Q_scope.

Lemma Qabs_mul_le a b A B :
  Qabs a <= A -> Qabs b <= B -> Qabs (a * b) <= A * B.
Proof.
  intros Ha Hb. rewrite Qabs_Qmult.
  pose proof (Qabs_nonneg a). pose proof (Qabs_nonneg b). nra.
Qed.

Lemma Qabs_neg_one b : Qabs (b * (-1.0)) == Qabs b.
Proof.
  assert (E : b * (-1.0) == - b) by ring. rewrite E. apply Qabs_opp.
Qed.

Lemma swing_offsets_bounded sp ph lx ly sn :
  0 <= sp -> sp <= 1 -> 0 <= ph -> ph <= 1 ->
  Qabs lx <= 1 -> Qabs ly <= 1 -> Qabs sn <= 1 ->
  Qabs (sp * 0.15 * (ph - 0.5) * ly * 0.8) <= 0.06 /\
  Qabs (sp * 0.15 * (ph - 0.5) * lx * 0.5 - sp * 0.1 * sn * 0.5) <= 0.0875 /\
  Qabs (sp * 0.1 * sn * 0.8) <= 0.08.
Proof.
  intros S0 S1 P0 P1 Hx Hy Hs.
  assert (Hsp : Qabs sp <= 1) by (apply Qabs_Qle_condition; split; lra).
  assert (Hph : Qabs (ph - 0.5) <= 0.5) by (apply Qabs_Qle_condition; split; lra).
  assert (A : Qabs (sp * (ph - 0.5)) <= 1 * 0.5) by (apply Qabs_mul_le; assumption).
  assert (By : Qabs (sp * (ph - 0.5) * ly) <= 1 * 0.5 * 1) by (apply Qabs_mul_le; assumption).
  assert (Bx : Qabs (sp * (ph - 0.5) * lx) <= 1 * 0.5 * 1) by (apply Qabs_mul_le; assumption).
  assert (Bz : Qabs (sp * sn) <= 1 * 1) by (apply Qabs_mul_le; assumption).
  apply Qabs_Qle_condition in By, Bx, Bz.
  repeat split; apply Qabs_Qle_condition; split; lra.
Qed.

End GaitBoundFacts.

Local Ltac close_bound B :=
  eapply Qle_trans; [|exact B];
  apply Qle_lteq; right; apply Qabs_wd;
  unfold Gait.pose, Gait.DEFAULT_POSE; cbn [nth Nat.mul Nat.add]; ring.

(** X4.  The joint targets one leg writes stay close to the default pose.
    For a leg phase in [0, 1], a speed in [0, 1], direction components
    within [-1, 1] and a height factor ([Math.sin] of phase times pi) within
    [-1, 1], the hip target is within 0.06, the thigh target within 0.0875
    and the calf target within 0.08 of their default-pose values. *)
Theorem leg_targets_bounded (Math_sin : Q -> Q) (Math_PI : Q)
    (leg : nat) (ph : Q) (s : Gait.Controller) :
  (leg < 4)%nat ->
  (leg * 3 + 2 < length (Gait.ctrl s))%nat ->
  (0 <= ph)%Q -> (ph <= 1)%Q ->
  (0 <= Gait.speed s)%Q -> (Gait.speed s <= 1)%Q ->
  (Qabs (Gait.direction s).1.1 <= 1)%Q ->
  (Qabs (Gait.direction s).1.2 <= 1)%Q ->
  (Qabs (Math_sin (ph * Math_PI)) <= 1)%Q ->
  let c' := Gait.ctrl (Gait.calculateLegJointPositions Math_sin Math_PI leg ph s) in
  exists hip thigh calf,
    c' !! (leg * 3 + 0)%nat = Some hip /\
    c' !! (leg * 3 + 1)%nat = Some thigh /\
    c' !! (leg * 3 + 2)%nat = Some calf /\
    (Qabs (hip - Gait.pose (leg * 3 + 0)) <= 0.06)%Q /\
    (Qabs (thigh - Gait.pose (leg * 3 + 1)) <= 0.0875)%Q /\
    (Qabs (calf - Gait.pose (leg * 3 + 2)) <= 0.08)%Q.
Proof.
  intros Hleg Hlen P0 P1 S0 S1 Hx Hy Hs. cbv zeta.
  unfold Gait.calculateLegJointPositions, Gait.JOINTS_PER_LEG, Gait.HIP_JOINT,
    Gait.THIGH_JOINT, Gait.CALF_JOINT.
  destruct (Gait.direction s) as [[dx dy] dz]. cbn [fst snd] in Hx, Hy.
  assert (Hx' : (Qabs (dx * (-1.0)) <= 1)%Q) by (now rewrite Qabs_neg_one).
  assert (Hy' : (Qabs (dy * (-1.0)) <= 1)%Q) by (now rewrite Qabs_neg_one).
  destruct (gtb ph 0).
  - cbn [Gait.ctrl Gait.set_ctrl].
    do 3 eexists.
    split; [rewrite !list_lookup_insert_ne by lia;
            apply list_lookup_insert_eq; lia|].
    split; [rewrite list_lookup_insert_ne by lia;
            apply list_lookup_insert_eq; rewrite ?length_insert; lia|].
    split; [apply list_lookup_insert_eq; rewrite ?length_insert; lia|].
    unfold Gait.TROT_STEP_LENGTH, Gait.TROT_STEP_HEIGHT.
    set (sn := Math_sin (ph * Math_PI)%Q) in *.
    destruct leg as [|[|[|[|leg]]]]; [| | | |lia];
      cbn [Nat.eqb orb Gait.FL Gait.RL Gait.RR Gait.FR].
    + destruct (swing_offsets_bounded (Gait.speed s) ph dx dy sn)
        as (B1 & B2 & B3); try assumption.
      split; [close_bound B1|]. split; [close_bound B2 | close_bound B3].
    + destruct (swing_offsets_bounded (Gait.speed s) ph dx (dy * (-1.0))%Q sn)
        as (B1 & B2 & B3); try assumption.
      split; [close_bound B1|]. split; [close_bound B2 | close_bound B3].
    + destruct (swing_offsets_bounded (Gait.speed s) ph (dx * (-1.0))%Q dy sn)
        as (B1 & B2 & B3); try assumption.
      split; [close_bound B1|]. split; [close_bound B2 | close_bound B3].
    + destruct (swing_offsets_bounded (Gait.speed s) ph (dx * (-1.0))%Q
                  (dy * (-1.0))%Q sn)
        as (B1 & B2 & B3); try assumption.
      split; [close_bound B1|]. split; [close_bound B2 | close_bound B3].
  - cbn [Gait.ctrl Gait.set_ctrl].
    do 3 eexists.
    split; [rewrite !list_lookup_insert_ne by lia;
            apply list_lookup_insert_eq; lia|].
    split; [rewrite list_lookup_insert_ne by lia;
            apply list_lookup_insert_eq; rewrite ?length_insert; lia|].
    split; [apply list_lookup_insert_eq; rewrite ?length_insert; lia|].
    repeat split;
      match goal with
      | |- (Qabs (?a - ?a) <= _)%Q =>
          assert (E : (a - a == 0)%Q) by ring; rewrite E; discriminate
      end.
Qed.

Lemma leg_targets_bounded_witness :
  let s := Gait.sample_controller in
  (1 < 4)%nat /\ (1 * 3 + 2 < length (Gait.ctrl s))%nat /\
  (0 <= 0.5)%Q /\ (0.5 <= 1)%Q /\ (0 <= Gait.speed s)%Q /\ (Gait.speed s <= 1)%Q /\
  (Qabs (Gait.direction s).1.1 <= 1)%Q /\ (Qabs (Gait.direction s).1.2 <= 1)%Q /\
  (Qabs ((fun _ => 1) (0.5 * 3)) <= 1)%Q /\
  exists hip,
    Gait.ctrl (Gait.calculateLegJointPositions (fun _ => 1%Q) 3 1 0.5 s) !! 3%nat
    = Some hip /\ (Qabs (hip - Gait.pose 3) <= 0.06)%Q.
Proof.
  cbv zeta. split; [lia|]. split; [vm_compute; lia|].
  do 7 (split; [discriminate|]).
  destruct (leg_targets_bounded (fun _ => 1%Q) 3 1 0.5 Gait.sample_controller)
    as (hip & thigh & calf & H1 & _ & _ & B1 & _);
    try discriminate; [lia | vm_compute; lia |].
  exists hip. split; [exact H1 | exact B1].
Defined.

Section GaitPhaseFacts.
Import Gait.
Local Open Scope Q_scope.

Lemma rem_range t b :
  0 < b -> 0 <= t -> 0 <= rem t b /\ rem t b < b.
Proof.
  intros Hb Ht. unfold rem.
  assert (H0 : 0 <= t / b) by (apply Qle_shift_div_l; lra).
  rewrite (Qtrunc_nonneg _ H0).
  pose proof (Qfloor_le (t / b)) as F1. pose proof (Qlt_floor (t / b)) as F2.
  rewrite inject_Z_plus in F2. change (inject_Z 1) with 1 in F2.
  set (n := inject_Z (Qfloor (t / b))) in *.
  assert (E : t == (t / b) * b) by (field; lra).
  split.
  - assert (n * b <= (t / b) * b) by nra. lra.
  - assert ((t / b) * b < (n + 1) * b) by nra. lra.
Qed.

Lemma gaitPhase_range t : 0 <= t -> 0 <= gaitPhase t /\ gaitPhase t < 1.
Proof.
  intros Ht. unfold gaitPhase, TROT_CYCLE_DURATION.
  destruct (rem_range t 0.6 ltac:(reflexivity) Ht) as [R0 R1].
  split.
  - apply Qle_shift_div_l; lra.
  - apply Qlt_shift_div_r; lra.
Qed.

Lemma legPhases_range ph :
  0 <= ph -> ph < 1 -> Forall (fun lp => 0 <= lp /\ lp < 1) (legPhases ph).
Proof.
  intros H0 H1. destruct (Qlt_le_dec ph 0.5) as [H | H].
  - rewrite (legPhases_first_half ph H).
    repeat constructor; lra.
  - rewrite (legPhases_second_half ph H).
    repeat constructor; lra.
Qed.

Lemma reset_lookup s i :
  (i < 12)%nat ->
  ctrl (reset s) !! i = Some (pose i) \/ ctrl (reset s) !! i = None.
Proof.
  intros Hi. unfold reset. cbn [ctrl set_ctrl]. rewrite reset_ctrl_closed.
  destruct (decide (i < length (ctrl s))%nat) as [Hlt | Hge].
  - left. rewrite lookup_app_l by (rewrite length_take; cbn; lia).
    rewrite lookup_take_lt by lia.
    unfold pose. clear -Hi.
    do 12 (destruct i as [|i]; [reflexivity|]). lia.
  - right. apply lookup_ge_None.
    rewrite length_app, length_take, length_drop. cbn. lia.
Qed.

Lemma relax_at_target dt t : relax dt t t = t.
Proof.
  apply relax_within. assert (E : t - t == 0) by ring. rewrite E. discriminate.
Qed.

End GaitPhaseFacts.

(** X5.  In the moving state, when the elapsed time after the step is
    not negative, the phase computed by [update(dt)] lies in [0, 1) and so
    does the phase of each of the four legs. *)
Theorem moving_phase_in_unit_interval (Math_sin : Q -> Q) (Math_PI : Q)
    (s : Gait.Controller) (dt : Q) :
  Gait.isMoving s = true ->
  (0 <= Gait.time s + dt)%Q ->
  let s' := Gait.update Math_sin Math_PI dt s in
  (0 <= Gait.phase s')%Q /\ (Gait.phase s' < 1)%Q /\
  length (Gait.legPhases (Gait.phase s')) = 4%nat /\
  Forall (fun lp => 0 <= lp /\ lp < 1)%Q (Gait.legPhases (Gait.phase s')).
Proof.
  intros Hm Ht s'.
  assert (Es : s' = Gait.applyTrottingGait Math_sin Math_PI
                 (Gait.mkController (Gait.ctrl s) (Gait.time s + dt)
                    (Gait.gaitPhase (Gait.time s + dt)) true
                    (Gait.direction s) (Gait.speed s))).
  { subst s'. unfold Gait.update.
    cbn [Gait.isMoving Gait.ctrl Gait.time Gait.direction Gait.speed].
    rewrite Hm. reflexivity. }
  destruct (applyTrottingGait_frame Math_sin Math_PI
              (Gait.mkController (Gait.ctrl s) (Gait.time s + dt)
                 (Gait.gaitPhase (Gait.time s + dt)) true
                 (Gait.direction s) (Gait.speed s))) as (_ & Hp & _).
  rewrite <- Es in Hp. cbn in Hp. rewrite Hp.
  destruct (gaitPhase_range _ Ht) as [R0 R1].
  split; [exact R0|]. split; [exact R1|].
  split; [|apply legPhases_range; assumption].
  unfold Gait.legPhases. destruct (ltb _ 0.5); reflexivity.
Qed.

Lemma moving_phase_in_unit_interval_witness :
  Gait.isMoving Gait.sample_controller = true /\
  (0 <= Gait.time Gait.sample_controller + 1)%Q /\
  (Gait.phase (Gait.update (fun _ => 1%Q) 3 1 Gait.sample_controller) < 1)%Q.
Proof.
  split; [reflexivity|]. split; [discriminate|].
  apply (moving_phase_in_unit_interval (fun _ => 1%Q) 3 Gait.sample_controller 1);
    [reflexivity | discriminate].
Defined.

(** X6.  After [reset()], an idle controller never writes to the command
    buffer again: any number of [update(dt)] calls, for any [dt], leaves
    the buffer exactly as [reset()] left it (every actuator is at its
    target, so each one is skipped), keeps the moving flag false and
    only accumulates the elapsed time. *)
Theorem reset_then_idle_is_stable (Math_sin : Q -> Q) (Math_PI : Q)
    (s : Gait.Controller) (dt : Q) (k : nat) :
  Gait.isMoving s = false ->
  let s' := Nat.iter k (Gait.update Math_sin Math_PI dt) (Gait.reset s) in
  Gait.ctrl s' = Gait.ctrl (Gait.reset s) /\
  Gait.isMoving s' = false /\
  (Gait.time s' == Gait.time s + inject_Z (Z.of_nat k) * dt)%Q.
Proof.
  intros Hm. cbv zeta. induction k as [|k (Hc & Hmv & Ht)].
  - cbn [Nat.iter nat_rect]. split; [reflexivity|]. split; [exact Hm|].
    cbn [Gait.reset Gait.set_ctrl Gait.time]. cbn. ring.
  - rewrite Nat.iter_succ.
    set (sk := Nat.iter k (Gait.update Math_sin Math_PI dt) (Gait.reset s)) in *.
    destruct (update_idle Math_sin Math_PI dt sk Hmv) as (Hm' & Ht' & Hl).
    split; [|split; [exact Hm'|]].
    + rewrite <- Hc. apply list_eq. intros i.
      unfold Gait.update. cbn [Gait.isMoving]. rewrite Hmv. cbn [negb].
      unfold Gait.returnToStandingPose. cbn [Gait.ctrl Gait.set_ctrl].
      rewrite relax_loop_lookup.
      destruct (i <? Gait.NUM_MOTORS)%nat eqn:E; [|reflexivity].
      apply Nat.ltb_lt in E. rewrite Hc.
      destruct (reset_lookup s i E) as [-> | ->]; [|reflexivity].
      cbn. now rewrite relax_at_target.
    + rewrite Ht', Ht, Nat2Z.inj_succ, <- Z.add_1_r, inject_Z_plus.
      change (inject_Z 1) with 1%Q. ring.
Qed.

Lemma reset_then_idle_is_stable_witness :
  Gait.isMoving Gait.idle_controller = false /\
  Gait.ctrl (Nat.iter 3 (Gait.update (fun _ => 1%Q) 3 100) (Gait.reset Gait.idle_controller))
  = Gait.ctrl (Gait.reset Gait.idle_controller).
Proof.
  split; [reflexivity|].
  apply (reset_then_idle_is_stable (fun _ => 1%Q) 3 Gait.idle_controller 100 3).
  reflexivity.
Defined.

(** ** Keyboard and frame loop *)

Section DemoFacts.
Import Demo.
Local Open Scope Q_scope.

Variable Math_sqrt : Q -> Q.
Variable Math_sin : Q -> Q.
Variable Math_PI : Q.

Lemma update_keeps_isMoving dt (c : Gait.Controller) :
  Gait.isMoving (Gait.update Math_sin Math_PI dt c) = Gait.isMoving c.
Proof.
  destruct (Gait.isMoving c) eqn:E.
  - unfold Gait.update.
    cbn [Gait.isMoving Gait.ctrl Gait.time Gait.direction Gait.speed].
    rewrite E. cbn [negb].
    now destruct (applyTrottingGait_frame Math_sin Math_PI
                    (Gait.mkController (Gait.ctrl c) (Gait.time c + dt)
                       (Gait.gaitPhase (Gait.time c + dt)) true
                       (Gait.direction c) (Gait.speed c))) as (_ & _ & ->).
  - now destruct (update_idle Math_sin Math_PI dt c E) as (-> & _).
Qed.

Lemma locomotionTick_isMoving p dt c :
  Gait.isMoving (locomotionTick Math_sqrt Math_sin Math_PI p dt c)
  = gtb (Qabs (locomotionDirX p)) 0.1 || gtb (Qabs (locomotionDirY p)) 0.1.
Proof.
  unfold locomotionTick. rewrite update_keeps_isMoving. reflexivity.
Qed.

End DemoFacts.

(** X7.  While a controller exists and locomotion is enabled, pressing an
    arrow key makes the next controller tick a gait tick (the moving flag
    is set) and releasing an arrow key makes it an idle tick (the flag is
    cleared), whatever the direction was before; releasing any other key
    leaves the parameters alone. *)
Theorem arrow_keys_start_and_stop_the_gait (Math_sqrt Math_sin : Q -> Q)
    (Math_PI : Q) (code : Demo.KeyCode) (p : Demo.Params) (dt : Q)
    (c : Gait.Controller) :
  Demo.enableLocomotion p = true ->
  let tick q := Demo.locomotionTick Math_sqrt Math_sin Math_PI q dt c in
  if Demo.isArrow code
  then Gait.isMoving (tick (Demo.handleKeyDown true code p)) = true /\
       Gait.isMoving (tick (Demo.handleKeyUp true code p)) = false /\
       Demo.locomotionDirX (Demo.handleKeyUp true code p) = 0.0%Q /\
       Demo.locomotionDirY (Demo.handleKeyUp true code p) = 0.0%Q
  else Demo.handleKeyUp true code p = p /\
       Demo.locomotionDirX (Demo.handleKeyDown true code p) = Demo.locomotionDirX p /\
       Demo.locomotionDirY (Demo.handleKeyDown true code p) = Demo.locomotionDirY p.
Proof.
  intros He. cbv zeta.
  destruct code; cbn [Demo.isArrow];
    rewrite ?locomotionTick_isMoving;
    unfold Demo.handleKeyDown, Demo.handleKeyUp; rewrite He;
    cbn [negb orb Demo.isArrow Demo.locomotionDirX Demo.locomotionDirY];
    repeat split; reflexivity.
Qed.

Lemma arrow_keys_start_and_stop_the_gait_witness :
  Demo.enableLocomotion Demo.sample_params = true /\
  Gait.isMoving
    (Demo.locomotionTick (fun _ => 1%Q) (fun _ => 1%Q) 3
       (Demo.handleKeyUp true Demo.ArrowLeft Demo.sample_params) 0.002
       Gait.sample_controller) = false.
Proof.
  split; [reflexivity|].
  apply (arrow_keys_start_and_stop_the_gait (fun _ => 1%Q) (fun _ => 1%Q) 3
           Demo.ArrowLeft Demo.sample_params 0.002 Gait.sample_controller).
  reflexivity.
Defined.

(** X8.  Key events keep the speed parameter in [0, 1] when it was there:
    Q lowers it by 0.1 but not below 0, E raises it by 0.1 but not above
    1, no other key changes it.  No key event changes the enable flag,
    and without a controller, or with locomotion disabled, a key event
    changes nothing at all. *)
Theorem key_events_keep_speed_in_range (has : bool) (code : Demo.KeyCode)
    (p : Demo.Params) :
  (0 <= Demo.locomotionSpeed p)%Q -> (Demo.locomotionSpeed p <= 1)%Q ->
  let d := Demo.handleKeyDown has code p in
  let u := Demo.handleKeyUp has code p in
  (0 <= Demo.locomotionSpeed d)%Q /\ (Demo.locomotionSpeed d <= 1)%Q /\
  Demo.locomotionSpeed u = Demo.locomotionSpeed p /\
  Demo.enableLocomotion d = Demo.enableLocomotion p /\
  Demo.enableLocomotion u = Demo.enableLocomotion p /\
  (has && Demo.enableLocomotion p = false -> d = p /\ u = p).
Proof.
  intros H0 H1. cbv zeta. unfold Demo.handleKeyDown, Demo.handleKeyUp.
  destruct has, (Demo.enableLocomotion p) eqn:E; cbn [negb orb andb];
    try (repeat split; try assumption; reflexivity).
  destruct code; cbn [Demo.isArrow Demo.locomotionSpeed Demo.enableLocomotion];
    repeat split; try assumption; try reflexivity; try discriminate.
  - apply Q.le_max_l.
  - apply Q.max_lub; [discriminate | lra].
  - apply Q.min_glb; [discriminate | lra].
  - apply Q.le_min_l.
Qed.

Lemma key_events_keep_speed_in_range_witness :
  (0 <= Demo.locomotionSpeed Demo.sample_params)%Q /\
  (Demo.locomotionSpeed Demo.sample_params <= 1)%Q /\
  (Demo.locomotionSpeed (Demo.handleKeyDown true Demo.KeyE Demo.sample_params) <= 1)%Q.
Proof.
  split; [discriminate|]. split; [discriminate|].
  apply (key_events_keep_speed_in_range true Demo.KeyE Demo.sample_params);
    discriminate.
Defined.

Section FrameLoopFacts.
Import Demo.
Local Open Scope Q_scope.

Variable World : Type.
Variable body : World -> World.



Lemma stepLoop_diverges ts timeMS fuel : forall mt w,
  ts <= 0 -> mt < timeMS ->
  stepLoop World body fuel ts timeMS mt w = None.
Proof.
  induction fuel as [|fuel IH]; intros mt w Hts Hlt; cbn [stepLoop];
    pose proof Hlt as Hb; apply ltb_true in Hb; rewrite Hb; [reflexivity|].
  apply IH; [exact Hts | lra].
Qed.

End FrameLoopFacts.



(** X10.  With a time step that is zero or negative and a clock that is
    behind by at most 35 ms, the stepping loop of a frame never ends: no
    number of passes is enough. *)
Theorem frame_loop_never_ends (World : Type) (body : World -> World)
    (timestep timeMS mujoco_time : Q) (w : World) (fuel : nat) :
  (timestep <= 0)%Q ->
  (mujoco_time < timeMS)%Q -> (timeMS - mujoco_time <= 35)%Q ->
  Demo.stepFrame World body fuel timestep timeMS mujoco_time w = None.
Proof.
  intros Hts Hlt Hgap. unfold Demo.stepFrame.
  assert (E : gtb (timeMS - mujoco_time) 35.0 = false) by (apply gtb_false; lra).
  rewrite E. apply stepLoop_diverges; assumption.
Qed.

Lemma frame_loop_never_ends_witness :
  (0 <= 0)%Q /\ (0 < 16)%Q /\ (16 - 0 <= 35)%Q /\
  Demo.stepFrame nat S 1000 0 16 0 5%nat = None.
Proof.
  split; [discriminate|]. split; [reflexivity|]. split; [discriminate|].
  apply frame_loop_never_ends; [discriminate | reflexivity | discriminate].
Defined.

Section SyncFacts.
Import Demo.

Lemma inRange_step (z : Z) (n : nat) :
  z <> Z.of_nat n -> (z <? Z.of_nat (S n)) = (z <? Z.of_nat n).
Proof.
  intros Hne. destruct (Z.ltb_spec z (Z.of_nat n)).
  - apply Z.ltb_lt. lia.
  - apply Z.ltb_ge. lia.
Qed.

(** X11.  The body-transform pass of a frame changes poses only: a body
    id has a node after the pass exactly when it had one before; the node
    of a body id in 0 .. nbody-1 holds the swizzled position and
    orientation read from the engine arrays at that id; every other node
    keeps its pose. *)
Theorem sync_updates_existing_nodes_only (nbody : nat)
    (xpos xquat : list float) (bodies : gmap Build.key NodePose)
    (k : Build.key) :
  syncBodies nbody xpos xquat bodies !! k
  = match bodies !! k, k with
    | Some old, Some z =>
        if (0 <=? z) && (z <? Z.of_nat nbody)
        then Some (mkNodePose (Coord.getPosition xpos z true)
                              (Coord.getQuaternion xquat z true))
        else Some old
    | Some old, None => Some old
    | None, _ => None
    end.
Proof.
  unfold syncBodies, Build.key in *. revert k.
  induction nbody as [|n IH]; intros k.
  - unfold for_range. cbn [seq fold_left].
    destruct (bodies !! k) as [old|]; [|reflexivity].
    destruct k as [z|]; [|reflexivity].
    assert (E : (0 <=? z) && (z <? Z.of_nat 0) = false).
    { apply andb_false_iff. destruct (Z.leb_spec 0 z); [right | now left].
      apply Z.ltb_ge. lia. }
    now rewrite E.
  - rewrite for_range_S. set (acc := for_range n _ bodies) in *.
    assert (Hn : acc !! Some (Z.of_nat n)
                 = match bodies !! Some (Z.of_nat n) with
                   | Some old => Some old
                   | None => None
                   end).
    { rewrite IH. destruct (bodies !! Some (Z.of_nat n)); [|reflexivity].
      now rewrite Z.ltb_irrefl, andb_false_r. }
    destruct (decide (k = Some (Z.of_nat n))) as [-> | Ne].
    + rewrite Hn. destruct (bodies !! Some (Z.of_nat n)) as [old|] eqn:Eb.
      * rewrite lookup_insert_eq.
        assert (E : (0 <=? Z.of_nat n) && (Z.of_nat n <? Z.of_nat (S n)) = true).
        { apply andb_true_iff. split; [apply Z.leb_le | apply Z.ltb_lt]; lia. }
        now rewrite E.
      * rewrite IH, Eb. reflexivity.
    + assert (Hk : acc !! k
                   = match bodies !! k, k with
                     | Some old, Some z =>
                         if (0 <=? z) && (z <? Z.of_nat (S n))
                         then Some (mkNodePose (Coord.getPosition xpos z true)
                                               (Coord.getQuaternion xquat z true))
                         else Some old
                     | Some old, None => Some old
                     | None, _ => None
                     end).
      { rewrite IH. destruct (bodies !! k) as [old|]; [|reflexivity].
        destruct k as [z|]; [|reflexivity].
        rewrite (inRange_step z n) by congruence. reflexivity. }
      destruct (acc !! Some (Z.of_nat n));
        [rewrite lookup_insert_ne by congruence|]; exact Hk.
Qed.

End SyncFacts.

(** ** What a tendon frame draws *)

Section TendonFrameFacts.
Import Coord Tendon TendonFrame.

Lemma stored_nil (st : Pools * nat) : stored st [] st.
Proof.
  unfold stored. split; [cbn; lia|]. split; [reflexivity|].
  intros i. unfold written. destruct (snd st <=? i)%nat; [|reflexivity].
  now rewrite lookup_nil.
Qed.

Lemma stored_app (st st1 st2 : Pools * nat) (cs1 cs2 : list CylinderInstance) :
  stored st cs1 st1 -> stored st1 cs2 st2 -> stored st (cs1 ++ cs2) st2.
Proof.
  unfold stored. intros (N1 & L1 & H1) (N2 & L2 & H2).
  split; [rewrite N2, N1, length_app; lia|].
  split; [congruence|].
  intros i. rewrite H2. unfold written. rewrite L1, N1, H1. unfold written.
  destruct (snd st <=? i)%nat eqn:E0.
  - apply Nat.leb_le in E0.
    destruct (snd st + length cs1 <=? i)%nat eqn:E1.
    + apply Nat.leb_le in E1.
      rewrite lookup_app_r by lia.
      replace (i - snd st - length cs1)%nat with (i - (snd st + length cs1))%nat by lia.
      destruct (cs2 !! _); [reflexivity|].
      rewrite (lookup_ge_None_2 cs1) by lia. reflexivity.
    + apply Nat.leb_gt in E1. rewrite lookup_app_l by lia. reflexivity.
  - apply Nat.leb_gt in E0.
    assert (E1 : (snd st + length cs1 <=? i)%nat = false) by (apply Nat.leb_gt; lia).
    now rewrite E1.
Qed.

Lemma stored_pairStep r xpos w (st : Pools * nat) :
  stored st (if bothValid xpos w then [cylinderOf r xpos w] else [])
         (pairStep r xpos w st).
Proof.
  destruct st as [root n]. unfold pairStep, bothValid, cylinderOf.
  destruct (validStart xpos w && validEnd xpos w) eqn:E.
  - unfold stored. cbn [fst snd cylinders setMatrixAt instanceMatrix length].
    split; [lia|]. split; [apply length_insert|].
    intros i. unfold written.
    destruct (n <=? i)%nat eqn:E0.
    + apply Nat.leb_le in E0. destruct (decide (i = n)) as [-> | Hne].
      * rewrite Nat.sub_diag. cbn [lookup list_lookup].
        destruct (n <? length (instanceMatrix (cylinders root)))%nat eqn:E1.
        -- apply Nat.ltb_lt in E1. now apply list_lookup_insert_eq.
        -- apply Nat.ltb_ge in E1. apply lookup_ge_None. rewrite length_insert. lia.
      * rewrite list_lookup_insert_ne by congruence.
        destruct (i - n)%nat as [|d] eqn:Ed; [lia|]. reflexivity.
    + apply Nat.leb_gt in E0. apply list_lookup_insert_ne. lia.
  - unfold stored. cbn [fst snd cylinders length].
    split; [lia|]. split; [reflexivity|].
    intros i. unfold written.
    destruct (n <=? i)%nat; [now rewrite lookup_nil | reflexivity].
Qed.

Lemma stored_pairs r xpos ws : forall st : Pools * nat,
  stored st (map (cylinderOf r xpos) (List.filter (bothValid xpos) ws))
         (fold_left (fun acc w => pairStep r xpos w acc) ws st).
Proof.
  induction ws as [|w ws IH]; intros st; cbn [fold_left List.filter map].
  - apply stored_nil.
  - pose proof (stored_pairStep r xpos w st) as H1.
    pose proof (IH (pairStep r xpos w st)) as H2.
    destruct (bothValid xpos w); cbn [map].
    + apply (stored_app st _ _ [cylinderOf r xpos w] _ H1 H2).
    + apply (stored_app st _ _ [] _ H1 H2).
Qed.

Lemma stored_tendons model sim ts : forall st : Pools * nat,
  stored st (flat_map (tendonCylinders model sim) ts)
         (fold_left (fun acc t => tendonStep model sim t acc) ts st).
Proof.
  induction ts as [|t ts IH]; intros st; cbn [fold_left flat_map].
  - apply stored_nil.
  - apply (stored_app st (tendonStep model sim t st)).
    + apply stored_pairs.
    + apply IH.
Qed.

End TendonFrameFacts.

(** X12.  After a tendon-sync frame the cylinder pool holds, from slot 0
    on and in wrap order, the cylinders of exactly those pairs of
    consecutive wrap points whose two endpoints are live, as many as its
    count says; a slot past the last of them keeps what it held before
    the frame, and cylinders that would go past the capacity are lost. *)
Theorem cylinder_slots_hold_the_live_segments (model : Tendon.TendonModel)
    (sim : Tendon.TendonState) (root : Tendon.Pools) (i : nat) :
  let root' := Tendon.updateTendons model sim root in
  let segments := TendonFrame.frameCylinders model sim in
  Tendon.count (Tendon.cylinders root') = length segments /\
  Tendon.instanceMatrix (Tendon.cylinders root') !! i
  = match segments !! i with
    | Some c =>
        if (i <? length (Tendon.instanceMatrix (Tendon.cylinders root)))%nat
        then Some (Some c) else None
    | None => Tendon.instanceMatrix (Tendon.cylinders root) !! i
    end.
Proof.
  cbv zeta. unfold Tendon.updateTendons, for_range, TendonFrame.frameCylinders.
  destruct (stored_tendons model sim (seq 0 (Tendon.ntendon model)) (root, 0%nat))
    as (Hn & _ & Hw).
  destruct (fold_left _ _ _) as [root' n]. cbn [fst snd] in *.
  cbn [Tendon.cylinders Tendon.set_count Tendon.count Tendon.instanceMatrix].
  split; [exact Hn|]. rewrite Hw. unfold TendonFrame.written.
  cbn [Nat.leb]. now rewrite Nat.sub_0_r.
Qed.

(** ** Names *)

Section NameFacts.
Import Build GUI.

Lemma untilNull_le bytes : (untilNull bytes <= length bytes)%nat.
Proof.
  induction bytes as [|c rest IH]; cbn [untilNull length]; [lia|].
  destruct (c =? 0); lia.
Qed.

Lemma splitNull_hd bytes :
  hd [] (splitNull bytes) = take (untilNull bytes) bytes.
Proof.
  induction bytes as [|c rest IH]; [reflexivity|].
  cbn [splitNull untilNull]. destruct (c =? 0); [reflexivity|].
  cbn [take]. destruct (splitNull rest) as [|piece pieces].
  - cbn [hd] in *. now rewrite <- IH.
  - cbn [hd] in *. now rewrite IH.
Qed.

Lemma untilNull_nonzero bytes :
  Forall (fun c => c <> 0) (take (untilNull bytes) bytes).
Proof.
  induction bytes as [|c rest IH]; cbn [untilNull]; [constructor|].
  destruct (Z.eqb_spec c 0); [constructor|].
  cbn [take]. constructor; assumption.
Qed.

Lemma untilNull_stops bytes :
  bytes !! untilNull bytes = None \/ bytes !! untilNull bytes = Some 0.
Proof.
  induction bytes as [|c rest IH]; cbn [untilNull]; [now left|].
  destruct (Z.eqb_spec c 0) as [-> | Hne]; [now right|]. exact IH.
Qed.

Lemma view_contents_range {A} (l : list A) (b e : Z) :
  0 <= b -> b <= e -> e <= Z.of_nat (length l) ->
  view_contents l (subarray (length l) b e)
  = take (Z.to_nat (e - b)) (drop (Z.to_nat b) l).
Proof.
  intros Hb Hbe He. unfold view_contents, subarray. cbn [v_off v_len].
  assert (E1 : (b <? 0) = false) by (apply Z.ltb_ge; lia).
  assert (E2 : (e <? 0) = false) by (apply Z.ltb_ge; lia).
  rewrite ?E1, ?E2.
  rewrite ?(Z.min_l b), ?(Z.min_l e), ?Z.max_l by lia. reflexivity.
Qed.

Lemma view_contents_past_end {A} (l : list A) (b e : Z) :
  Z.of_nat (length l) <= b -> 0 <= e ->
  view_contents l (subarray (length l) b e) = [].
Proof.
  intros Hb He. unfold view_contents, subarray. cbn [v_off v_len].
  assert (E1 : (b <? 0) = false) by (apply Z.ltb_ge; lia).
  assert (E2 : (e <? 0) = false) by (apply Z.ltb_ge; lia).
  rewrite ?E1, ?E2. rewrite ?(Z.min_r b) by lia.
  rewrite ?Z.max_r by lia.
  replace (Z.to_nat (Z.of_nat (length l) - Z.of_nat (length l))) with 0%nat by lia.
  reflexivity.
Qed.

End NameFacts.

(** X13.  The two ways the code decodes a name from the name blob agree.
    For an offset that is not negative, the scan used for body names
    (walk to the next null byte, then take the bytes in between) and the
    split used for actuator names (take the rest of the blob, split at
    null bytes, keep the first piece) give the same bytes: the longest run
    from the offset that holds no null byte.  An offset at or past the end
    gives the empty name. *)
Theorem name_decoders_agree (names_array : list Z) (s : Z) :
  0 <= s ->
  let name := Build.bodyName names_array (Some s) in
  let rest := drop (Z.to_nat s) names_array in
  name = GUI.actuatorName names_array (Some s) /\
  name = take (Build.untilNull rest) rest /\
  Forall (fun c => c <> 0) name /\
  (names_array !! (Z.to_nat s + length name)%nat = None \/
   names_array !! (Z.to_nat s + length name)%nat = Some 0).
Proof.
  intros Hs. cbv zeta.
  set (rest := drop (Z.to_nat s) names_array).
  assert (Hname : Build.bodyName names_array (Some s)
                  = take (Build.untilNull rest) rest).
  { unfold Build.bodyName, Build.scanEnd.
    destruct (Z.leb_spec (Z.of_nat (length names_array)) s) as [Hge | Hlt].
    - rewrite view_contents_past_end by lia.
      subst rest. rewrite drop_ge by lia. reflexivity.
    - rewrite Z.max_l by lia. fold rest.
      pose proof (untilNull_le rest) as Hu.
      assert (Hr : length rest = (length names_array - Z.to_nat s)%nat)
        by (subst rest; apply length_drop).
      rewrite view_contents_range by lia.
      replace (Z.to_nat (s + Z.of_nat (Build.untilNull rest) - s))
        with (Build.untilNull rest) by lia.
      reflexivity. }
  split; [|split; [exact Hname|split]].
  - rewrite Hname. unfold GUI.actuatorName.
    destruct (Z.leb_spec (Z.of_nat (length names_array)) s) as [Hge | Hlt].
    + rewrite view_contents_past_end by lia.
      subst rest. rewrite drop_ge by lia. reflexivity.
    + rewrite view_contents_range by lia. fold rest.
      rewrite (take_ge rest (Z.to_nat (Z.of_nat (length names_array) - s)));
        [symmetry; apply splitNull_hd|].
      subst rest. rewrite length_drop. lia.
  - rewrite Hname. apply untilNull_nonzero.
  - rewrite Hname. pose proof (untilNull_le rest) as Hu.
    rewrite length_take, Nat.min_l by exact Hu.
    pose proof (untilNull_stops rest) as Hstop.
    subst rest. rewrite lookup_drop in Hstop. exact Hstop.
Qed.

Lemma name_decoders_agree_witness :
  0 <= 6 /\
  Build.bodyName [119; 111; 114; 108; 100; 0; 97; 98; 0; 99] (Some 6) = [97; 98] /\
  GUI.actuatorName [119; 111; 114; 108; 100; 0; 97; 98; 0; 99] (Some 6) = [97; 98].
Proof.
  split; [lia|].
  destruct (name_decoders_agree [119; 111; 114; 108; 100; 0; 97; 98; 0; 99] 6
              ltac:(lia)) as (H1 & H2 & _).
  split; [exact H2|]. rewrite <- H1. exact H2.
Defined.

(** ** Keyframes *)

(** X14.  Choosing keyframe [value] on the slider copies exactly that
    keyframe into the start of [qpos]: for a keyframe table of nkey rows
    of nq numbers and a [qpos] of at least nq entries, the first nq
    entries become row [value] of the table and the rest of [qpos] is
    kept; a [value] that is not below nkey changes nothing. *)
Theorem keyframe_load_copies_one_row (nkey nq : Z) (key_qpos qpos : list float)
    (value : Z) :
  0 <= value -> 0 <= nq ->
  Z.of_nat (length key_qpos) = nkey * nq ->
  nq <= Z.of_nat (length qpos) ->
  GUI.loadKeyframe nkey nq key_qpos qpos value
  = Some (if value <? nkey
          then take (Z.to_nat nq) (drop (Z.to_nat (value * nq)) key_qpos)
               ++ drop (Z.to_nat nq) qpos
          else qpos).
Proof.
  intros Hv Hnq Hlen Hq. unfold GUI.loadKeyframe.
  destruct (Z.ltb_spec value nkey) as [Hlt | Hge]; [|reflexivity].
  unfold GUI.slice.
  rewrite view_contents_range by nia.
  replace (Z.to_nat ((value + 1) * nq - value * nq)) with (Z.to_nat nq) by nia.
  set (row := take (Z.to_nat nq) (drop (Z.to_nat (value * nq)) key_qpos)).
  assert (Hrow : length row = Z.to_nat nq).
  { subst row. rewrite length_take, length_drop. nia. }
  unfold GUI.typedSet. rewrite Hrow.
  assert (E : (length qpos <? Z.to_nat nq)%nat = false) by (apply Nat.ltb_ge; lia).
  now rewrite E.
Qed.

Lemma keyframe_load_copies_one_row_witness :
  0 <= 1 /\ 0 <= 3 /\ Z.of_nat (length GUI.twoKeyframes) = 2 * 3 /\
  3 <= Z.of_nat (length [Fin 0; Fin 0; Fin 0; Fin 9]) /\
  GUI.loadKeyframe 2 3 GUI.twoKeyframes [Fin 0; Fin 0; Fin 0; Fin 9] 1
  = Some [Fin 4; Fin 5; Fin 6; Fin 9].
Proof.
  split; [lia|]. split; [lia|]. split; [reflexivity|]. split; [cbn; lia|].
  rewrite (keyframe_load_copies_one_row 2 3 GUI.twoKeyframes
             [Fin 0; Fin 0; Fin 0; Fin 9] 1);
    [reflexivity | lia | lia | reflexivity | cbn; lia].
Defined.

(** ** Reloading the scene *)

Section ReloadFacts.
Import Build GUI.

Lemma removeRoot_others scene :
  List.filter (fun n => negb (isRoot n)) (removeRoot scene)
  = List.filter (fun n => negb (isRoot n)) scene.
Proof.
  induction scene as [|[label | r] rest IH]; cbn; [reflexivity | | reflexivity].
  now rewrite IH.
Qed.

Lemma removeRoot_roots scene :
  length (List.filter isRoot (removeRoot scene))
  = Nat.pred (length (List.filter isRoot scene)).
Proof.
  induction scene as [|[label | r] rest IH]; cbn; [reflexivity | exact IH | reflexivity].
Qed.

Lemma loadScene_scene model parent :
  if namesInvalid model
  then loadSceneFromURL model parent = (parent, None)
  else exists root, scene (loadSceneFromURL model parent).1
                    = scene parent ++ [MujocoRoot root].
Proof.
  unfold loadSceneFromURL, tryBuild.
  destruct (namesInvalid model); [reflexivity|].
  destruct (geomLoop model _ _) as [st | e st]; [|eexists; reflexivity].
  destruct (for_range (nlight model) _ _) as [[bodies1 root1] lights].
  destruct (for_range (nbody model) _ _) as [bodies2 root2].
  eexists; reflexivity.
Qed.

End ReloadFacts.

(** X15.  A reload swaps the scene root and touches nothing else.  With at
    most one root in the scene before, the other objects of the scene are
    the same, in the same order, afterwards; the scene then holds exactly
    one root when the name blob of the new model is valid (also when the
    build fails later) and none when it is not.  In that last case nothing
    is returned, so the destructuring in [reloadFunc] fails, and
    [mujocoRoot] still refers to the root that was taken out. *)
Theorem reload_replaces_the_root (model : Build.Model) (parent : Build.Parent) :
  (length (List.filter GUI.isRoot (Build.scene parent)) <= 1)%nat ->
  let after := GUI.reloadFunc model parent in
  List.filter (fun n => negb (GUI.isRoot n)) (Build.scene after.1)
  = List.filter (fun n => negb (GUI.isRoot n)) (Build.scene parent) /\
  length (List.filter GUI.isRoot (Build.scene after.1))
  = (if Build.namesInvalid model then 0 else 1)%nat /\
  (Build.namesInvalid model = true ->
   after.2 = None /\ Build.mujocoRoot after.1 = Build.mujocoRoot parent).
Proof.
  intros Hone. cbv zeta. unfold GUI.reloadFunc.
  set (cleared := Build.mkParent (GUI.removeRoot (Build.scene parent))
                                 (Build.mujocoRoot parent)).
  pose proof (loadScene_scene model cleared) as Hload.
  pose proof (removeRoot_roots (Build.scene parent)) as Hroots.
  pose proof (removeRoot_others (Build.scene parent)) as Hothers.
  destruct (Build.namesInvalid model).
  - rewrite Hload. cbn [fst snd cleared Build.scene Build.mujocoRoot].
    split; [exact Hothers|]. split; [lia|]. intros _. split; reflexivity.
  - destruct Hload as [root Hscene]. rewrite Hscene.
    cbn [cleared Build.scene]. rewrite !List.filter_app, !length_app.
    cbn [List.filter GUI.isRoot negb length]. rewrite app_nil_r.
    split; [exact Hothers|]. split; [lia|]. discriminate.
Qed.

Lemma reload_replaces_the_root_witness :
  let parent := Build.mkParent
                  [Build.Other 0; Build.MujocoRoot Build.emptyRoot; Build.Other 1]
                  (Some Build.emptyRoot) in
  (length (List.filter GUI.isRoot (Build.scene parent)) <= 1)%nat /\
  List.filter (fun n => negb (GUI.isRoot n))
              (Build.scene (GUI.reloadFunc Build.emptyModel parent).1)
  = [Build.Other 0; Build.Other 1] /\
  length (List.filter GUI.isRoot
            (Build.scene (GUI.reloadFunc Build.emptyModel parent).1)) = 1%nat.
Proof.
  cbv zeta.
  assert (Hone : (length (List.filter GUI.isRoot
                    [Build.Other 0; Build.MujocoRoot Build.emptyRoot;
                     Build.Other 1]) <= 1)%nat) by (cbn; lia).
  split; [exact Hone|].
  destruct (reload_replaces_the_root Build.emptyModel
              (Build.mkParent
                 [Build.Other 0; Build.MujocoRoot Build.emptyRoot; Build.Other 1]
                 (Some Build.emptyRoot)) Hone) as (H1 & H2 & _).
  split; [exact H1 | exact H2].
Defined.

(** ** Dragging a body *)

Section DragFacts.

Lemma lookupZ_store (q : list float) (i j : Z) (v : jsval) :
  lookupZ (store q i v) j
  = if (j =? i) && (0 <=? i) && (i <? Z.of_nat (length q))
    then Some (toNumber v) else lookupZ q j.
Proof.
  unfold lookupZ, store.
  destruct (Z.ltb_spec i 0) as [Hi | Hi].
  - replace (0 <=? i) with false by (symmetry; apply Z.leb_gt; lia).
    now rewrite andb_false_r.
  - replace (0 <=? i) with true by (symmetry; apply Z.leb_le; lia).
    rewrite andb_true_r.
    destruct (Z.eqb_spec j i) as [-> | Hne]; cbn [andb].
    + replace (i <? 0) with false by (symmetry; apply Z.ltb_ge; lia).
      destruct (Z.ltb_spec i (Z.of_nat (length q))) as [Hlt | Hge].
      * apply list_lookup_insert_eq. lia.
      * rewrite list_insert_ge by lia. reflexivity.
    + destruct (j <? 0) eqn:Ej; [reflexivity|].
      apply Z.ltb_ge in Ej. apply list_lookup_insert_ne. lia.
Qed.

Lemma store_length (q : list float) (i : Z) (v : jsval) :
  length (store q i v) = length q.
Proof.
  unfold store. destruct (i <? 0); [reflexivity | apply length_insert].
Qed.

Lemma stores3_lookup (q : list float) (a : Z) (v0 v1 v2 : jsval) (i : Z) :
  0 <= a -> a + 2 < Z.of_nat (length q) ->
  lookupZ (store (store (store q (a + 0) v0) (a + 1) v1) (a + 2) v2) i
  = if i =? a then Some (toNumber v0)
    else if i =? a + 1 then Some (toNumber v1)
    else if i =? a + 2 then Some (toNumber v2)
    else lookupZ q i.
Proof.
  intros Ha Hlen. rewrite !lookupZ_store, !store_length.
  replace (a + 0) with a by lia.
  replace (0 <=? a) with true by (symmetry; apply Z.leb_le; lia).
  replace (0 <=? a + 1) with true by (symmetry; apply Z.leb_le; lia).
  replace (0 <=? a + 2) with true by (symmetry; apply Z.leb_le; lia).
  replace (a <? Z.of_nat (length q)) with true by (symmetry; apply Z.ltb_lt; lia).
  replace (a + 1 <? Z.of_nat (length q)) with true
    by (symmetry; apply Z.ltb_lt; lia).
  replace (a + 2 <? Z.of_nat (length q)) with true
    by (symmetry; apply Z.ltb_lt; lia).
  rewrite !andb_true_r.
  destruct (Z.eqb_spec i (a + 2)) as [-> | N2].
  - replace (a + 2 =? a) with false by (symmetry; apply Z.eqb_neq; lia).
    replace (a + 2 =? a + 1) with false by (symmetry; apply Z.eqb_neq; lia).
    reflexivity.
  - destruct (Z.eqb_spec i (a + 1)) as [-> | N1]; [|reflexivity].
    replace (a + 1 =? a) with false by (symmetry; apply Z.eqb_neq; lia).
    reflexivity.
Qed.

End DragFacts.

(** X16.  Dragging a body writes its position into the three [qpos]
    entries of its joint and nothing else.  With the model tables and
    [qpos] present: when the body has no joint entry (the joint address
    read for it, or the [qpos] address read for that, is undefined, as
    for the address -1) nothing is written and the engine is not
    stepped; otherwise, for an address a with a .. a+2 inside [qpos], the
    entries a, a+1, a+2 become x, -z, y of the new position, every other
    entry and the length are kept, and the engine's forward pass is run. *)
Theorem drag_writes_three_entries (sim : Drag.Simulation) (b : Z)
    (newPos : Coord.Vector3) (jntadr qposadr : list Z) (q : list float) :
  Drag.has_model sim = true ->
  Drag.body_jntadr sim = Some jntadr ->
  Drag.jnt_qposadr sim = Some qposadr ->
  Drag.qpos sim = Some q ->
  match Build.geti qposadr (lookupZ jntadr b) with
  | None =>
      Drag.setPositionAndUpdateParent (Some sim) (Some b) newPos
      = (Some sim, false)
  | Some a =>
      0 <= a -> a + 2 < Z.of_nat (length q) ->
      exists q',
        Drag.setPositionAndUpdateParent (Some sim) (Some b) newPos
        = (Some (Drag.mkSimulation true (Some jntadr) (Some qposadr) (Some q')),
           true) /\
        length q' = length q /\
        forall i,
          lookupZ q' i
          = if i =? a then Some (toNumber (Coord.vx newPos))
            else if i =? a + 1 then Some (fneg (toNumber (Coord.vz newPos)))
            else if i =? a + 2 then Some (toNumber (Coord.vy newPos))
            else lookupZ q i
  end.
Proof.
  intros Hm Hj Hq Hp. unfold Drag.setPositionAndUpdateParent.
  rewrite Hm, Hj, Hq, Hp.
  destruct (Build.geti qposadr (lookupZ jntadr b)) as [a|]; [|reflexivity].
  intros Ha Hlen. eexists. split; [reflexivity|]. split.
  - now rewrite !store_length.
  - intros i. rewrite stores3_lookup by assumption. reflexivity.
Qed.

Lemma drag_writes_three_entries_witness :
  Drag.has_model Drag.sample_simulation = true /\
  exists q',
    Drag.setPositionAndUpdateParent (Some Drag.sample_simulation) (Some 1)
      (Coord.vec3 (num 1) (num 2) (num 3))
    = (Some (Drag.mkSimulation true (Some [-1; 0]) (Some [2]) (Some q')), true) /\
    lookupZ q' 3 = Some (Fin (- 3)) /\
    Drag.setPositionAndUpdateParent (Some Drag.sample_simulation) (Some 0)
      (Coord.vec3 (num 1) (num 2) (num 3))
    = (Some Drag.sample_simulation, false).
Proof.
  split; [reflexivity|].
  pose proof (drag_writes_three_entries Drag.sample_simulation 1
                (Coord.vec3 (num 1) (num 2) (num 3)) [-1; 0] [2]
                [Fin 0; Fin 0; Fin 0; Fin 0; Fin 0; Fin 0; Fin 0]
                eq_refl eq_refl eq_refl eq_refl) as Hdrag.
  pose proof (drag_writes_three_entries Drag.sample_simulation 0
                (Coord.vec3 (num 1) (num 2) (num 3)) [-1; 0] [2]
                [Fin 0; Fin 0; Fin 0; Fin 0; Fin 0; Fin 0; Fin 0]
                eq_refl eq_refl eq_refl eq_refl) as Hnone.
  cbn in Hdrag, Hnone.
  destruct (Hdrag ltac:(lia) ltac:(lia)) as (q' & Heq & _ & Hget).
  exists q'. split; [exact Heq|]. split; [exact (Hget 3) | exact Hnone].
Defined.

(** ** The walk over the geometries *)

Section GeomLoopFacts.
Import Build SceneSpec.

Variable model : Model.
Variable names_array : list Z.

Lemma geomLoop_prefix st :
  geomLoop model names_array st = geomPrefix model names_array (ngeom model) st.
Proof. reflexivity. Qed.

Lemma geomPrefix_S n st0 st' :
  geomPrefix model names_array (S n) st0 = Ok st' ->
  exists st, geomPrefix model names_array n st0 = Ok st /\
             geomStep model names_array n st = Ok st'.
Proof.
  unfold geomPrefix. rewrite for_range_S.
  destruct (for_range n _ _) as [st | e st]; [|discriminate].
  intros H. now exists st.
Qed.

Lemma geomPrefix_ind (P : nat -> State -> Prop) st0 :
  P 0%nat st0 ->
  (forall n st st', P n st -> geomStep model names_array n st = Ok st' ->
                    P (S n) st') ->
  forall n st, geomPrefix model names_array n st0 = Ok st -> P n st.
Proof.
  intros H0 Hstep. induction n as [|n IH]; intros st Hrun.
  - unfold geomPrefix, for_range in Hrun. cbn in Hrun.
    inversion Hrun; subst st. exact H0.
  - apply geomPrefix_S in Hrun as (st1 & Hrun & Hs). eauto.
Qed.

Lemma geomStep_hidden g st :
  visible model g = false -> geomStep model names_array g st = Ok st.
Proof. intros H. unfold geomStep. now rewrite H. Qed.

Lemma filter_seq_S (f : nat -> bool) n :
  List.filter f (seq 0 (S n))
  = List.filter f (seq 0 n) ++ (if f n then [n] else []).
Proof. rewrite seq_S, List.filter_app. reflexivity. Qed.

Lemma materialDiffers_fresh m c t :
  (forall x, Build.map m = Some x -> (tex_uid x < tex_uid t)%nat) ->
  materialDiffers m c (Some t) = true.
Proof.
  intros Hfresh. unfold materialDiffers.
  destruct c as [[[c0 c1] c2] c3]. destruct (color m) as [[r g] b].
  assert (E : map_neq (Build.map m) (Some t) = true).
  { unfold map_neq. destruct (Build.map m) as [x|]; [|reflexivity].
    specialize (Hfresh x eq_refl).
    apply negb_true_iff, Nat.eqb_neq. lia. }
  rewrite E. apply orb_true_r.
Qed.

End GeomLoopFacts.

(** X17.  How many textures and materials a build allocates.  When the
    walk over the geometries completes, it has built exactly one texture
    for every visible geometry whose material has a texture (nothing is
    shared between geometries), and the number of materials, the default
    one included, is at least one more than the number of those textured
    geometries and at most one more than the number of visible
    geometries. *)
Theorem build_allocation_counts (model : Build.Model) (names_array : list Z)
    (st : Build.State) :
  Build.geomLoop model names_array (Build.initialState model) = Build.Ok st ->
  Build.textures_allocated st
  = length (SceneSpec.texturedGeoms model (Build.ngeom model)) /\
  (1 + length (SceneSpec.texturedGeoms model (Build.ngeom model))
   <= Build.materials_allocated st)%nat /\
  (Build.materials_allocated st
   <= 1 + length (SceneSpec.visibleGeoms model (Build.ngeom model)))%nat.
Proof.
  intros Hrun. rewrite geomLoop_prefix in Hrun.
  enough (Hinv :
    Build.textures_allocated st
    = length (SceneSpec.texturedGeoms model (Build.ngeom model)) /\
    (1 + length (SceneSpec.texturedGeoms model (Build.ngeom model))
     <= Build.materials_allocated st)%nat /\
    (Build.materials_allocated st
     <= 1 + length (SceneSpec.visibleGeoms model (Build.ngeom model)))%nat /\
    (forall x, Build.map (Build.material st) = Some x ->
               (Build.tex_uid x < Build.textures_allocated st)%nat))
    by (destruct Hinv as (H1 & H2 & H3 & _); auto).
  revert Hrun. generalize (Build.ngeom model) as n. revert st.
  intros st n.
  apply (geomPrefix_ind model names_array
           (fun n st =>
              Build.textures_allocated st
              = length (SceneSpec.texturedGeoms model n) /\
              (1 + length (SceneSpec.texturedGeoms model n)
               <= Build.materials_allocated st)%nat /\
              (Build.materials_allocated st
               <= 1 + length (SceneSpec.visibleGeoms model n))%nat /\
              (forall x, Build.map (Build.material st) = Some x ->
                         (Build.tex_uid x < Build.textures_allocated st)%nat))).
  - cbn. repeat split; try lia. discriminate.
  - clear st n. intros n st st' (Ht & Hlo & Hhi & Hfresh) Hstep.
    unfold SceneSpec.texturedGeoms, SceneSpec.visibleGeoms.
    rewrite !filter_seq_S, !length_app.
    fold (SceneSpec.texturedGeoms model n) (SceneSpec.visibleGeoms model n).
    destruct (Build.visible model n) eqn:Hvis.
    + destruct (geomStep_appearance model names_array n st st' Hvis Hstep)
        as (tex & Htex & Hmat & Hcount).
      cbn [andb]. destruct (Build.hasTexture model n).
      * destruct Htex as (t & -> & Huid & Hnext).
        rewrite materialDiffers_fresh in Hmat, Hcount
          by (intros x Hx; specialize (Hfresh x Hx); lia).
        cbn [length]. repeat split; try lia.
        intros x Hx. rewrite Hmat in Hx. cbn in Hx.
        destruct (Build.derivedColor model n) as [[[c0 c1] c2] c3].
        cbn in Hx. inversion Hx; subst x. lia.
      * destruct Htex as (-> & Hnext). cbn [length].
        destruct (Build.materialDiffers _ _ _).
        -- repeat split; try lia.
           intros x Hx. rewrite Hmat in Hx.
           destruct (Build.derivedColor model n) as [[[c0 c1] c2] c3].
           cbn in Hx. discriminate.
        -- repeat split; try lia.
           intros x Hx. rewrite Hmat in Hx. rewrite Hnext. auto.
    + rewrite geomStep_hidden in Hstep by exact Hvis.
      inversion Hstep; subst st'. cbn [andb length].
      repeat split; try lia. exact Hfresh.
Qed.

Lemma build_allocation_counts_witness :
  exists st,
    Build.geomLoop Build.texturedPairModel
      (default [] (Build.names Build.texturedPairModel))
      (Build.initialState Build.texturedPairModel) = Build.Ok st /\
    Build.textures_allocated st = 2%nat /\
    (3 <= Build.materials_allocated st)%nat.
Proof.
  eexists. split; [vm_compute; reflexivity|].
  split; [vm_compute; reflexivity|].
  refine (proj1 (proj2 (build_allocation_counts Build.texturedPairModel
            (default [] (Build.names Build.texturedPairModel)) _ _))).
  vm_compute; reflexivity.
Defined.

Section GeomStepFacts.
Import Build SceneSpec.

Variable model : Model.
Variable names_array : list Z.

Lemma key_eq_true k z : key_eq k z = true -> k = Some z.
Proof.
  unfold key_eq, key_neq. destruct k as [v|]; [|discriminate].
  rewrite negb_involutive. intros H. apply Z.eqb_eq in H. now subst.
Qed.

Lemma synthesizeMesh_bodies meshID st :
  bodies (synthesizeMesh model meshID st).2 = bodies st.
Proof.
  unfold synthesizeMesh. destruct (meshes st !! meshID); [reflexivity|].
  destruct (meshViews model meshID st) as [[[vv nv] uv] tv]. reflexivity.
Qed.

Lemma synthesizeGeometry_not_mesh g b type st :
  key_eq type mjGEOM_MESH = false ->
  (synthesizeGeometry model g b type st).2 = st.
Proof.
  intros H7. unfold synthesizeGeometry. rewrite H7.
  repeat match goal with
         | |- context [if key_eq type ?c then _ else _] =>
             destruct (key_eq type c)
         end; reflexivity.
Qed.

Lemma synthesizeGeometry_bodies g b type st :
  bodies (synthesizeGeometry model g b type st).2
  = if key_eq type mjGEOM_MESH
    then alter (fun grp => mkGroup (name grp) (bodyID grp) true (children grp))
               b (bodies st)
    else bodies st.
Proof.
  destruct (key_eq type mjGEOM_MESH) eqn:H7.
  - apply key_eq_true in H7. subst type. unfold synthesizeGeometry.
    cbn [key_eq key_neq negb Z.eqb mjGEOM_PLANE mjGEOM_HFIELD mjGEOM_SPHERE
         mjGEOM_CAPSULE mjGEOM_ELLIPSOID mjGEOM_CYLINDER mjGEOM_BOX mjGEOM_MESH
         Pos.eqb].
    pose proof (synthesizeMesh_bodies
                  (geti (geom_dataid model) (Some (Z.of_nat g))) st) as Hm.
    destruct (synthesizeMesh model _ st) as [geometry st1].
    cbn [snd] in *. unfold mark_custom_mesh. cbn [bodies]. now rewrite Hm.
  - now rewrite synthesizeGeometry_not_mesh.
Qed.

Lemma deriveTexture_frame g st tex st' :
  deriveTexture model g st = Some (tex, st') ->
  bodies st' = bodies st /\ st_mesh_vert st' = st_mesh_vert st /\
  st_mesh_normal st' = st_mesh_normal st.
Proof.
  unfold deriveTexture, makeTexture.
  destruct (key_neq (geti (geom_matid model) _) _);
    [|intros H; inversion H; auto].
  destruct (key_neq (geti (mat_texid model) _) _);
    [|intros H; inversion H; auto].
  destruct (typedArrayLength _); [|discriminate].
  intros H; inversion H; auto.
Qed.

Lemma resolveMaterial_frame g c tex st :
  bodies (resolveMaterial model g c tex st) = bodies st /\
  st_mesh_vert (resolveMaterial model g c tex st) = st_mesh_vert st /\
  st_mesh_normal (resolveMaterial model g c tex st) = st_mesh_normal st.
Proof.
  unfold resolveMaterial. destruct (materialDiffers _ _ _); auto.
Qed.

Lemma ensureBody_buffers b st :
  st_mesh_vert (ensureBody model names_array b st) = st_mesh_vert st /\
  st_mesh_normal (ensureBody model names_array b st) = st_mesh_normal st.
Proof.
  unfold ensureBody. destruct (bodies st !! b); auto.
Qed.

Lemma ensureBody_lookup b st k :
  bodies (ensureBody model names_array b st) !! k
  = if decide (k = b)
    then Some (default (newBody model names_array b) (bodies st !! b))
    else bodies st !! k.
Proof.
  unfold ensureBody. destruct (bodies st !! b) as [grp|] eqn:E.
  - destruct (decide (k = b)) as [-> | Hne]; [exact E | reflexivity].
  - cbn [bodies default]. destruct (decide (k = b)) as [-> | Hne].
    + apply lookup_insert_eq.
    + now apply lookup_insert_ne.
Qed.

Lemma geomStep_buffers g st st1 :
  key_eq (typeOf model g) mjGEOM_MESH = false ->
  geomStep model names_array g st = Ok st1 ->
  st_mesh_vert st1 = st_mesh_vert st /\
  st_mesh_normal st1 = st_mesh_normal st.
Proof.
  intros H7. unfold geomStep.
  destruct (visible model g); cbn [negb]; [|intros H; inversion H; auto].
  fold (typeOf model g).
  pose proof (synthesizeGeometry_not_mesh g
                (geti (geom_bodyid model) (Some (Z.of_nat g)))
                (typeOf model g)
                (ensureBody model names_array
                   (geti (geom_bodyid model) (Some (Z.of_nat g))) st) H7) as Hs.
  destruct (synthesizeGeometry model g _ _ _) as [geometry st_b].
  cbn [snd] in Hs. subst st_b.
  destruct (deriveTexture model g _) as [[tex st_c]|] eqn:Etex; [|discriminate].
  apply deriveTexture_frame in Etex as (_ & Hv & Hn).
  intros H; inversion H; subst st1; clear H.
  unfold attachMesh. cbn [st_mesh_vert st_mesh_normal].
  destruct (resolveMaterial_frame g (derivedColor model g) tex st_c)
    as (_ & Hv' & Hn').
  destruct (ensureBody_buffers
              (geti (geom_bodyid model) (Some (Z.of_nat g))) st) as (Hv0 & Hn0).
  split; congruence.
Qed.

Lemma geomStep_bodies g st st1 :
  visible model g = true ->
  geomStep model names_array g st = Ok st1 ->
  exists m,
    isMeshOf model g (CMesh m) /\
    bodies st1 !! ownerOf model g
    = Some (let base := default (newBody model names_array (ownerOf model g))
                                (bodies st !! ownerOf model g) in
            mkGroup (name base) (bodyID base)
                    (has_custom_mesh base || key_eq (typeOf model g) mjGEOM_MESH)
                    (children base ++ [CMesh m])) /\
    forall k, k <> ownerOf model g -> bodies st1 !! k = bodies st !! k.
Proof.
  intros Hvis. unfold geomStep. rewrite Hvis. cbn [negb].
  fold (typeOf model g) (ownerOf model g).
  set (b := ownerOf model g). set (type := typeOf model g).
  pose proof (synthesizeGeometry_bodies g b type
                (ensureBody model names_array b st)) as Hs.
  destruct (synthesizeGeometry model g b type _) as [geometry st_b].
  cbn [snd] in Hs.
  destruct (deriveTexture model g st_b) as [[tex st_c]|] eqn:Etex; [|discriminate].
  apply deriveTexture_frame in Etex as (Hb & _ & _).
  intros H; inversion H; subst st1; clear H.
  eexists. split; [|split]; cycle 1.
  - unfold attachMesh. cbn [bodies].
    destruct (resolveMaterial_frame g (derivedColor model g) tex st_c) as (-> & _ & _).
    rewrite Hb, Hs, lookup_alter_eq. cbv zeta.
    destruct (key_eq type mjGEOM_MESH).
    + rewrite lookup_alter_eq, ensureBody_lookup.
      rewrite decide_True by reflexivity. cbn [fmap option_fmap option_map add
        name bodyID has_custom_mesh children].
      now rewrite orb_true_r.
    + rewrite ensureBody_lookup, decide_True by reflexivity.
      cbn [fmap option_fmap option_map add].
      now rewrite orb_false_r.
  - intros k Hk. unfold attachMesh. cbn [bodies].
    destruct (resolveMaterial_frame g (derivedColor model g) tex st_c) as (-> & _ & _).
    rewrite Hb, Hs, lookup_alter_ne by congruence.
    destruct (key_eq type mjGEOM_MESH).
    + rewrite lookup_alter_ne by congruence.
      rewrite ensureBody_lookup. now rewrite decide_False.
    + rewrite ensureBody_lookup. now rewrite decide_False.
  - cbn [isMeshOf mesh_bodyID position quaternion castShadow receiveShadow kind].
    fold type b. repeat split.
    destruct (key_eq type 0) eqn:E0.
    + now apply key_eq_true in E0.
    + intros ->. discriminate.
Qed.

End GeomStepFacts.

(** X18.  A build leaves the vertex data alone unless a triangle mesh is
    shown.  When the walk over the geometries completes and no visible
    geometry is of the mesh type, the vertex and normal buffers of the
    model are exactly what they were before the build. *)
Theorem build_without_mesh_keeps_buffers (model : Build.Model)
    (names_array : list Z) (st : Build.State) :
  Build.geomLoop model names_array (Build.initialState model) = Build.Ok st ->
  SceneSpec.meshGeoms model (Build.ngeom model) = [] ->
  Build.st_mesh_vert st = Build.mesh_vert model /\
  Build.st_mesh_normal st = Build.mesh_normal model.
Proof.
  intros Hrun. rewrite geomLoop_prefix in Hrun. revert Hrun.
  generalize (Build.ngeom model) as n. intros n Hrun.
  apply (geomPrefix_ind model names_array
           (fun n st =>
              SceneSpec.meshGeoms model n = [] ->
              Build.st_mesh_vert st = Build.mesh_vert model /\
              Build.st_mesh_normal st = Build.mesh_normal model)
           (Build.initialState model)); [| |exact Hrun].
  - intros _. split; reflexivity.
  - clear. intros n st st' IH Hstep Hnone.
    unfold SceneSpec.meshGeoms in Hnone. rewrite filter_seq_S in Hnone.
    apply app_eq_nil in Hnone as (Hprev & Hlast).
    destruct (IH Hprev) as (Hv & Hn).
    destruct (Build.visible model n) eqn:Hvis.
    + cbn [andb] in Hlast.
      destruct (Build.key_eq (SceneSpec.typeOf model n) Build.mjGEOM_MESH) eqn:H7;
        [discriminate|].
      destruct (geomStep_buffers model names_array n st st' H7 Hstep) as (Hv' & Hn').
      split; congruence.
    + rewrite geomStep_hidden in Hstep by exact Hvis.
      inversion Hstep; subst st'. auto.
Qed.

Lemma build_without_mesh_keeps_buffers_witness :
  let model :=
    Build.withMeshBuffers Build.plainPairModel Build.meshVertices
                          Build.meshVertices in
  exists st,
    Build.geomLoop model (default [] (Build.names model))
      (Build.initialState model) = Build.Ok st /\
    SceneSpec.meshGeoms model (Build.ngeom model) = [] /\
    Build.st_mesh_vert st = Build.meshVertices.
Proof.
  cbv zeta. eexists. split; [vm_compute; reflexivity|].
  split; [reflexivity|].
  refine (proj1 (build_without_mesh_keeps_buffers
            (Build.withMeshBuffers Build.plainPairModel Build.meshVertices
                                   Build.meshVertices)
            (default [] (Build.names Build.plainPairModel)) _ _ _)).
  - vm_compute; reflexivity.
  - reflexivity.
Defined.

(** X19.  What the walk over the geometries puts under each body.  When
    the walk completes, a body id has a group exactly when at least one
    visible geometry belongs to it.  That group carries the body id and
    the name decoded at the body's name address, its custom-mesh flag is
    set exactly when one of its visible geometries is a triangle mesh, and
    its children are one mesh per visible geometry of the body, in index
    order, each with that geometry's swizzled position, its orientation
    (none for a plane), the body id and the shadow flags (no shadow cast
    by geometry 0, none received by triangle meshes); planes become
    reflectors and nothing else does. *)
Theorem bodies_hold_their_geometries (model : Build.Model)
    (names_array : list Z) (st : Build.State) (b : Build.key) :
  Build.geomLoop model names_array (Build.initialState model) = Build.Ok st ->
  let owned := SceneSpec.ownedGeoms model (Build.ngeom model) b in
  match Build.bodies st !! b with
  | Some grp =>
      owned <> [] /\
      Build.name grp
      = Some (Build.bodyName names_array
                (Build.geti (Build.name_bodyadr model) b)) /\
      Build.bodyID grp = b /\
      Build.has_custom_mesh grp
      = existsb (fun g => Build.key_eq (SceneSpec.typeOf model g)
                                       Build.mjGEOM_MESH) owned /\
      Forall2 (SceneSpec.isMeshOf model) owned (Build.children grp)
  | None => owned = []
  end.
Proof.
  intros Hrun. rewrite geomLoop_prefix in Hrun. revert Hrun.
  generalize (Build.ngeom model) as n. intros n Hrun. cbv zeta.
  revert b.
  apply (geomPrefix_ind model names_array
           (fun n st =>
              forall b,
                match Build.bodies st !! b with
                | Some grp =>
                    SceneSpec.ownedGeoms model n b <> [] /\
                    Build.name grp
                    = Some (Build.bodyName names_array
                              (Build.geti (Build.name_bodyadr model) b)) /\
                    Build.bodyID grp = b /\
                    Build.has_custom_mesh grp
                    = existsb (fun g => Build.key_eq (SceneSpec.typeOf model g)
                                                     Build.mjGEOM_MESH)
                              (SceneSpec.ownedGeoms model n b) /\
                    Forall2 (SceneSpec.isMeshOf model)
                            (SceneSpec.ownedGeoms model n b) (Build.children grp)
                | None => SceneSpec.ownedGeoms model n b = []
                end)
           (Build.initialState model)); [| |exact Hrun].
  - intros b. cbn [Build.initialState Build.bodies]. rewrite lookup_empty.
    reflexivity.
  - clear. intros n st st' IH Hstep b.
    unfold SceneSpec.ownedGeoms. rewrite filter_seq_S.
    fold (SceneSpec.ownedGeoms model n b).
    destruct (Build.visible model n) eqn:Hvis.
    + destruct (geomStep_bodies model names_array n st st' Hvis Hstep)
        as (m & Hmesh & Hown & Hother).
      cbn [andb]. destruct (decide (SceneSpec.ownerOf model n = b)) as [<- | Hne].
      * rewrite bool_decide_eq_true_2 by reflexivity. rewrite Hown. cbv zeta.
        specialize (IH (SceneSpec.ownerOf model n)).
        destruct (Build.bodies st !! SceneSpec.ownerOf model n) as [grp|].
        -- destruct IH as (Hne & Hname & Hid & Hflag & Hall).
           cbn [default from_option id Build.name Build.bodyID
                Build.has_custom_mesh Build.children].
           split; [intros Habs; apply app_eq_nil in Habs as (_ & Habs);
                   discriminate|].
           split; [exact Hname|]. split; [exact Hid|]. split.
           ++ rewrite existsb_app, Hflag. cbn [existsb].
              now rewrite orb_false_r.
           ++ apply Forall2_app; [exact Hall|].
              constructor; [exact Hmesh | constructor].
        -- rewrite IH.
           cbn [default from_option id Build.newBody Build.name Build.bodyID
                Build.has_custom_mesh Build.children app existsb orb].
           split; [discriminate|]. split; [reflexivity|].
           split; [reflexivity|]. split; [now rewrite orb_false_r|].
           constructor; [exact Hmesh | constructor].
      * rewrite bool_decide_eq_false_2 by exact Hne. rewrite app_nil_r.
        rewrite Hother by congruence. apply IH.
    + rewrite geomStep_hidden in Hstep by exact Hvis.
      inversion Hstep; subst st'. cbn [andb]. rewrite app_nil_r. apply IH.
Qed.

Lemma bodies_hold_their_geometries_witness :
  exists st grp,
    Build.geomLoop Build.meshModel (default [] (Build.names Build.meshModel))
      (Build.initialState Build.meshModel) = Build.Ok st /\
    Build.bodies st !! Some 0 = Some grp /\
    Build.has_custom_mesh grp = true /\
    length (Build.children grp) = 1%nat.
Proof.
  assert (Hrun : exists st,
    Build.geomLoop Build.meshModel (default [] (Build.names Build.meshModel))
      (Build.initialState Build.meshModel) = Build.Ok st)
    by (eexists; vm_compute; reflexivity).
  destruct Hrun as [st Hrun].
  pose proof (bodies_hold_their_geometries Build.meshModel
                (default [] (Build.names Build.meshModel)) st (Some 0) Hrun)
    as Hbody.
  cbv zeta in Hbody.
  change (SceneSpec.ownedGeoms Build.meshModel (Build.ngeom Build.meshModel)
            (Some 0)) with [0%nat] in Hbody.
  match type of Hbody with
  | match ?found with _ => _ end =>
      destruct found as [grp|] eqn:Hgrp; [|discriminate Hbody]
  end.
  destruct Hbody as (_ & _ & _ & Hflag & Hall).
  exists st, grp. split; [exact Hrun|]. split; [exact Hgrp|].
  split; [exact Hflag|]. apply Forall2_length in Hall. now rewrite <- Hall.
Defined.

(** ** Lights and bodies *)

Section TreeFacts.
Import Build SceneSpec.

Variable model : Model.

Lemma lightsUpTo_S n :
  lightsUpTo model (S n) = lightsUpTo model n ++ [lightOf model n].
Proof. unfold lightsUpTo. now rewrite seq_S, List.map_app. Qed.

Lemma addChildren_nil g : addChildren [] g = g.
Proof. destruct g. unfold addChildren. cbn. now rewrite app_nil_r. Qed.

Lemma add_addChildren c cs g :
  add c (addChildren cs g) = addChildren (cs ++ [c]) g.
Proof. unfold add, addChildren. cbn. now rewrite app_assoc. Qed.

Lemma lights_loop (n : nat) (groups : gmap key Group) (root : Root) :
  exists groups1 root1,
    for_range n (lightStep model) (groups, root, [])
    = (groups1, root1, lightsUpTo model n) /\
    (forall k, groups1 !! k
               = if decide (k = Some 0)
                 then addChildren (List.map CLight (lightsUpTo model n))
                        <$> groups !! k
                 else groups !! k) /\
    root1 = match groups !! Some 0 with
            | Some _ => root
            | None => mkRoot (root_children root
                              ++ List.map CLight (lightsUpTo model n))
                             (root_pools root)
            end.
Proof.
  induction n as [|n (groups1 & root1 & Hrun & Hget & Hroot)].
  - exists groups, root. split; [reflexivity|]. split.
    + intros k. destruct (decide (k = Some 0)); [|reflexivity].
      cbn [lightsUpTo seq List.map]. destruct (groups !! k); [|reflexivity].
      cbn. now rewrite addChildren_nil.
    + cbn [lightsUpTo seq List.map]. rewrite app_nil_r.
      destruct root; now destruct (groups !! Some 0).
  - rewrite for_range_S, Hrun. unfold lightStep at 1.
    fold (lightOf model n). rewrite <- lightsUpTo_S.
    pose proof (Hget (Some 0)) as H0. rewrite decide_True in H0 by reflexivity.
    destruct (groups !! Some 0) as [g0|] eqn:E0.
    + cbn in H0. rewrite H0. eexists _, _. split; [reflexivity|]. split.
      * intros k. destruct (decide (k = Some 0)) as [-> | Hne].
        -- rewrite lookup_alter_eq, H0, E0. cbn [fmap option_fmap option_map].
           rewrite add_addChildren, lightsUpTo_S, List.map_app. reflexivity.
        -- rewrite lookup_alter_ne by congruence.
           rewrite Hget. now rewrite decide_False.
      * exact Hroot.
    + cbn in H0. rewrite H0. eexists _, _. split; [reflexivity|]. split.
      * intros k. rewrite Hget.
        destruct (decide (k = Some 0)) as [-> | Hne]; [|reflexivity].
        now rewrite E0.
      * rewrite Hroot. unfold root_add. cbn [root_children root_pools].
        rewrite lightsUpTo_S, List.map_app, app_assoc. reflexivity.
Qed.

Lemma bodyNodes_S n :
  (1 <= n)%nat -> bodyNodes (S n) = bodyNodes n ++ [CBody (Some (Z.of_nat n))].
Proof.
  intros Hn. unfold bodyNodes.
  replace (S n - 1)%nat with (S (n - 1)) by lia.
  rewrite seq_S, List.map_app. cbn [List.map].
  now replace (1 + (n - 1))%nat with n by lia.
Qed.

Lemma presentBodies_S (groups : gmap key Group) (n : nat) :
  presentBodies groups (S n)
  = presentBodies groups n
    ++ match groups !! Some (Z.of_nat n) with
       | Some _ => [CBody (Some (Z.of_nat n))]
       | None => []
       end.
Proof.
  unfold presentBodies. rewrite filter_seq_S, List.map_app.
  destruct (groups !! Some (Z.of_nat n)) as [g|] eqn:E.
  - rewrite bool_decide_eq_true_2 by eauto. reflexivity.
  - rewrite bool_decide_eq_false_2 by (intros [x Hx]; discriminate). reflexivity.
Qed.

Lemma synthesized_S (names_ : list (list Z)) (k : key) (n : nat) :
  k <> Some (Z.of_nat n) -> synthesized names_ k (S n) = synthesized names_ k n.
Proof.
  intros Hk. destruct k as [z|]; [|reflexivity]. unfold synthesized.
  replace (z <? Z.of_nat (S n)) with (z <? Z.of_nat n); [reflexivity|].
  destruct (Z.ltb_spec z (Z.of_nat n)); symmetry;
    [apply Z.ltb_lt | apply Z.ltb_ge]; try lia.
  assert (z <> Z.of_nat n) by congruence. lia.
Qed.

Lemma synthesized_last names_ n :
  synthesized names_ (Some (Z.of_nat n)) n = None.
Proof.
  unfold synthesized. rewrite Z.ltb_irrefl. now rewrite andb_false_r.
Qed.

Lemma synthesized_new names_ n :
  (1 <= n)%nat ->
  synthesized names_ (Some (Z.of_nat n)) (S n)
  = Some (mkGroup (names_ !! S n) (Some (Z.of_nat n)) false []).
Proof.
  intros Hn. unfold synthesized.
  replace (1 <=? Z.of_nat n) with true by (symmetry; apply Z.leb_le; lia).
  replace (Z.of_nat n <? Z.of_nat (S n)) with true
    by (symmetry; apply Z.ltb_lt; lia).
  cbn [andb]. now rewrite Nat2Z.id.
Qed.

Lemma bodies_loop (names_ : list (list Z)) (n : nat)
    (groups : gmap key Group) (root : Root) :
  exists groups2 root2,
    for_range n (bodyStep names_) (groups, root) = (groups2, root2) /\
    root_pools root2 = root_pools root /\
    match groups !! Some 0 with
    | Some g0 =>
        root_children root2
        = root_children root ++ (if (n =? 0)%nat then [] else [CBody (Some 0)]) /\
        forall k,
          groups2 !! k
          = if decide (k = Some 0) then Some (addChildren (bodyNodes n) g0)
            else match groups !! k with
                 | Some g => Some g
                 | None => synthesized names_ k n
                 end
    | None =>
        groups2 = groups /\
        root_children root2 = root_children root ++ presentBodies groups n
    end.
Proof.
  induction n as [|n (groups2 & root2 & Hrun & Hpools & IH)].
  - exists groups, root. split; [reflexivity|]. split; [reflexivity|].
    destruct (groups !! Some 0) as [g0|] eqn:E0.
    + split; [cbn; now rewrite app_nil_r|].
      intros k. destruct (decide (k = Some 0)) as [-> | Hne].
      * rewrite E0. change (bodyNodes 0) with (@nil Child).
        now rewrite addChildren_nil.
      * destruct (groups !! k); [reflexivity|].
        destruct k as [z|]; [|reflexivity]. unfold synthesized.
        destruct (Z.leb_spec 1 z); [|reflexivity].
        now replace (z <? Z.of_nat 0) with false
          by (symmetry; apply Z.ltb_ge; lia).
    + split; [reflexivity|]. cbn. now rewrite app_nil_r.
  - rewrite for_range_S, Hrun. unfold bodyStep at 1. unfold key in *.
    destruct (groups !! Some 0) as [g0|] eqn:E0.
    + destruct IH as (Hroot & Hget).
      pose proof (Hget (Some 0)) as H0. rewrite decide_True in H0 by reflexivity.
      destruct n as [|n].
      * cbn [Nat.eqb orb]. change (Some (Z.of_nat 0)) with (Some 0).
        rewrite H0. eexists _, _. split; [reflexivity|].
        split; [exact Hpools|]. split.
        -- unfold root_add. cbn [root_children]. rewrite Hroot. cbn.
           now rewrite app_nil_r.
        -- intros k. rewrite Hget.
           destruct (decide (k = Some 0)) as [Heq | Hne]; [reflexivity|].
           destruct (groups !! k); [reflexivity|].
           now rewrite (synthesized_S names_ k 0) by exact Hne.
      * cbn [Nat.eqb orb]. rewrite H0.
        rewrite bool_decide_eq_true_2 by eauto. cbn [negb].
        assert (Hkb : Some (Z.of_nat (S n)) <> Some 0)
          by (intros Heq; inversion Heq; lia).
        pose proof (Hget (Some (Z.of_nat (S n)))) as Hb.
        rewrite decide_False in Hb by exact Hkb.
        rewrite synthesized_last in Hb.
        destruct (groups !! Some (Z.of_nat (S n))) as [g|] eqn:Eb.
        -- rewrite Hb. eexists _, _. split; [reflexivity|].
           split; [exact Hpools|]. split; [exact Hroot|].
           intros k. destruct (decide (k = Some 0)) as [-> | Hne].
           ++ rewrite lookup_alter_eq, H0. cbn [fmap option_fmap option_map].
              now rewrite add_addChildren, <- bodyNodes_S by lia.
           ++ rewrite lookup_alter_ne by congruence.
              rewrite Hget, decide_False by exact Hne.
              destruct (decide (k = Some (Z.of_nat (S n)))) as [-> | Hk].
              ** now rewrite Eb.
              ** now rewrite (synthesized_S names_ k (S n)) by exact Hk.
        -- rewrite Hb. eexists _, _. split; [reflexivity|].
           split; [exact Hpools|]. split; [exact Hroot|].
           intros k. destruct (decide (k = Some 0)) as [-> | Hne].
           ++ rewrite lookup_alter_eq, lookup_insert_ne, H0 by exact Hkb.
              cbn [fmap option_fmap option_map].
              now rewrite add_addChildren, <- bodyNodes_S by lia.
           ++ rewrite lookup_alter_ne by congruence.
              destruct (decide (k = Some (Z.of_nat (S n)))) as [-> | Hk].
              ** rewrite lookup_insert_eq, Eb.
                 now rewrite synthesized_new by lia.
              ** rewrite lookup_insert_ne by congruence.
                 rewrite Hget, decide_False by exact Hne.
                 now rewrite (synthesized_S names_ k (S n)) by exact Hk.
    + destruct IH as (-> & Hroot).
      rewrite E0.
      rewrite (bool_decide_eq_false_2 (is_Some None))
        by (intros [x Hx]; discriminate).
      cbn [negb]. rewrite orb_true_r. rewrite presentBodies_S. unfold key.
      destruct (groups !! Some (Z.of_nat n)) as [g|].
      * eexists _, _. split; [reflexivity|]. split; [exact Hpools|].
        split; [reflexivity|]. unfold root_add. cbn [root_children].
        now rewrite Hroot, app_assoc.
      * eexists _, _. split; [reflexivity|]. split; [exact Hpools|].
        split; [reflexivity|]. now rewrite Hroot, app_nil_r.
Qed.

End TreeFacts.

(** X20.  The shape of the scene tree after a build that completes.  The
    returned light list holds one light per light entry of the model, in
    order (directional when the entry's flag is not zero, a spot light
    otherwise, with decay 100 times the attenuation read at the light's
    index).  When body 0 has a group after the walk over the geometries,
    the lights and then the bodies 1 .. nbody-1 are appended to that
    group, and the root holds the two tendon pools, the default light
    (added only when the model has no light; it is not in the returned
    list) and body 0.  When body 0 has no group, no group is changed or
    made, and the root holds the pools, the lights, the default light and
    the bodies that have a group. *)
Theorem scene_tree_layout (model : Build.Model) (parent : Build.Parent)
    (st : Build.State) :
  Build.namesInvalid model = false ->
  Build.geomLoop model (default [] (Build.names model))
    (Build.initialState model) = Build.Ok st ->
  exists root loaded,
    Build.loadSceneFromURL model parent
    = (Build.mkParent (Build.scene parent ++ [Build.MujocoRoot root])
                      (Some root), Some loaded) /\
    Build.loaded_lights loaded = SceneSpec.lightsOf model /\
    match Build.bodies st !! Some 0 with
    | Some g0 =>
        Build.root_children root
        = [Build.CCylinders; Build.CSpheres] ++ SceneSpec.defaultLights model
          ++ (if (Build.nbody model =? 0)%nat then []
              else [Build.CBody (Some 0)]) /\
        Build.loaded_bodies loaded !! Some 0
        = Some (SceneSpec.addChildren
                  (List.map Build.CLight (SceneSpec.lightsOf model)
                   ++ SceneSpec.bodyNodes (Build.nbody model)) g0)
    | None =>
        Build.root_children root
        = [Build.CCylinders; Build.CSpheres]
          ++ List.map Build.CLight (SceneSpec.lightsOf model)
          ++ SceneSpec.defaultLights model
          ++ SceneSpec.presentBodies (Build.bodies st) (Build.nbody model) /\
        Build.loaded_bodies loaded = Build.bodies st
    end.
Proof.
  intros Hvalid Hrun. unfold Build.loadSceneFromURL, Build.tryBuild.
  rewrite Hvalid, Hrun.
  destruct (lights_loop model (Build.nlight model) (Build.bodies st)
              (Build.mkRoot [Build.CCylinders; Build.CSpheres]
                            (Some Tendon.newPools)))
    as (groups1 & root1 & Hlights & Hget1 & Hroot1).
  rewrite Hlights.
  set (root1' := if (Build.nlight model =? 0)%nat
                 then Build.root_add (Build.CLight (Build.mkLight true Undefined))
                                     root1
                 else root1).
  assert (Hroot1' : Build.root_children root1'
                    = Build.root_children root1 ++ SceneSpec.defaultLights model).
  { subst root1'. unfold SceneSpec.defaultLights.
    destruct (Build.nlight model =? 0)%nat; [reflexivity|].
    now rewrite app_nil_r. }
  destruct (bodies_loop (Build.splitNull (default [] (Build.names model)))
              (Build.nbody model) groups1 root1')
    as (groups2 & root2 & Hbodies & _ & Hcase).
  rewrite Hbodies. eexists _, _. split; [reflexivity|].
  split; [reflexivity|]. cbn [Build.loaded_bodies].
  pose proof (Hget1 (Some 0)) as H0. rewrite decide_True in H0 by reflexivity.
  unfold Build.key in *.
  match goal with
  | |- match ?found with _ => _ end => destruct found as [g0|] eqn:E0
  end.
  - cbn [fmap option_fmap option_map] in H0. rewrite H0 in Hcase.
    destruct Hcase as (Hchildren & Hget2). subst root1.
    split.
    + rewrite Hchildren, Hroot1'. cbn [Build.root_children].
      now rewrite <- app_assoc.
    + rewrite Hget2, decide_True by reflexivity.
      unfold SceneSpec.addChildren. cbn. now rewrite app_assoc.
  - cbn [fmap option_fmap option_map] in H0. rewrite H0 in Hcase.
    destruct Hcase as (-> & Hchildren).
    assert (Hsame : groups1 = Build.bodies st).
    { apply map_eq. intros k. rewrite Hget1.
      destruct (decide (k = Some 0)) as [-> | Hne]; [|reflexivity].
      now rewrite E0. }
    subst groups1 root1. split; [|reflexivity].
    rewrite Hchildren, Hroot1'. cbn [Build.root_children].
    now rewrite <- !app_assoc.
Qed.

Lemma scene_tree_layout_witness :
  exists st root loaded,
    Build.geomLoop SceneSpec.threeBodyModel
      (default [] (Build.names SceneSpec.threeBodyModel))
      (Build.initialState SceneSpec.threeBodyModel) = Build.Ok st /\
    Build.loadSceneFromURL SceneSpec.threeBodyModel Build.emptyParent
    = (Build.mkParent (Build.scene Build.emptyParent ++ [Build.MujocoRoot root])
                      (Some root), Some loaded) /\
    Build.loaded_lights loaded = [] /\
    Build.root_children root
    = [Build.CCylinders; Build.CSpheres;
       Build.CLight (Build.mkLight true Undefined); Build.CBody (Some 0)].
Proof.
  assert (Hrun : exists st,
    Build.geomLoop SceneSpec.threeBodyModel
      (default [] (Build.names SceneSpec.threeBodyModel))
      (Build.initialState SceneSpec.threeBodyModel) = Build.Ok st /\
    is_Some (Build.bodies st !! Some 0)).
  { eexists. split; [vm_compute; reflexivity|]. vm_compute. eauto. }
  destruct Hrun as (st & Hrun & g0 & Hg0).
  destruct (scene_tree_layout SceneSpec.threeBodyModel Build.emptyParent st
              eq_refl Hrun) as (root & loaded & Hload & Hlights & Htree).
  match type of Htree with
  | match ?found with _ => _ end =>
      replace found with (Some g0) in Htree
  end.
  destruct Htree as (Hchildren & _).
  exists st, root, loaded. split; [exact Hrun|]. split; [exact Hload|].
  split; [exact Hlights | exact Hchildren].
Defined.

(** X21.  Bodies without visible geometry.  After a build that
    completes, the group of a body other than body 0 is the one the walk
    over the geometries left, when there is one.  A body that has none
    gets a new, empty group without the custom-mesh flag exactly when
    body 0 has a group and its id lies in 1 .. nbody-1; the group is named
    by piece id+1 of the name blob split at null bytes.  So when body 0
    has a group every id below nbody has one afterwards, and when it has
    none no group is made. *)
Theorem bodies_without_geometry (model : Build.Model) (parent parent' : Build.Parent)
    (st : Build.State) (loaded : Build.Loaded) :
  Build.geomLoop model (default [] (Build.names model))
    (Build.initialState model) = Build.Ok st ->
  Build.loadSceneFromURL model parent = (parent', Some loaded) ->
  (forall k, k <> Some 0 ->
     Build.loaded_bodies loaded !! k
     = match Build.bodies st !! k with
       | Some g => Some g
       | None =>
           match Build.bodies st !! Some 0 with
           | Some _ =>
               SceneSpec.synthesized
                 (Build.splitNull (default [] (Build.names model)))
                 k (Build.nbody model)
           | None => None
           end
       end) /\
  (is_Some (Build.bodies st !! Some 0) ->
   forall z, 0 <= z < Z.of_nat (Build.nbody model) ->
             is_Some (Build.loaded_bodies loaded !! Some z)).
Proof.
  intros Hrun. unfold Build.loadSceneFromURL, Build.tryBuild.
  destruct (Build.namesInvalid model); [discriminate|]. rewrite Hrun.
  destruct (lights_loop model (Build.nlight model) (Build.bodies st)
              (Build.mkRoot [Build.CCylinders; Build.CSpheres]
                            (Some Tendon.newPools)))
    as (groups1 & root1 & Hlights & Hget1 & _).
  rewrite Hlights.
  destruct (bodies_loop (Build.splitNull (default [] (Build.names model)))
              (Build.nbody model) groups1
              (if (Build.nlight model =? 0)%nat
               then Build.root_add (Build.CLight (Build.mkLight true Undefined))
                                   root1
               else root1))
    as (groups2 & root2 & Hbodies & _ & Hcase).
  rewrite Hbodies. intros Hload. inversion Hload; subst parent' loaded; clear Hload.
  cbn [Build.loaded_bodies].
  pose proof (Hget1 (Some 0)) as H0. rewrite decide_True in H0 by reflexivity.
  unfold Build.key in *.
  assert (Hothers : forall k, k <> Some 0 ->
            groups2 !! k
            = match Build.bodies st !! k with
              | Some g => Some g
              | None =>
                  match Build.bodies st !! Some 0 with
                  | Some _ =>
                      SceneSpec.synthesized
                        (Build.splitNull (default [] (Build.names model)))
                        k (Build.nbody model)
                  | None => None
                  end
              end).
  { intros k Hk. unfold Build.key.
    match type of H0 with
    | _ = _ <$> ?found => destruct found as [g0|] eqn:E0
    end.
    - cbn [fmap option_fmap option_map] in H0. rewrite H0 in Hcase.
      destruct Hcase as (_ & Hget2).
      rewrite Hget2, decide_False by exact Hk.
      rewrite Hget1, decide_False by exact Hk. reflexivity.
    - cbn [fmap option_fmap option_map] in H0. rewrite H0 in Hcase.
      destruct Hcase as (-> & _).
      rewrite Hget1, decide_False by exact Hk.
      match goal with
      | |- _ = match ?found with _ => _ end => now destruct found
      end. }
  split; [exact Hothers|]. unfold Build.key in *.
  intros [g0 E0] z Hz. rewrite E0 in H0.
  cbn [fmap option_fmap option_map] in H0. rewrite H0 in Hcase.
  destruct Hcase as (_ & Hget2).
  destruct (decide (z = 0)) as [-> | Hnz].
  - rewrite Hget2, decide_True by reflexivity. eauto.
  - rewrite Hothers by congruence. rewrite E0.
    match goal with
    | |- is_Some (match ?found with _ => _ end) => destruct found; [eauto|]
    end.
    unfold SceneSpec.synthesized.
    replace (1 <=? z) with true by (symmetry; apply Z.leb_le; lia).
    replace (z <? Z.of_nat (Build.nbody model)) with true
      by (symmetry; apply Z.ltb_lt; lia).
    cbn [andb]. eauto.
Qed.

Lemma bodies_without_geometry_witness :
  exists st parent' loaded,
    Build.geomLoop SceneSpec.threeBodyModel
      (default [] (Build.names SceneSpec.threeBodyModel))
      (Build.initialState SceneSpec.threeBodyModel) = Build.Ok st /\
    Build.loadSceneFromURL SceneSpec.threeBodyModel Build.emptyParent
    = (parent', Some loaded) /\
    Build.loaded_bodies loaded !! Some 1
    = Some (Build.mkGroup (Some [98]) (Some 1) false []).
Proof.
  assert (Hrun : exists st,
    Build.geomLoop SceneSpec.threeBodyModel
      (default [] (Build.names SceneSpec.threeBodyModel))
      (Build.initialState SceneSpec.threeBodyModel) = Build.Ok st /\
    is_Some (Build.bodies st !! Some 0) /\
    Build.bodies st !! Some 1 = None).
  { eexists. split; [vm_compute; reflexivity|].
    split; [vm_compute; eauto | vm_compute; reflexivity]. }
  destruct Hrun as (st & Hrun & (g0 & Hg0) & Hg1).
  assert (Hload : exists parent' loaded,
    Build.loadSceneFromURL SceneSpec.threeBodyModel Build.emptyParent
    = (parent', Some loaded)) by (eexists _, _; vm_compute; reflexivity).
  destruct Hload as (parent' & loaded & Hload).
  exists st, parent', loaded. split; [exact Hrun|]. split; [exact Hload|].
  destruct (bodies_without_geometry SceneSpec.threeBodyModel Build.emptyParent
              parent' st loaded Hrun Hload) as (Hothers & _).
  rewrite (Hothers (Some 1)) by discriminate.
  unfold Build.key in *. rewrite Hg1, Hg0. reflexivity.
Defined.

(** ** Textures *)

Section TextureFacts.
Import Build.

Lemma flat_map_seq_length {A} (f : nat -> list A) (c n : nat) :
  (forall i, length (f i) = c) ->
  length (flat_map f (seq 0 n)) = (c * n)%nat.
Proof.
  intros Hc. induction n as [|n IH]; [cbn; lia|].
  rewrite seq_S, flat_map_app, length_app, IH. cbn [flat_map Nat.add].
  rewrite app_nil_r, Hc. lia.
Qed.

Lemma flat_map_seq_lookup {A} (f : nat -> list A) (c n p k : nat) :
  (forall i, length (f i) = c) ->
  (p < n)%nat -> (k < c)%nat ->
  flat_map f (seq 0 n) !! (c * p + k)%nat = f p !! k.
Proof.
  intros Hc Hp Hk. induction n as [|n IH]; [lia|].
  rewrite seq_S, flat_map_app. cbn [flat_map Nat.add]. rewrite app_nil_r.
  destruct (decide (p = n)) as [-> | Hne].
  - rewrite lookup_app_r by (rewrite (flat_map_seq_length f c n Hc); lia).
    rewrite (flat_map_seq_length f c n Hc).
    now replace (c * n + k - c * n)%nat with k by lia.
  - rewrite lookup_app_l by (rewrite (flat_map_seq_length f c n Hc); nia).
    apply IH. lia.
Qed.

End TextureFacts.

(** X22.  The texture built for a material.  For a material whose texture
    id is not -1, with a width w and a height h in the texture tables such
    that 0 <= w*h and 4*w*h is an allowed array length, the texture is
    built (no exception), it is a new object and the texture counter goes
    up by one.  Its pixel array has 4*w*h bytes: in pixel p the first
    three bytes are the bytes offset+3p .. offset+3p+2 of [tex_rgb] (0
    where that is outside the array) and the fourth byte is 1.  The
    texture repeats 50 by 50 when the texture id is 2 and 1 by 1
    otherwise. *)
Theorem texture_pixel_layout (model : Build.Model) (matId : Build.key)
    (st : Build.State) (w h : Z) :
  let texId := Build.geti (Build.mat_texid model) matId in
  let offset := Build.geti (Build.tex_adr model) texId in
  Build.key_neq texId (-1) = true ->
  Build.geti (Build.tex_width model) texId = Some w ->
  Build.geti (Build.tex_height model) texId = Some h ->
  0 <= w * h -> w * h * 4 <= 2 ^ 53 - 1 ->
  exists t st',
    Build.makeTexture model matId st = Some (Some t, st') /\
    Build.tex_uid t = Build.textures_allocated st /\
    Build.textures_allocated st' = S (Build.textures_allocated st) /\
    Build.tex_repeat t = (if Build.key_eq texId 2 then (50, 50) else (1, 1)) /\
    length (Build.tex_data t) = (4 * Z.to_nat (w * h))%nat /\
    forall p, (p < Z.to_nat (w * h))%nat ->
      Build.tex_data t !! (4 * p + 3)%nat = Some 1 /\
      forall k, (k < 3)%nat ->
        Build.tex_data t !! (4 * p + k)%nat
        = Some (default 0
                  (Build.geti (Build.tex_rgb model)
                     (Build.at_ offset 1 (Z.of_nat p * 3 + Z.of_nat k)))).
Proof.
  cbv zeta. intros Htex Hw Hh Hlo Hhi. unfold Build.makeTexture.
  rewrite Htex, Hw, Hh. cbn [Build.mulk Build.typedArrayLength].
  replace (w * h * 4 <? 0) with false by (symmetry; apply Z.ltb_ge; lia).
  replace (2 ^ 53 - 1 <? w * h * 4) with false by (symmetry; apply Z.ltb_ge; lia).
  cbn [orb default from_option id]. eexists _, _. split; [reflexivity|].
  cbn [Build.tex_uid Build.textures_allocated Build.tex_repeat Build.tex_data].
  do 3 (split; [reflexivity|]).
  unfold Build.texturePixels. split.
  - now apply flat_map_seq_length.
  - intros p Hp. split.
    + rewrite (flat_map_seq_lookup _ 4 _ p 3) by (auto; lia). reflexivity.
    + intros k Hk.
      rewrite (flat_map_seq_lookup _ 4 _ p k) by (auto; lia).
      destruct k as [|[|[|k]]]; [reflexivity | reflexivity | reflexivity | lia].
Qed.

Lemma texture_pixel_layout_witness :
  exists t st',
    Build.makeTexture Build.texturedPairModel (Some 0)
      (Build.initialState Build.texturedPairModel) = Some (Some t, st') /\
    Build.tex_data t = [10; 20; 30; 1].
Proof.
  destruct (texture_pixel_layout Build.texturedPairModel (Some 0)
              (Build.initialState Build.texturedPairModel) 1 1
              eq_refl eq_refl eq_refl ltac:(lia) ltac:(lia))
    as (t & st' & Hmake & _).
  exists t, st'. split; [exact Hmake|].
  vm_compute in Hmake. inversion Hmake. reflexivity.
Defined.


